(** * kafka-logging-system: the log record codec, the producer and the consumer

    A shallow embedding of [internal/models/log.go], of the producer program
    ([generateLogEntry], [sendLog], the tick loop) and of the consumer program
    ([ConsumeClaim], [proccessLogMessage], [displayLog], the session loop).

    The repository calls into Go's standard library for everything the codec
    does ([encoding/json], [time], [unicode/utf8]).  Those packages are
    modelled first, in modules named after them, as far as the struct
    [LogEntry] exercises them. *)

From Stdlib Require Import String Ascii NArith ZArith QArith Bool Lia Lqa List.
From Stdlib Require DecimalString DecimalPos.
Import ListNotations.
Set Warnings "-register-all".

(** Go's [[]byte] and [string] are both sequences of bytes. *)
Definition bytes := list ascii.

Definition bs (s : string) : bytes := list_ascii_of_string s.
Definition b2n (c : ascii) : N := N_of_ascii c.
Definition n2b (n : N) : ascii := ascii_of_N n.

Definition bytes_eqb (a b : bytes) : bool :=
  if list_eq_dec ascii_dec a b then true else false.

Definition quote : ascii := "034".
Definition backslash : ascii := "092".
Definition newline : ascii := "010".

(** Decimal digits. *)
Definition digit (d : Z) : ascii := n2b (Z.to_N (48 + d)).

Definition isDigit (c : ascii) : bool :=
  (48 <=? b2n c)%N && (b2n c <=? 57)%N.

(** The decimal digits of [u >= 0], most significant first; [fuel] bounds
    their number. *)
Fixpoint digitsFuel (fuel : nat) (u : Z) : bytes :=
  match fuel with
  | O => []
  | S fuel' =>
    if (u <? 10)%Z then [digit u]
    else digitsFuel fuel' (u / 10)%Z ++ [digit (u mod 10)%Z]
  end.

Definition digits (u : Z) : bytes := digitsFuel (S (Z.to_nat (Z.log2 u))) u.

(** The longest prefix of digits, and what follows it. *)
Fixpoint spanDigits (s : bytes) : bytes * bytes :=
  match s with
  | c :: r =>
    if isDigit c then let '(d, rest) := spanDigits r in (c :: d, rest)
    else ([], s)
  | [] => ([], [])
  end.

(* ================================================================== *)
(** ** Package [unicode/utf8] *)

Module utf8.
Local Open Scope N_scope.

Definition RuneError : N := 0xFFFD.
Definition RuneSelf : N := 0x80.
Definition MaxRune : N := 0x10FFFF.
Definition surrogateMin : N := 0xD800.
Definition surrogateMax : N := 0xDFFF.
Definition rune1Max : N := 0x7F.
Definition rune2Max : N := 0x7FF.
Definition rune3Max : N := 0xFFFF.

Definition t2 : N := 0xC0.
Definition t3 : N := 0xE0.
Definition t4 : N := 0xF0.
Definition tx : N := 0x80.
Definition maskx : N := 0x3F.
Definition mask2 : N := 0x1F.
Definition mask3 : N := 0x0F.
Definition mask4 : N := 0x07.
Definition locb : N := 0x80.
Definition hicb : N := 0xBF.

(** The table [first] together with [acceptRanges]: for a leading byte that
    starts a multi-byte sequence, the sequence's size and the range the second
    byte must lie in; [None] for the entries marked [xx]. ASCII bytes (the
    entries marked [as]) are handled before the table is consulted. *)
Definition first (p0 : N) : option (nat * N * N) :=
  if p0 <? 0xC2 then None
  else if p0 <? 0xE0 then Some (2%nat, locb, hicb)
  else if p0 =? 0xE0 then Some (3%nat, 0xA0, hicb)
  else if p0 <? 0xED then Some (3%nat, locb, hicb)
  else if p0 =? 0xED then Some (3%nat, locb, 0x9F)
  else if p0 <? 0xF0 then Some (3%nat, locb, hicb)
  else if p0 =? 0xF0 then Some (4%nat, 0x90, hicb)
  else if p0 <? 0xF4 then Some (4%nat, locb, hicb)
  else if p0 =? 0xF4 then Some (4%nat, locb, 0x8F)
  else None.

(** [utf8.DecodeRune]: the first rune of [p] and its width in bytes;
    [(RuneError, 0)] on empty input, [(RuneError, 1)] on an invalid encoding. *)
Definition DecodeRune (p : bytes) : N * nat :=
  match p with
  | [] => (RuneError, 0%nat)
  | c0 :: _ =>
    let p0 := b2n c0 in
    if p0 <? RuneSelf then (p0, 1%nat) else
    match first p0 with
    | None => (RuneError, 1%nat)
    | Some (sz, lo, hi) =>
      if (length p <? sz)%nat then (RuneError, 1%nat) else
      let b1 := b2n (nth 1 p zero) in
      if (b1 <? lo) || (hi <? b1) then (RuneError, 1%nat) else
      if (sz <=? 2)%nat then
        (N.lor (N.shiftl (N.land p0 mask2) 6) (N.land b1 maskx), 2%nat)
      else
      let b2 := b2n (nth 2 p zero) in
      if (b2 <? locb) || (hicb <? b2) then (RuneError, 1%nat) else
      if (sz <=? 3)%nat then
        (N.lor (N.lor (N.shiftl (N.land p0 mask3) 12)
                      (N.shiftl (N.land b1 maskx) 6))
               (N.land b2 maskx), 3%nat)
      else
      let b3 := b2n (nth 3 p zero) in
      if (b3 <? locb) || (hicb <? b3) then (RuneError, 1%nat) else
        (N.lor (N.lor (N.lor (N.shiftl (N.land p0 mask4) 18)
                             (N.shiftl (N.land b1 maskx) 12))
                      (N.shiftl (N.land b2 maskx) 6))
               (N.land b3 maskx), 4%nat)
    end
  end.

(** [utf8.EncodeRune] / [utf8.AppendRune]: the UTF-8 encoding of [r];
    surrogates and values above [MaxRune] are encoded as [RuneError]. *)
Definition encode3 (r : N) : bytes :=
  [ n2b (N.lor t3 (N.shiftr r 12));
    n2b (N.lor tx (N.land (N.shiftr r 6) maskx));
    n2b (N.lor tx (N.land r maskx)) ].

Definition EncodeRune (r : N) : bytes :=
  if r <=? rune1Max then [ n2b r ]
  else if r <=? rune2Max then
    [ n2b (N.lor t2 (N.shiftr r 6)); n2b (N.lor tx (N.land r maskx)) ]
  else if (MaxRune <? r) || ((surrogateMin <=? r) && (r <=? surrogateMax))
  then encode3 RuneError
  else if r <=? rune3Max then encode3 r
  else
    [ n2b (N.lor t4 (N.shiftr r 18));
      n2b (N.lor tx (N.land (N.shiftr r 12) maskx));
      n2b (N.lor tx (N.land (N.shiftr r 6) maskx));
      n2b (N.lor tx (N.land r maskx)) ].

(** [utf8.Valid]: every rune of [p] decodes without error. The recursion
    follows the input; [fuel] bounds the number of runes. *)
Fixpoint ValidFuel (fuel : nat) (p : bytes) : bool :=
  match fuel with
  | O => match p with [] => true | _ => false end
  | S fuel' =>
    match p with
    | [] => true
    | _ =>
      let '(r, n) := DecodeRune p in
      if (r =? RuneError) && (n =? 1)%nat then false
      else ValidFuel fuel' (skipn n p)
    end
  end.

Definition Valid (p : bytes) : bool := ValidFuel (length p) p.

End utf8.

(* ================================================================== *)
(** ** Package [time] *)

Module time.
Local Open Scope Z_scope.

(** A [time.Time] is an instant together with a location.  It is modelled by
    what its accessors [Date], [Clock], [Nanosecond] and [Zone] return: the
    calendar date and wall clock in the time's own location, and that
    location's offset east of UTC, in seconds.  Two values of the model are
    equal exactly when the Go values denote the same instant ([Time.Equal])
    in zones of the same offset.  Left out: the monotonic clock reading that
    [time.Now] attaches, and the location's name and identity. *)
Record Time := mkTime {
  Year : Z;
  Month : Z;
  Day : Z;
  Hour : Z;
  Minute : Z;
  Second : Z;
  Nanosecond : Z;
  ZoneOffset : Z
}.

(** The zero [Time]: January 1, year 1, 00:00:00 UTC. *)
Definition zero : Time := mkTime 1 1 1 0 0 0 0 0.

Definition isLeap (year : Z) : bool :=
  (year mod 4 =? 0) && (negb (year mod 100 =? 0) || (year mod 400 =? 0)).

Definition daysIn (m year : Z) : Z :=
  if (m =? 2) && isLeap year then 29
  else if m =? 2 then 28
  else if (m =? 4) || (m =? 6) || (m =? 9) || (m =? 11) then 30
  else 31.

(** What every [time.Time] satisfies: its fields are a date of the calendar
    and a time of the clock. *)
Definition wf (t : Time) : Prop :=
  1 <= Month t <= 12 /\ 1 <= Day t <= daysIn (Month t) (Year t) /\
  0 <= Hour t < 24 /\ 0 <= Minute t < 60 /\ 0 <= Second t < 60 /\
  0 <= Nanosecond t < 1000000000.

(** [appendInt]: the decimal form of [x], zero-padded to [width]. *)
Definition appendInt (x : Z) (width : nat) : bytes :=
  let u := Z.abs x in
  let sign := if x <? 0 then bs "-" else [] in
  if (width =? 2)%nat && (u <? 100) then
    sign ++ [digit (u / 10); digit (u mod 10)]
  else if (width =? 4)%nat && (u <? 10000) then
    sign ++ [digit (u / 100 / 10); digit (u / 100 mod 10);
             digit (u mod 100 / 10); digit (u mod 100 mod 10)]
  else
    let ds := digits u in
    sign ++ repeat "0"%char (width - length ds) ++ ds.

Definition is0 (c : ascii) : bool := Ascii.eqb c "0".

(** Drops the tail of [0] characters. *)
Fixpoint trimZeros (b : bytes) : bytes :=
  match b with
  | [] => []
  | c :: r =>
    match trimZeros r with
    | [] => if is0 c then [] else [c]
    | r' => c :: r'
    end
  end.

(** [appendNano] for the layout element [.999999999] of [RFC3339Nano]:
    nothing for a whole second, otherwise the point and nine digits with the
    trailing zeros removed. *)
Definition appendNano (nanosec : Z) : bytes :=
  if nanosec =? 0 then []
  else bs "." ++ trimZeros (appendInt nanosec 9).

(** [appendFormatRFC3339] with [nanos = true]. The zone is printed in whole
    minutes, the division truncating towards zero as Go's does. *)
Definition appendFormatRFC3339 (t : Time) : bytes :=
  appendInt (Year t) 4 ++ bs "-" ++ appendInt (Month t) 2 ++ bs "-"
  ++ appendInt (Day t) 2 ++ bs "T"
  ++ appendInt (Hour t) 2 ++ bs ":" ++ appendInt (Minute t) 2 ++ bs ":"
  ++ appendInt (Second t) 2
  ++ appendNano (Nanosecond t)
  ++ (if ZoneOffset t =? 0 then bs "Z"
      else
        let zone := Z.quot (ZoneOffset t) 60 in
        (if zone <? 0 then bs "-" else bs "+")
        ++ appendInt (Z.abs zone / 60) 2 ++ bs ":"
        ++ appendInt (Z.abs zone mod 60) 2).

(** [appendStrictRFC3339]'s two checks on the formatted text: the year has
    exactly four digits (it is in [0,9999]) and the zone's hour has two digits
    and is below 24.  The checks are made on the numbers printed rather than
    on the printed bytes. *)
Definition strictRFC3339_ok (t : Time) : bool :=
  (0 <=? Year t) && (Year t <=? 9999)
  && ((ZoneOffset t =? 0)
      || (Z.abs (Z.quot (ZoneOffset t) 60) / 60 <? 24)).

(** [Time.MarshalJSON]: the quoted RFC 3339 text, or an error. *)
Definition MarshalJSON (t : Time) : option bytes :=
  if strictRFC3339_ok t
  then Some ([quote] ++ appendFormatRFC3339 t ++ [quote])
  else None.

(** [parseUint] of [parseRFC3339]: the decimal number [s] spells, when every
    byte is a digit and the number is within [[lo, hi]]. *)
Fixpoint atoiFrom (acc : Z) (s : bytes) : option Z :=
  match s with
  | [] => Some acc
  | c :: r =>
    if isDigit c then atoiFrom (acc * 10 + (Z.of_N (b2n c) - 48)) r else None
  end.

Definition parseUint (s : bytes) (lo hi : Z) : option Z :=
  match atoiFrom 0 s with
  | Some x => if (x <? lo) || (hi <? x) then None else Some x
  | None => None
  end.

(** [parseNanoseconds] on the digits after the point: at most nine are read
    and scaled to nanoseconds. *)
Definition parseNanoseconds (ds : bytes) : Z :=
  let ds9 := firstn 9 ds in
  match atoiFrom 0 ds9 with
  | Some ns => ns * 10 ^ (Z.of_nat (9 - length ds9))
  | None => 0
  end.

Definition slice (s : bytes) (i j : nat) : bytes := firstn (j - i) (skipn i s).

Definition byteAt (s : bytes) (i : nat) (c : ascii) : bool :=
  match nth_error s i with
  | Some c' => Ascii.eqb c' c
  | None => false
  end.

(** [parseRFC3339]: the strict reader of [2006-01-02T15:04:05[.frac](Z|+hh:mm)].
    [Time.UnmarshalJSON] tries it first. *)
Definition parseRFC3339 (s : bytes) : option Time :=
  if (length s <? 19)%nat then None else
  match parseUint (slice s 0 4) 0 9999 with None => None | Some year =>
  match parseUint (slice s 5 7) 1 12 with None => None | Some month =>
  match parseUint (slice s 8 10) 1 (daysIn month year) with None => None | Some day =>
  match parseUint (slice s 11 13) 0 23 with None => None | Some hour =>
  match parseUint (slice s 14 16) 0 59 with None => None | Some min =>
  match parseUint (slice s 17 19) 0 59 with None => None | Some sec =>
  if negb (byteAt s 4 "-" && byteAt s 7 "-" && byteAt s 10 "T"
           && byteAt s 13 ":" && byteAt s 16 ":") then None else
  let s1 := skipn 19 s in
  let '(nsec, s2) :=
    match s1 with
    | dot :: d :: _ =>
      if Ascii.eqb dot "." && isDigit d then
        let '(ds, rest) := spanDigits (tl s1) in (parseNanoseconds ds, rest)
      else (0, s1)
    | _ => (0, s1)
    end in
  if (length s2 =? 1)%nat && byteAt s2 0 "Z" then
    Some (mkTime year month day hour min sec nsec 0)
  else if negb (length s2 =? 6)%nat then None else
  match parseUint (slice s2 1 3) 0 23 with None => None | Some hr =>
  match parseUint (slice s2 4 6) 0 59 with None => None | Some mm =>
  if negb ((byteAt s2 0 "-" || byteAt s2 0 "+") && byteAt s2 3 ":") then None else
  let zoneOffset := (hr * 60 + mm) * 60 in
  Some (mkTime year month day hour min sec nsec
               (if byteAt s2 0 "-" then - zoneOffset else zoneOffset))
  end end end end end end end end.

(** [getnum]: a number of one or two digits at the head of [s], and what
    follows it; [fixed] demands the two digits. *)
Definition getnum (s : bytes) (fixed : bool) : option (Z * bytes) :=
  match s with
  | c0 :: r =>
    if isDigit c0 then
      match r with
      | c1 :: r' =>
        if isDigit c1 then
          Some ((Z.of_N (b2n c0) - 48) * 10 + (Z.of_N (b2n c1) - 48), r')
        else if fixed then None else Some (Z.of_N (b2n c0) - 48, r)
      | [] => if fixed then None else Some (Z.of_N (b2n c0) - 48, r)
      end
    else None
  | [] => None
  end.

(** [skip] for a prefix of one byte that is no space: [value] must begin
    with it. *)
Definition skip (value : bytes) (prefix : ascii) : option bytes :=
  match value with
  | c :: r => if Ascii.eqb c prefix then Some r else None
  | [] => None
  end.

Definition commaOrPeriod (c : ascii) : bool :=
  Ascii.eqb c "." || Ascii.eqb c ",".

(** [Parse(RFC3339, value)]: the general parser [parse] run on the layout
    [2006-01-02T15:04:05Z07:00], element by element.  The year is four
    digits; month, day, minute and second are two digits each, the hour is
    one digit or two; a fraction of the second may follow the second after
    a period or a comma, though the layout has none; the zone is [Z] or a
    sign and [hh:mm], where an hour of 24 and a minute of 60 pass the range
    test; nothing may follow the zone.  The day is checked against the month
    once the whole text is read. *)
Definition Parse_RFC3339 (value : bytes) : option Time :=
  (* stdLongYear *)
  if (length value <? 4)%nat then None else
  match atoiFrom 0 (firstn 4 value) with None => None | Some year =>
  match skip (skipn 4 value) "-" with None => None | Some value =>
  (* stdZeroMonth *)
  match getnum value true with None => None | Some (month, value) =>
  if (month <=? 0) || (12 <? month) then None else
  match skip value "-" with None => None | Some value =>
  (* stdZeroDay *)
  match getnum value true with None => None | Some (day, value) =>
  match skip value "T" with None => None | Some value =>
  (* stdHour *)
  match getnum value false with None => None | Some (hour, value) =>
  if (hour <? 0) || (24 <=? hour) then None else
  match skip value ":" with None => None | Some value =>
  (* stdZeroMinute *)
  match getnum value true with None => None | Some (min, value) =>
  if (min <? 0) || (60 <=? min) then None else
  match skip value ":" with None => None | Some value =>
  (* stdZeroSecond, and the fraction the layout does not have *)
  match getnum value true with None => None | Some (sec, value) =>
  if (sec <? 0) || (60 <=? sec) then None else
  let '(nsec, value) :=
    match value with
    | sep :: d :: _ =>
      if commaOrPeriod sep && isDigit d then
        let '(ds, rest) := spanDigits (tl value) in (parseNanoseconds ds, rest)
      else (0, value)
    | _ => (0, value)
    end in
  (* stdISO8601ColonTZ *)
  match
    if byteAt value 0 "Z" then Some (0, skipn 1 value) else
    if (length value <? 6)%nat then None else
    if negb (byteAt value 3 ":") then None else
    match getnum (slice value 1 3) true with None => None | Some (hr, _) =>
    match getnum (slice value 4 6) true with None => None | Some (mm, _) =>
    if (24 <? hr) || (60 <? mm) then None else
    let zoneOffset := (hr * 60 + mm) * 60 in
    if byteAt value 0 "+" then Some (zoneOffset, skipn 6 value)
    else if byteAt value 0 "-" then Some (- zoneOffset, skipn 6 value)
    else None
    end end
  with None => None | Some (zoneOffset, value) =>
  (* the end of the layout: no text may be left *)
  if negb (length value =? 0)%nat then None else
  (* the day of the month *)
  if (day <? 1) || (daysIn month year <? day) then None else
  Some (mkTime year month day hour min sec nsec zoneOffset)
  end end end end end end end end end end end end.

(** [parseStrictRFC3339]: the strict reader, and [Parse] when it declines.
    What [Parse] accepts is returned as it is: the checks that follow it in
    the source stand behind a [case true]. *)
Definition parseStrictRFC3339 (b : bytes) : option Time :=
  match parseRFC3339 b with
  | Some t => Some t
  | None => Parse_RFC3339 b
  end.

(** [Time.UnmarshalJSON] on the receiver [t]: the receiver as the call
    leaves it, and whether the error returned is [nil].  [null] leaves the
    receiver as it is, and so does a text that is no JSON string, which is
    an error; the content of a string, taken as it stands between the
    quotes, is parsed and the result assigned, which on an error of the
    parser is the zero [Time]. *)
Definition UnmarshalJSON (t : Time) (data : bytes) : Time * bool :=
  if bytes_eqb data (bs "null") then (t, true) else
  match data with
  | q :: rest =>
    if (2 <=? length data)%nat && Ascii.eqb q quote
       && Ascii.eqb (last data Ascii.zero) quote
    then
      match parseStrictRFC3339 (removelast rest) with
      | Some t' => (t', true)
      | None => (zero, false)
      end
    else (t, false)
  | [] => (t, false)
  end.

(** [Time.Format] with the layout [15:04:05]. *)
Definition Format_15_04_05 (t : Time) : bytes :=
  appendInt (Hour t) 2 ++ bs ":" ++ appendInt (Minute t) 2 ++ bs ":"
  ++ appendInt (Second t) 2.

End time.

(* ================================================================== *)
(** ** Package [encoding/json] *)

Module json.
Local Open Scope N_scope.

(** *** Encoding of strings *)

(** [htmlSafeSet]: the ASCII bytes written as they are when HTML escaping is
    on, as it is for [json.Marshal]: everything from the space on, except the
    quote, the backslash and the characters [<], [>] and [&]. *)
Definition htmlSafeSet (b : N) : bool :=
  (0x20 <=? b) && negb (b =? 0x22) && negb (b =? 0x5C)
  && negb (b =? 0x3C) && negb (b =? 0x3E) && negb (b =? 0x26).

Definition hex (n : N) : ascii := nth (N.to_nat n) (bs "0123456789abcdef") zero.

(** The escape of an ASCII byte outside [htmlSafeSet] (Go 1.22 and later; up
    to 1.21 the backspace and the form feed are written [\u0008], [\u000c]). *)
Definition escapeByte (b : N) : bytes :=
  if (b =? 0x5C) || (b =? 0x22) then [backslash; n2b b]
  else if b =? 0x08 then [backslash; "b"%char]
  else if b =? 0x0C then [backslash; "f"%char]
  else if b =? 0x0A then [backslash; "n"%char]
  else if b =? 0x0D then [backslash; "r"%char]
  else if b =? 0x09 then [backslash; "t"%char]
  else [backslash; "u"%char; "0"%char; "0"%char;
        hex (N.shiftr b 4); hex (N.land b 0xF)].

(** The loop of [appendString]: what stands between the quotes. Invalid
    UTF-8 is written as the escape of U+FFFD, and U+2028 and U+2029 are
    escaped. *)
Fixpoint appendStringFuel (fuel : nat) (src : bytes) : bytes :=
  match fuel with
  | O => []
  | S fuel' =>
    match src with
    | [] => []
    | c :: rest =>
      let b := b2n c in
      if b <? utf8.RuneSelf then
        (if htmlSafeSet b then [c] else escapeByte b)
        ++ appendStringFuel fuel' rest
      else
        let '(r, size) := utf8.DecodeRune src in
        if (r =? utf8.RuneError) && (size =? 1)%nat then
          (backslash :: bs "ufffd") ++ appendStringFuel fuel' (skipn size src)
        else if (r =? 0x2028) || (r =? 0x2029) then
          (backslash :: bs "u202" ++ [hex (N.land r 0xF)])
          ++ appendStringFuel fuel' (skipn size src)
        else
          firstn size src ++ appendStringFuel fuel' (skipn size src)
    end
  end.

Definition escapeString (src : bytes) : bytes :=
  appendStringFuel (length src) src.

Definition appendString (src : bytes) : bytes :=
  [quote] ++ escapeString src ++ [quote].

(** *** The scanner *)

(** A JSON text as the scanner delimits it. Strings and numbers keep the
    bytes of the input: a string the bytes between its quotes, escapes
    included. *)
Inductive value :=
| VNull
| VBool (b : bool)
| VNumber (raw : bytes)
| VString (raw : bytes)
| VArray (elems : list value)
| VObject (members : list (bytes * value)).

Definition isSpace (c : ascii) : bool :=
  Ascii.eqb c " " || Ascii.eqb c "009" || Ascii.eqb c "013" || Ascii.eqb c "010".

Fixpoint skipSpace (s : bytes) : bytes :=
  match s with
  | c :: r => if isSpace c then skipSpace r else s
  | [] => []
  end.

Definition isHex (c : ascii) : bool :=
  isDigit c
  || ((97 <=? b2n c) && (b2n c <=? 102))
  || ((65 <=? b2n c) && (b2n c <=? 70)).

Definition isEscapeChar (c : ascii) : bool :=
  Ascii.eqb c "b" || Ascii.eqb c "f" || Ascii.eqb c "n" || Ascii.eqb c "r"
  || Ascii.eqb c "t" || Ascii.eqb c backslash || Ascii.eqb c "/"
  || Ascii.eqb c quote.

(** The states [stateInString], [stateInStringEsc] and [stateInStringEscU...]:
    from just after the opening quote to the closing one. The result is the
    raw content and the input after the closing quote. *)
Fixpoint scanString (s : bytes) : option (bytes * bytes) :=
  match s with
  | [] => None
  | c :: r =>
    if Ascii.eqb c quote then Some ([], r)
    else if Ascii.eqb c backslash then
      match r with
      | [] => None
      | e :: r1 =>
        if isEscapeChar e then
          match scanString r1 with
          | Some (raw, rest) => Some (c :: e :: raw, rest)
          | None => None
          end
        else if Ascii.eqb e "u" then
          match r1 with
          | h1 :: h2 :: h3 :: h4 :: r2 =>
            if isHex h1 && isHex h2 && isHex h3 && isHex h4 then
              match scanString r2 with
              | Some (raw, rest) =>
                Some (c :: e :: h1 :: h2 :: h3 :: h4 :: raw, rest)
              | None => None
              end
            else None
          | _ => None
          end
        else None
      end
    else if b2n c <? 0x20 then None
    else
      match scanString r with
      | Some (raw, rest) => Some (c :: raw, rest)
      | None => None
      end
  end.

(** The number states ([stateNeg], [state0], [state1], [stateDot],
    [stateDot0], [stateE], [stateESign], [stateE0]). *)
Definition scanNumber (s : bytes) : option (bytes * bytes) :=
  let '(sign, s0) :=
    match s with
    | c :: r => if Ascii.eqb c "-" then ([c], r) else ([], s)
    | [] => ([], s)
    end in
  match s0 with
  | [] => None
  | c :: r =>
    let intPart :=
      if Ascii.eqb c "0" then Some ([c], r)
      else if isDigit c then
        let '(ds, r') := spanDigits r in Some (c :: ds, r')
      else None in
    match intPart with
    | None => None
    | Some (ip, r1) =>
      let fracPart :=
        match r1 with
        | d :: r2 =>
          if Ascii.eqb d "." then
            match spanDigits r2 with
            | ([], _) => None
            | (ds, r3) => Some (d :: ds, r3)
            end
          else Some ([], r1)
        | [] => Some ([], r1)
        end in
      match fracPart with
      | None => None
      | Some (fp, r3) =>
        let expPart :=
          match r3 with
          | e :: r4 =>
            if Ascii.eqb e "e" || Ascii.eqb e "E" then
              let '(sg, r5) :=
                match r4 with
                | g :: r' =>
                  if Ascii.eqb g "+" || Ascii.eqb g "-" then ([g], r')
                  else ([], r4)
                | [] => ([], r4)
                end in
              match spanDigits r5 with
              | ([], _) => None
              | (ds, r6) => Some (e :: sg ++ ds, r6)
              end
            else Some ([], r3)
          | [] => Some ([], r3)
          end in
        match expPart with
        | None => None
        | Some (ep, r6) => Some (sign ++ ip ++ fp ++ ep, r6)
        end
      end
    end
  end.

(** The literals [true], [false] and [null]. *)
Definition scanLiteral (lit : bytes) (v : value) (s : bytes)
  : option (value * bytes) :=
  if bytes_eqb (firstn (length lit) s) lit
  then Some (v, skipn (length lit) s) else None.

Definition maxNestingDepth : N := 10000.

(** One value ([stateBeginValue] up to [stateEndValue]), with the input left
    after it. [depth] is the number of arrays and objects open around the
    value; [fuel] bounds the recursion. *)
Fixpoint scanValue (fuel : nat) (depth : N) (s : bytes) {struct fuel}
  : option (value * bytes) :=
  match fuel with
  | O => None
  | S fuel' =>
    match skipSpace s with
    | [] => None
    | c :: r =>
      if Ascii.eqb c "{" then
        if maxNestingDepth <? depth + 1 then None else
        match skipSpace r with
        | c' :: r' =>
          if Ascii.eqb c' "}" then Some (VObject [], r')
          else
            match scanMembers fuel' (depth + 1) r with
            | Some (ms, rest) => Some (VObject ms, rest)
            | None => None
            end
        | [] => None
        end
      else if Ascii.eqb c "[" then
        if maxNestingDepth <? depth + 1 then None else
        match skipSpace r with
        | c' :: r' =>
          if Ascii.eqb c' "]" then Some (VArray [], r')
          else
            match scanElements fuel' (depth + 1) r with
            | Some (vs, rest) => Some (VArray vs, rest)
            | None => None
            end
        | [] => None
        end
      else if Ascii.eqb c quote then
        match scanString r with
        | Some (raw, rest) => Some (VString raw, rest)
        | None => None
        end
      else if Ascii.eqb c "-" || isDigit c then
        match scanNumber (c :: r) with
        | Some (raw, rest) => Some (VNumber raw, rest)
        | None => None
        end
      else if Ascii.eqb c "t" then scanLiteral (bs "true") (VBool true) (c :: r)
      else if Ascii.eqb c "f" then scanLiteral (bs "false") (VBool false) (c :: r)
      else if Ascii.eqb c "n" then scanLiteral (bs "null") VNull (c :: r)
      else None
    end
  end

(** The elements of an array from the first one on, up to the closing
    bracket. *)
with scanElements (fuel : nat) (depth : N) (s : bytes) {struct fuel}
  : option (list value * bytes) :=
  match fuel with
  | O => None
  | S fuel' =>
    match scanValue fuel' depth s with
    | None => None
    | Some (v, r) =>
      match skipSpace r with
      | c :: r' =>
        if Ascii.eqb c "," then
          match scanElements fuel' depth r' with
          | Some (vs, rest) => Some (v :: vs, rest)
          | None => None
          end
        else if Ascii.eqb c "]" then Some ([v], r')
        else None
      | [] => None
      end
    end
  end

(** The members of an object from the first key on, up to the closing
    brace. *)
with scanMembers (fuel : nat) (depth : N) (s : bytes) {struct fuel}
  : option (list (bytes * value) * bytes) :=
  match fuel with
  | O => None
  | S fuel' =>
    match skipSpace s with
    | q :: r =>
      if negb (Ascii.eqb q quote) then None else
      match scanString r with
      | None => None
      | Some (key, r1) =>
        match skipSpace r1 with
        | colon :: r2 =>
          if negb (Ascii.eqb colon ":") then None else
          match scanValue fuel' depth r2 with
          | None => None
          | Some (v, r3) =>
            match skipSpace r3 with
            | c :: r4 =>
              if Ascii.eqb c "," then
                match scanMembers fuel' depth r4 with
                | Some (ms, rest) => Some ((key, v) :: ms, rest)
                | None => None
                end
              else if Ascii.eqb c "}" then Some ([(key, v)], r4)
              else None
            | [] => None
            end
          end
        | [] => None
        end
      end
    | [] => None
    end
  end.

(** [checkValid]: the whole of [data] is one JSON value with nothing but space
    around it. No value nests deeper than the input is long, and a level of
    nesting costs two units of [fuel]. *)
Definition checkValid (data : bytes) : option value :=
  match scanValue (2 * length data + 2) 0 data with
  | Some (v, rest) =>
    match skipSpace rest with
    | [] => Some v
    | _ => None
    end
  | None => None
  end.

(** *** Decoding of strings *)

Definition hexval (c : ascii) : option N :=
  let b := b2n c in
  if isDigit c then Some (b - 48)
  else if (97 <=? b) && (b <=? 102) then Some (b - 97 + 10)
  else if (65 <=? b) && (b <=? 70) then Some (b - 65 + 10)
  else None.

(** [getu4]: the number the four hexadecimal digits of a [\uXXXX] at the head
    of [s] spell; [None] stands for Go's [-1]. *)
Definition getu4 (s : bytes) : option N :=
  match s with
  | c :: u :: h1 :: h2 :: h3 :: h4 :: _ =>
    if Ascii.eqb c backslash && Ascii.eqb u "u" then
      match hexval h1, hexval h2, hexval h3, hexval h4 with
      | Some v1, Some v2, Some v3, Some v4 =>
        Some (((v1 * 16 + v2) * 16 + v3) * 16 + v4)
      | _, _, _, _ => None
      end
    else None
  | _ => None
  end.

Definition surr1 : N := 0xD800.
Definition surr2 : N := 0xDC00.
Definition surr3 : N := 0xE000.

(** [utf16.IsSurrogate] and [utf16.DecodeRune]. *)
Definition IsSurrogate (r : N) : bool := (surr1 <=? r) && (r <? surr3).

Definition utf16_DecodeRune (r1 : N) (r2 : option N) : N :=
  match r2 with
  | Some r2 =>
    if (surr1 <=? r1) && (r1 <? surr2) && (surr2 <=? r2) && (r2 <? surr3)
    then N.lor (N.shiftl (r1 - surr1) 10) (r2 - surr2) + 0x10000
    else utf8.RuneError
  | None => utf8.RuneError
  end.

Definition unescapeChar (e : ascii) : option ascii :=
  if Ascii.eqb e quote || Ascii.eqb e backslash || Ascii.eqb e "/"
     || Ascii.eqb e "'" then Some e
  else if Ascii.eqb e "b" then Some "008"%char
  else if Ascii.eqb e "f" then Some "012"%char
  else if Ascii.eqb e "n" then Some "010"%char
  else if Ascii.eqb e "r" then Some "013"%char
  else if Ascii.eqb e "t" then Some "009"%char
  else None.

(** The loop of [unquoteBytes] over the content of a string: escapes are
    replaced by what they denote, a surrogate pair by its rune, a lone
    surrogate and invalid UTF-8 by U+FFFD. [None] is [ok = false]. (Go
    returns the content itself when it holds nothing to replace; the loop
    copies such a content byte for byte.) *)
Fixpoint unquoteFuel (fuel : nat) (s : bytes) : option bytes :=
  match s with
  | [] => Some []
  | c :: r =>
    match fuel with
    | O => None
    | S fuel' =>
      if Ascii.eqb c backslash then
        match r with
        | [] => None
        | e :: r1 =>
          if Ascii.eqb e "u" then
            match getu4 s with
            | None => None
            | Some rr =>
              let s6 := skipn 6 s in
              if IsSurrogate rr then
                let dec := utf16_DecodeRune rr (getu4 s6) in
                if negb (dec =? utf8.RuneError) then
                  option_map (app (utf8.EncodeRune dec))
                             (unquoteFuel fuel' (skipn 6 s6))
                else
                  option_map (app (utf8.EncodeRune utf8.RuneError))
                             (unquoteFuel fuel' s6)
              else
                option_map (app (utf8.EncodeRune rr)) (unquoteFuel fuel' s6)
            end
          else
            match unescapeChar e with
            | Some d => option_map (cons d) (unquoteFuel fuel' r1)
            | None => None
            end
        end
      else if Ascii.eqb c quote || (b2n c <? 0x20) then None
      else if b2n c <? utf8.RuneSelf then
        option_map (cons c) (unquoteFuel fuel' r)
      else
        let '(rr, size) := utf8.DecodeRune s in
        option_map (app (utf8.EncodeRune rr)) (unquoteFuel fuel' (skipn size s))
    end
  end.

Definition unquote (raw : bytes) : option bytes :=
  unquoteFuel (length raw) raw.

(** *** Matching of object keys with struct fields *)

(** [foldRune] on the runes that matter for names made of ASCII letters: the
    long s and the Kelvin sign fold to [S] and [K]; every other rune beyond
    ASCII folds to a rune beyond ASCII, which is all that is used of it. *)
Definition foldRune (r : N) : N :=
  if r =? 0x17F then 0x53 else if r =? 0x212A then 0x4B else r.

(** [foldName]: ASCII letters in upper case, other runes folded. *)
Fixpoint foldNameFuel (fuel : nat) (s : bytes) : bytes :=
  match fuel with
  | O => []
  | S fuel' =>
    match s with
    | [] => []
    | c :: r =>
      let b := b2n c in
      if b <? utf8.RuneSelf then
        (if (97 <=? b) && (b <=? 122) then n2b (b - 32) else c)
        :: foldNameFuel fuel' r
      else
        let '(rr, size) := utf8.DecodeRune s in
        utf8.EncodeRune (foldRune rr) ++ foldNameFuel fuel' (skipn size s)
    end
  end.

Definition foldName (s : bytes) : bytes := foldNameFuel (length s) s.

(** The field a key selects among the JSON names [names] of a struct's
    fields: the one of exactly that name, or else the first whose folded
    name is the key's. The result is the field's index. *)
Fixpoint indexOf (eq : bytes -> bool) (names : list bytes) (i : nat) : option nat :=
  match names with
  | [] => None
  | n :: rest => if eq n then Some i else indexOf eq rest (S i)
  end.

Definition findField (names : list bytes) (key : bytes) : option nat :=
  match indexOf (bytes_eqb key) names 0 with
  | Some i => Some i
  | None =>
    indexOf (fun n => bytes_eqb (foldName n) (foldName key)) names 0
  end.

(** *** Errors *)

Inductive error :=
| SyntaxError
  (** [*json.SyntaxError]: the input is not a JSON text *)
| UnmarshalTypeError (jsonKind : bytes) (field : bytes)
  (** [*json.UnmarshalTypeError]: a JSON value of kind [jsonKind] where the
      field of that JSON name (none: the struct itself) cannot hold one *)
| TimeUnmarshalError
  (** the error [Time.UnmarshalJSON] returned *)
| MarshalerError
  (** [*json.MarshalerError]: the error [Time.MarshalJSON] returned *)
| PhaseError
  (** the decoder out of step with the scanner: Go panics *).

(** The kind of a JSON value as [UnmarshalTypeError.Value] names it. *)
Definition kindOf (v : value) : bytes :=
  match v with
  | VNull => bs "null"
  | VBool _ => bs "bool"
  | VNumber _ => bs "number"
  | VString _ => bs "string"
  | VArray _ => bs "array"
  | VObject _ => bs "object"
  end.

(** The bytes of the input a value was read from, as an [Unmarshaler] is
    handed them. Of an array or an object only the opening bracket or brace
    is kept: [Time.UnmarshalJSON], the one [Unmarshaler] here, refuses the
    text on its first byte. *)
Definition literalOf (v : value) : bytes :=
  match v with
  | VNull => bs "null"
  | VBool true => bs "true"
  | VBool false => bs "false"
  | VNumber raw => raw
  | VString raw => [quote] ++ raw ++ [quote]
  | VArray _ => bs "["
  | VObject _ => bs "{"
  end.

End json.

(* ================================================================== *)
(** ** [internal/models/log.go] *)

Module models.

Definition LogLevel := bytes.

Definition DEBUG : LogLevel := bs "DEBUG".
Definition INFO : LogLevel := bs "INFO".
Definition WARN : LogLevel := bs "WARN".
Definition ERROR : LogLevel := bs "ERROR".
Definition FATAL : LogLevel := bs "FATAL".

Record LogEntry := mkLogEntry {
  Timestamp : time.Time;
  Application : bytes;
  Level : LogLevel;
  Message : bytes
}.

(** The zero value of the struct. *)
Definition zeroLogEntry : LogEntry := mkLogEntry time.zero [] [] [].

(** The JSON names of the fields, from the struct tags, in field order. *)
Definition fieldNames : list bytes :=
  [bs "timestamp"; bs "application"; bs "level"; bs "message"].

(** [json.Marshal] at the type [*LogEntry]: an object of the four fields in
    their order. [Timestamp] is an [json.Marshaler]; the other fields are
    strings. *)
Definition Marshal (l : LogEntry) : option bytes * option json.error :=
  match time.MarshalJSON (Timestamp l) with
  | None => (None, Some json.MarshalerError)
  | Some ts =>
    (Some (bs "{" ++ json.appendString (bs "timestamp") ++ bs ":" ++ ts
           ++ bs "," ++ json.appendString (bs "application") ++ bs ":"
           ++ json.appendString (Application l)
           ++ bs "," ++ json.appendString (bs "level") ++ bs ":"
           ++ json.appendString (Level l)
           ++ bs "," ++ json.appendString (bs "message") ++ bs ":"
           ++ json.appendString (Message l)
           ++ bs "}"),
     None)
  end.

Definition ToJson (l : LogEntry) : option bytes * option json.error :=
  Marshal l.

(** The decoder's state while it fills a [LogEntry]: the entry so far and
    the first error saved ([d.savedError]). *)
Definition setString (f : nat) (e : LogEntry) (s : bytes) : LogEntry :=
  match f with
  | 1%nat => mkLogEntry (Timestamp e) s (Level e) (Message e)
  | 2%nat => mkLogEntry (Timestamp e) (Application e) s (Message e)
  | _ => mkLogEntry (Timestamp e) (Application e) (Level e) s
  end.

Definition saveError (saved : option json.error) (err : json.error)
  : option json.error :=
  match saved with
  | Some _ => saved
  | None => Some err
  end.

(** One member of the object stored into the entry. The result is the new
    state, or the error that ends the decoding at once. A key that selects
    no field is skipped. [Timestamp] is an [Unmarshaler] and is handed the
    member's text: the field holds afterwards what [UnmarshalJSON] has left
    in its receiver, also when it returns an error.  A string field takes a
    JSON string, keeps its value on [null], and saves an
    [UnmarshalTypeError] on anything else. *)
Definition storeMember (e : LogEntry) (saved : option json.error)
           (key : bytes) (v : json.value)
  : (LogEntry * option json.error) + (LogEntry * json.error) :=
  match json.unquote key with
  | None => inr (e, json.PhaseError)
  | Some k =>
    match json.findField fieldNames k with
    | None => inl (e, saved)
    | Some O =>
      match time.UnmarshalJSON (Timestamp e) (json.literalOf v) with
      | (t, true) =>
        inl (mkLogEntry t (Application e) (Level e) (Message e), saved)
      | (t, false) =>
        inr (mkLogEntry t (Application e) (Level e) (Message e),
             json.TimeUnmarshalError)
      end
    | Some f =>
      match v with
      | json.VNull => inl (e, saved)
      | json.VString raw =>
        match json.unquote raw with
        | Some s => inl (setString f e s, saved)
        | None => inr (e, json.PhaseError)
        end
      | _ =>
        inl (e, saveError saved
                  (json.UnmarshalTypeError (json.kindOf v) (nth f fieldNames [])))
      end
    end
  end.

Fixpoint storeMembers (e : LogEntry) (saved : option json.error)
         (ms : list (bytes * json.value)) : LogEntry * option json.error :=
  match ms with
  | [] => (e, saved)
  | (key, v) :: rest =>
    match storeMember e saved key v with
    | inl (e', saved') => storeMembers e' saved' rest
    | inr (e', err) => (e', Some err)
    end
  end.

(** [json.Unmarshal] at the type [*LogEntry], into [entry]: the input is
    checked as a whole first and nothing is stored when it is no JSON text;
    [null] stores nothing; an object is stored member by member; any other
    value is an [UnmarshalTypeError]. *)
Definition Unmarshal (data : bytes) (entry : LogEntry)
  : LogEntry * option json.error :=
  match json.checkValid data with
  | None => (entry, Some json.SyntaxError)
  | Some json.VNull => (entry, None)
  | Some (json.VObject ms) => storeMembers entry None ms
  | Some v =>
    (entry, Some (json.UnmarshalTypeError (json.kindOf v) []))
  end.

(** [FromJson] returns the pointer to its local [entry] whatever
    [json.Unmarshal] says: the entry as far as it was filled, and the
    error. *)
Definition FromJson (data : bytes) : LogEntry * option json.error :=
  Unmarshal data zeroLogEntry.

End models.

(* ================================================================== *)
(** ** What the programs exchange with their surroundings *)

(** Errors as the two programs see them. *)
Inductive error :=
| JsonError (e : json.error)
  (** an error of [encoding/json] *)
| BrokerError (text : bytes)
  (** an error of the broker client, by its text *)
| Errorf (format : bytes) (e : error)
  (** [fmt.Errorf(format, e)], the format holding one [%w] *).

(** One call that writes to the console. *)
Inductive output :=
| Stdout (text : bytes)
  (** [fmt.Printf] or [fmt.Println], by the bytes written *)
| PrintlnErr (text : bytes) (e : error)
  (** [fmt.Println(text, e)] *)
| LogLine (text : bytes)
  (** [log.Printf] or [log.Println], by the text after the time stamp *)
| LogFatal (text : bytes) (e : error)
  (** [log.Fatal(text, e)], by its operands: the line logged is the text
      with the error's text right after it *).

(** How far a program has come. *)
Inductive status :=
| Running
  (** waiting for the next event *)
| Exited (code : Z)
  (** the process has ended with this exit status *)
| Panicked (text : bytes) (e : error)
  (** [log.Panicf(text, e)]: a panic nothing recovers *).

(** The bytes the [Stdout] calls of a console add up to. *)
Fixpoint printed (out : list output) : bytes :=
  match out with
  | [] => []
  | Stdout text :: rest => text ++ printed rest
  | _ :: rest => printed rest
  end.

(** [%d] of [fmt]. *)
Definition formatInt (x : Z) : bytes :=
  (if (x <? 0)%Z then bs "-" else []) ++ digits (Z.abs x).

Module sarama.

Module ProducerMessage.
Record t := mk {
  Topic : bytes;
  Key : bytes;
  Value : bytes;
  Timestamp : time.Time
}.
End ProducerMessage.

Module ConsumerMessage.
Record t := mk {
  Value : bytes;
  Partition : Z;
  Offset : Z
}.
End ConsumerMessage.

End sarama.

(* ================================================================== *)
(** ** The producer program *)

Module producer.

Record LogProducer := mkLogProducer {
  appName : bytes
}.

(** What one call of [generateLogEntry] takes from outside: the value of
    [rand.Float32()], the number [rand.Intn(n)] is derived from (it returns
    [index mod n]), and the value of [time.Now()]. *)
Record draws := mkDraws {
  levelRand : Q;
  index : nat;
  now : time.Time
}.

Definition Intn (d : draws) (n : nat) : nat := index d mod n.

Definition infoMessages : list bytes :=
  [ bs "User logged in successfully";
    bs "data Retrieved successfully";
    bs "Service Started";
    bs "Request completed" ].

Definition warnMessages : list bytes :=
  [ bs "Slow Database query";
    bs "High Memory usage";
    bs "Connection Pool almost full";
    bs "Password failed for user";
    bs "Unauthenticated user trying to access data" ].

Definition errorMessages : list bytes :=
  [ bs "Database Connection Failed";
    bs "Invalid user credentials";
    bs "Backup Database not responding";
    bs "Service Unavailable";
    bs "Request Timeout" ].

(** The constants [0.6], [0.8] and [0.95] of the [switch]. [levelRand] is a
    [float32], so each is the [float32] next to the decimal: a multiple of
    [2^-24]. *)
Definition c0_6 : Q := 10066330 # 16777216.
Definition c0_8 : Q := 13421773 # 16777216.
Definition c0_95 : Q := 15938355 # 16777216.

(** [a < b] on the values of floats. *)
Definition Qltb (a b : Q) : bool := negb (Qle_bool b a).

Definition generateLogEntry (lp : LogProducer) (d : draws) : models.LogEntry :=
  let '(level, message) :=
    if Qltb (levelRand d) c0_6 then
      (models.INFO, nth (Intn d (length infoMessages)) infoMessages [])
    else if Qltb (levelRand d) c0_8 then
      (models.WARN, nth (Intn d (length warnMessages)) warnMessages [])
    else if Qltb (levelRand d) c0_95 then
      (models.ERROR, nth (Intn d (length errorMessages)) errorMessages [])
    else
      (models.DEBUG, bs "debug trace information") in
  models.mkLogEntry (now d) (appName lp) level message.

(** What [lp.producer.SendMessage] answers: the partition and the offset,
    or an error. *)
Definition reply := (Z * Z + error)%type.

(** What one call of [sendLog] does: the message handed to [SendMessage], if
    it came to that, the console output, and the error returned. *)
Record sendResult := mkSendResult {
  sent : option sarama.ProducerMessage.t;
  out : list output;
  err : option error
}.

Definition sendLog (lp : LogProducer) (d : draws) (r : reply) : sendResult :=
  let logentry := generateLogEntry lp d in
  match models.ToJson logentry with
  | (Some jsondata, None) =>
    let msg := sarama.ProducerMessage.mk
                 (bs "raw-logs")
                 (models.Application logentry)
                 jsondata
                 (models.Timestamp logentry) in
    match r with
    | inr e =>
      mkSendResult (Some msg) [] (Some (Errorf (bs "failed to send message %w") e))
    | inl (partition, offset) =>
      mkSendResult (Some msg)
        [Stdout (bs "[" ++ models.Application logentry
                ++ bs "] Sent lot to partition " ++ formatInt partition
                ++ bs ", offset " ++ formatInt offset ++ bs ": "
                ++ models.Level logentry ++ bs " - "
                ++ models.Message logentry ++ [newline])]
        None
    end
  | (_, Some e) =>
    mkSendResult None []
      (Some (Errorf (bs "failed to marshal logentry %w ") (JsonError e)))
  | (None, None) => mkSendResult None [] None
  end.

(** What the [select] of [main]'s loop receives. *)
Inductive event :=
| Tick (d : draws) (r : reply)
  (** the ticker fires; what the iteration draws and what the broker answers *)
| Signal
  (** an interrupt *).

(** The state of the running program: the messages handed to the broker
    client so far, the console, and how far the program has come. *)
Record world := mkWorld {
  messages : list sarama.ProducerMessage.t;
  console : list output;
  state : status
}.

Definition optList {A} (o : option A) : list A :=
  match o with Some a => [a] | None => [] end.

(** The [for { select { ... } }] of [main]. *)
Fixpoint loop (lp : LogProducer) (events : list event) (w : world) : world :=
  match events with
  | [] => w
  | Tick d r :: rest =>
    let res := sendLog lp d r in
    let printed :=
      match err res with
      | Some e => [PrintlnErr (bs "Error sending log ") e]
      | None => []
      end in
    loop lp rest
         (mkWorld (messages w ++ optList (sent res))
                  (console w ++ out res ++ printed)
                  Running)
  | Signal :: _ =>
    mkWorld (messages w)
            (console w ++ [Stdout (bs "Shutting down Producer..." ++ [newline])])
            (Exited 0)
  end.

Definition appNames : list bytes :=
  [ bs "userService"; bs "DatabaseService"; bs "AuthService";
    bs "PaymentService" ].

(** [NewLogProducer]: [connect] is the error of [sarama.NewSyncProducer],
    if any; it is returned wrapped. *)
Definition NewLogProducer (appName : bytes) (connect : option error)
  : LogProducer + error :=
  match connect with
  | Some err => inr (Errorf (bs "failed to create producer %w") err)
  | None => inl (mkLogProducer appName)
  end.

(** [main]: [app] is the number behind [rand.Intn(len(appNames))],
    [connect] the error of [sarama.NewSyncProducer], if any. *)
Definition main (app : nat) (connect : option error) (events : list event)
  : world :=
  let currentApp := nth (app mod length appNames) appNames [] in
  match NewLogProducer currentApp connect with
  | inr err =>
    mkWorld []
      [LogFatal (bs "Failed to create prdoducer %w") err]
      (Exited 1)
  | inl producer =>
    loop producer events
      (mkWorld []
         [Stdout (bs "starting log prdoducer for application  " ++ currentApp
                 ++ [newline]);
          Stdout (bs "Press Ctrl + c to stop..." ++ [newline])]
         Running)
  end.

(** The period of [main]'s ticker,
    [time.Second * time.Duration(rand.Intn(5)+1)], in nanoseconds; [n] is
    the number behind [rand.Intn(5)]. *)
Definition tickerPeriod (n : nat) : Z :=
  (1000000000 * Z.of_nat (n mod 5 + 1))%Z.

(** [time.NewTicker(d)] panics when [d] is not positive: [None]. *)
Definition NewTicker (d : Z) : option Z :=
  if (d <=? 0)%Z then None else Some d.

End producer.

(* ================================================================== *)
(** ** The consumer program *)

Module consumer.

Definition esc : ascii := "027".

(** The map [colors] of [displayLog], as the literal lists it. *)
Definition colors : list (models.LogLevel * bytes) :=
  [ (models.DEBUG, esc :: bs "[36m");
    (models.INFO, esc :: bs "[32m");
    (models.WARN, esc :: bs "[33m");
    (models.ERROR, esc :: bs "[31m");
    (models.FATAL, esc :: bs "[35m") ].

Definition reset : bytes := esc :: bs "[0m".

(** [color, exists := colors[level]]. *)
Fixpoint lookup (m : list (models.LogLevel * bytes)) (level : models.LogLevel)
  : option bytes :=
  match m with
  | [] => None
  | (k, v) :: rest => if bytes_eqb k level then Some v else lookup rest level
  end.

Definition displayLog (entry : models.LogEntry) (partition offset : Z)
  : list output :=
  let color :=
    match lookup colors (models.Level entry) with
    | Some c => c
    | None => reset
    end in
  [ Stdout (color ++ bs "[" ++ time.Format_15_04_05 (models.Timestamp entry)
           ++ bs "] [" ++ models.Application entry
           ++ bs "] [" ++ models.Level entry
           ++ bs "] " ++ models.Message entry ++ reset);
    Stdout (bs " (p:" ++ formatInt partition ++ bs ", o:" ++ formatInt offset
           ++ bs ")");
    Stdout [newline] ].

Definition proccessLogMessage (message : sarama.ConsumerMessage.t)
  : list output :=
  match models.FromJson (sarama.ConsumerMessage.Value message) with
  | (_, Some e) => [PrintlnErr (bs "Error parsing the log message ") (JsonError e)]
  | (logEntry, None) =>
    displayLog logEntry (sarama.ConsumerMessage.Partition message)
               (sarama.ConsumerMessage.Offset message)
  end.

(** What the [select] of [ConsumeClaim] receives: a message of the claim
    ([None] is the [nil] a closed channel yields), or the end of the
    session's context. *)
Inductive selected :=
| Message (m : option sarama.ConsumerMessage.t)
| Done.

(** The console and the messages marked as processed
    ([session.MarkMessage]), in the order of the calls. *)
Record session := mkSession {
  console : list output;
  marked : list sarama.ConsumerMessage.t
}.

(** [ConsumeClaim]: the session it leaves, and whether it has returned
    ([true]; it returns [nil]) or waits in its [select] for more. *)
Fixpoint ConsumeClaim (events : list selected) (s : session) : session * bool :=
  match events with
  | [] => (s, false)
  | Message None :: _ => (s, true)
  | Message (Some message) :: rest =>
    ConsumeClaim rest
      (mkSession (console s ++ proccessLogMessage message)
                 (marked s ++ [message]))
  | Done :: _ => (s, true)
  end.

(** The goroutine of [main]: [client.Consume] is called again whenever it
    has returned without an error ([context.Background().Err()] is always
    [nil]), and its error is a panic. [results] are the results of the
    successive calls; the number returned counts the calls that ended without
    an error. *)
Fixpoint consumeLoop (results : list (option error)) (joined : nat)
  : status * nat :=
  match results with
  | [] => (Running, joined)
  | None :: rest => consumeLoop rest (S joined)
  | Some e :: _ => (Panicked (bs "Error from Consumer %v") e, joined)
  end.

(** [main] up to the start of the goroutine: [connect] is the error of
    [sarama.NewConsumerGroup], if any. *)
Definition main (connect : option error) (results : list (option error))
  : status * nat :=
  match connect with
  | Some e => (Exited 1, O)
  | None => consumeLoop results O
  end.

(** The channel [consumer.ready]: nothing is sent on it, it is only
    closed. *)
Inductive chan := Open | Closed.

Record Consumer := mkConsumer {
  ready : chan
}.

(** [Setup]: [close(consumer.ready)], and [nil]. To close a closed channel
    is a run-time panic: [None]. *)
Definition Setup (c : Consumer) : option Consumer :=
  match ready c with
  | Open => Some (mkConsumer Closed)
  | Closed => None
  end.

(** [Cleanup] returns [nil]. *)
Definition Cleanup (c : Consumer) : option error := None.

(** What one call of [client.Consume] is to the handler and to the
    goroutine: the number of times it runs [Setup] (it is run at the
    beginning of a session), and the error the call returns, if any. *)
Record consumeCall := mkCall {
  setups : nat;
  result : option error
}.

Fixpoint runSetup (n : nat) (c : Consumer) : option Consumer :=
  match n with
  | O => Some c
  | S n' =>
    match Setup c with
    | Some c' => runSetup n' c'
    | None => None
    end
  end.

(** Where the goroutine of [main] stands. *)
Inductive outcome :=
| Consuming (c : Consumer) (joined : nat)
  (** about to call [client.Consume], after [joined] sessions *)
| ClosePanic
  (** the run-time panic of [close] on a closed channel *)
| LogPanic (e : error)
  (** [log.Panicf("Error from Consumer %v", e)] *)
| Returned (joined : nat)
  (** the function has returned, and [wg.Done()] has run *).

(** [context.Background().Err()]. *)
Definition Background_Err : option error := None.

(** The goroutine of [main] with the handler's channel: after a call of
    [client.Consume] that returned no error, and the context not being
    cancelled, [consumer.ready] is made anew and [client.Consume] is called
    again. *)
Fixpoint goroutine (calls : list consumeCall) (c : Consumer) (joined : nat)
  : outcome :=
  match calls with
  | [] => Consuming c joined
  | call :: rest =>
    match runSetup (setups call) c with
    | None => ClosePanic
    | Some _ =>
      match result call with
      | Some e => LogPanic e
      | None =>
        match Background_Err with
        | Some _ => Returned joined
        | None => goroutine rest (mkConsumer Open) (S joined)
        end
      end
    end
  end.

(** What happens to the process while [ConsumeClaim] runs: its [select]
    receives something, or the process is sent an interrupt, [main] having
    asked for it ([signal.Notify], line 146). *)
Inductive happening :=
| Selected (ev : selected)
| Interrupt.

(** What the [select] of [ConsumeClaim] receives of it.  The interrupt is
    not among it: it is [main] that receives it, from its channel
    [sigterm] (line 148), and [main] then logs and waits for the goroutine
    ([wg.Wait()]); it cancels no context, the one it has handed to
    [client.Consume] being [context.Background()]. *)
Fixpoint received (hs : list happening) : list selected :=
  match hs with
  | [] => []
  | Selected ev :: rest => ev :: received rest
  | Interrupt :: rest => received rest
  end.

End consumer.

(* ================================================================== *)
(** * Properties *)

Ltac nlia := zify; Z.to_euclidean_division_equations; lia.

Lemma bytes_eqb_eq a b : bytes_eqb a b = true <-> a = b.
Proof.
  unfold bytes_eqb. destruct (list_eq_dec ascii_dec a b); split; congruence.
Qed.

Lemma bytes_eqb_refl a : bytes_eqb a a = true.
Proof. now apply bytes_eqb_eq. Qed.

Lemma bytes_eqb_neq a b : a <> b -> bytes_eqb a b = false.
Proof.
  unfold bytes_eqb. destruct (list_eq_dec ascii_dec a b); congruence.
Qed.

Lemma b2n_lt c : (b2n c < 256)%N.
Proof. apply N_ascii_bounded. Qed.

Lemma n2b_b2n c : n2b (b2n c) = c.
Proof. apply ascii_N_embedding. Qed.

Lemma b2n_n2b n : (n < 256)%N -> b2n (n2b n) = n.
Proof. apply N_ascii_embedding. Qed.

Lemma b2n_inj c d : b2n c = b2n d -> c = d.
Proof. intros H. rewrite <- (n2b_b2n c), <- (n2b_b2n d). now f_equal. Qed.

Lemma eqb_b2n c d : Ascii.eqb c d = (b2n c =? b2n d)%N.
Proof.
  destruct (Ascii.eqb_spec c d) as [->|Hne].
  - now rewrite N.eqb_refl.
  - symmetry. apply N.eqb_neq. intros H. now apply Hne, b2n_inj.
Qed.

(** ** Facts of [unicode/utf8] *)

Module Utf8Facts.
Import utf8.
Local Open Scope N_scope.

Lemma lor_add a b k : b < 2 ^ k -> N.lor (a * 2 ^ k) b = a * 2 ^ k + b.
Proof.
  intros Hb.
  assert (H0 : N.land (a * 2 ^ k) b = 0).
  { apply N.bits_inj. intros i. rewrite N.land_spec, N.bits_0.
    destruct (N.lt_ge_cases i k) as [Hi|Hi].
    - now rewrite N.mul_pow2_bits_low.
    - rewrite andb_comm.
      replace (N.testbit b i) with false; [reflexivity|].
      symmetry. rewrite <- (N.mod_small b (2 ^ k)) by assumption.
      now apply N.mod_pow2_bits_high. }
  rewrite N.add_nocarry_lxor by assumption. symmetry. now apply N.lxor_lor.
Qed.

Lemma land_maskx b : N.land b maskx = b mod 64.
Proof. change maskx with (N.ones 6). now rewrite N.land_ones. Qed.

Lemma land_mask2 b : N.land b mask2 = b mod 32.
Proof. change mask2 with (N.ones 5). now rewrite N.land_ones. Qed.

Lemma land_mask3 b : N.land b mask3 = b mod 16.
Proof. change mask3 with (N.ones 4). now rewrite N.land_ones. Qed.

Lemma land_mask4 b : N.land b mask4 = b mod 8.
Proof. change mask4 with (N.ones 3). now rewrite N.land_ones. Qed.

Lemma lor_tx b : b < 64 -> N.lor tx b = 128 + b.
Proof.
  intros. change tx with (2 * 2 ^ 6). rewrite lor_add; [reflexivity|assumption].
Qed.

Lemma lor_t2 b : b < 32 -> N.lor t2 b = 192 + b.
Proof.
  intros. change t2 with (6 * 2 ^ 5). rewrite lor_add; [reflexivity|assumption].
Qed.

Lemma lor_t3 b : b < 16 -> N.lor t3 b = 224 + b.
Proof.
  intros. change t3 with (14 * 2 ^ 4). rewrite lor_add; [reflexivity|assumption].
Qed.

Lemma lor_t4 b : b < 8 -> N.lor t4 b = 240 + b.
Proof.
  intros. change t4 with (30 * 2 ^ 3). rewrite lor_add; [reflexivity|assumption].
Qed.

Lemma rune2_arith a b :
  b < 64 -> N.lor (N.shiftl a 6) b = a * 64 + b.
Proof.
  intros. rewrite N.shiftl_mul_pow2. now apply (lor_add a b 6).
Qed.

Lemma rune3_arith a b c :
  b < 64 -> c < 64 ->
  N.lor (N.lor (N.shiftl a 12) (N.shiftl b 6)) c = a * 4096 + b * 64 + c.
Proof.
  intros. rewrite !N.shiftl_mul_pow2.
  rewrite (lor_add a (b * 2 ^ 6) 12)
    by (change (2 ^ 6) with 64; change (2 ^ 12) with 4096; lia).
  replace (a * 2 ^ 12 + b * 2 ^ 6) with ((a * 64 + b) * 2 ^ 6)
    by (change (2 ^ 6) with 64; change (2 ^ 12) with 4096; lia).
  rewrite lor_add by assumption. change (2 ^ 6) with 64. lia.
Qed.

Lemma rune4_arith a b c d :
  b < 64 -> c < 64 -> d < 64 ->
  N.lor (N.lor (N.lor (N.shiftl a 18) (N.shiftl b 12)) (N.shiftl c 6)) d
  = a * 262144 + b * 4096 + c * 64 + d.
Proof.
  intros. rewrite !N.shiftl_mul_pow2.
  rewrite (lor_add a (b * 2 ^ 12) 18)
    by (change (2 ^ 12) with 4096; change (2 ^ 18) with 262144; lia).
  replace (a * 2 ^ 18 + b * 2 ^ 12) with ((a * 64 + b) * 2 ^ 12)
    by (change (2 ^ 12) with 4096; change (2 ^ 18) with 262144; lia).
  rewrite (lor_add _ (c * 2 ^ 6) 12)
    by (change (2 ^ 6) with 64; change (2 ^ 12) with 4096; lia).
  replace ((a * 64 + b) * 2 ^ 12 + c * 2 ^ 6)
    with (((a * 64 + b) * 64 + c) * 2 ^ 6)
    by (change (2 ^ 6) with 64; change (2 ^ 12) with 4096; lia).
  rewrite lor_add by assumption. change (2 ^ 6) with 64. lia.
Qed.

Lemma first_cases p0 sz lo hi :
  first p0 = Some (sz, lo, hi) ->
  (sz = 2%nat /\ 0xC2 <= p0 < 0xE0 /\ lo = 0x80 /\ hi = 0xBF) \/
  (sz = 3%nat /\ 0xE0 <= p0 < 0xF0 /\ 0x80 <= lo /\ hi <= 0xBF /\
     (p0 = 0xE0 -> lo = 0xA0) /\ (p0 = 0xED -> hi = 0x9F)) \/
  (sz = 4%nat /\ 0xF0 <= p0 <= 0xF4 /\ 0x80 <= lo /\ hi <= 0xBF /\
     (p0 = 0xF0 -> lo = 0x90) /\ (p0 = 0xF4 -> hi = 0x8F)).
Proof.
  unfold first, locb, hicb.
  repeat match goal with
  | |- context [ ?a <? ?b ] => destruct (N.ltb_spec a b)
  | |- context [ ?a =? ?b ] => destruct (N.eqb_spec a b)
  end; intros E; inversion E; subst; lia.
Qed.

Lemma cont_byte b :
  128 <= b -> b <= 191 -> exists x, x < 64 /\ b = 128 + x /\ b mod 64 = x.
Proof. intros. exists (b - 128). repeat split; nlia. Qed.

Lemma lead_byte m k b :
  0 < k -> m * k <= b -> b < m * k + k ->
  exists h, h < k /\ b = m * k + h /\ b mod k = h.
Proof.
  intros. exists (b - m * k). repeat split; try lia.
  symmetry. apply (N.mod_unique b k m); lia.
Qed.

Lemma split64 a x :
  x < 64 -> (a * 64 + x) / 64 = a /\ (a * 64 + x) mod 64 = x.
Proof.
  intros. split.
  - symmetry. apply (N.div_unique _ 64 a x); lia.
  - symmetry. apply (N.mod_unique _ 64 a x); lia.
Qed.

(** What [DecodeRune] says of a sequence it accepts: the width is that of
    the sequence, the rune is a Unicode scalar value, one byte wide exactly
    when it is ASCII, and [EncodeRune] gives the bytes back. *)
Lemma DecodeRune_EncodeRune p r n :
  DecodeRune p = (r, n) -> p <> [] -> (r, n) <> (RuneError, 1%nat) ->
  (1 <= n <= 4)%nat /\ (n <= length p)%nat /\ EncodeRune r = firstn n p /\
  (n = 1%nat <-> r < RuneSelf) /\ r <= MaxRune /\
  ~ (surrogateMin <= r <= surrogateMax) /\
  Forall (fun c => n = 1%nat \/ 128 <= b2n c) (firstn n p).
Proof.
  destruct p as [|c0 t]; [congruence|]. intros H _ Hne.
  unfold DecodeRune in H. cbv zeta in H.
  pose proof (b2n_lt c0) as Hc0.
  destruct (N.ltb_spec (b2n c0) RuneSelf) as [Hs|Hs].
  { inversion H; subst. unfold RuneSelf, MaxRune, surrogateMin in *.
    repeat split; cbn [length firstn]; try lia.
    - unfold EncodeRune. unfold rune1Max.
      destruct (N.leb_spec (b2n c0) 127); [|lia]. now rewrite n2b_b2n.
    - repeat constructor. }
  destruct (first (b2n c0)) as [[[sz lo] hi]|] eqn:F; [|congruence].
  apply first_cases in F.
  destruct (Nat.ltb_spec (length (c0 :: t)) sz) as [Hl|Hl]; [congruence|].
  destruct t as [|c1 t]; [simpl in Hl; lia|].
  cbn [nth] in H.
  destruct (N.ltb_spec (b2n c1) lo); [simpl in H; congruence|].
  destruct (N.ltb_spec hi (b2n c1)); [simpl in H; congruence|].
  cbn [orb] in H. cbv iota in H.
  unfold RuneSelf, MaxRune, surrogateMin, surrogateMax, RuneError, locb, hicb in *.
  rewrite ?land_maskx, ?land_mask2, ?land_mask3, ?land_mask4 in H.
  destruct F as [F|[F|F]].
  - destruct F as (-> & F1 & -> & ->). cbn [Nat.leb] in H.
    destruct (cont_byte (b2n c1)) as (x1 & Hx1 & E1 & M1); [lia..|].
    destruct (lead_byte 6 32 (b2n c0)) as (h & Hh & E0 & M0); [lia..|].
    rewrite M0, M1, rune2_arith in H by assumption.
    inversion H; subst r n; clear H.
    destruct (split64 h x1 Hx1) as [D1 D2].
    repeat split; cbn [length firstn]; try lia.
    2:{ repeat (apply Forall_cons; [right; lia|]); apply Forall_nil. }
    unfold EncodeRune, rune1Max, rune2Max.
    destruct (N.leb_spec (h * 64 + x1) 127); [lia|].
    destruct (N.leb_spec (h * 64 + x1) 2047); [|lia].
    rewrite N.shiftr_div_pow2, land_maskx. change (2 ^ 6) with 64.
    rewrite D1, D2, lor_t2, lor_tx by assumption.
    change (6 * 32) with 192 in E0. rewrite <- E0, <- E1, !n2b_b2n. reflexivity.
  - destruct F as (-> & F1 & Flo & Fhi & FE0 & FED).
    destruct t as [|c2 t]; [simpl in Hl; lia|].
    cbn [nth Nat.leb] in H.
    destruct (N.ltb_spec (b2n c2) 128); [simpl in H; congruence|].
    destruct (N.ltb_spec 191 (b2n c2)); [simpl in H; congruence|].
    cbn [orb] in H. cbv iota in H.
    destruct (cont_byte (b2n c1)) as (x1 & Hx1 & E1 & M1); [lia..|].
    destruct (cont_byte (b2n c2)) as (x2 & Hx2 & E2 & M2); [lia..|].
    destruct (lead_byte 14 16 (b2n c0)) as (h & Hh & E0 & M0); [lia..|].
    rewrite M0, M1, M2, rune3_arith in H by assumption.
    inversion H; subst r n; clear H.
    replace (h * 4096 + x1 * 64 + x2) with ((h * 64 + x1) * 64 + x2) by lia.
    destruct (split64 (h * 64 + x1) x2 Hx2) as [D1 D2].
    destruct (split64 h x1 Hx1) as [D3 D4].
    set (r := (h * 64 + x1) * 64 + x2) in *.
    assert (Hr : 2048 <= r <= 65535 /\ ~ (55296 <= r <= 57343)).
    { unfold r. destruct (N.eq_dec (b2n c0) 0xE0) as [E|E];
      [specialize (FE0 E)|clear FE0];
      (destruct (N.eq_dec (b2n c0) 0xED) as [E'|E'];
       [specialize (FED E')|clear FED]); lia. }
    repeat split; cbn [length firstn]; try lia.
    2:{ repeat (apply Forall_cons; [right; lia|]); apply Forall_nil. }
    unfold EncodeRune, rune1Max, rune2Max, rune3Max, MaxRune, surrogateMin, surrogateMax.
    destruct (N.leb_spec r 127); [lia|].
    destruct (N.leb_spec r 2047); [lia|].
    destruct (N.ltb_spec 1114111 r); [lia|].
    assert (Hs' : (55296 <=? r) && (r <=? 57343) = false).
    { destruct (N.leb_spec 55296 r); destruct (N.leb_spec r 57343);
        try reflexivity. lia. }
    rewrite Hs'. cbn [orb].
    destruct (N.leb_spec r 65535); [|lia].
    unfold encode3.
    rewrite (N.shiftr_div_pow2 r 6), land_maskx, land_maskx.
    change 12 with (6 + 6). rewrite <- N.shiftr_shiftr, !N.shiftr_div_pow2.
    change (2 ^ 6) with 64.
    rewrite D2, D1, D4, D3, lor_t3, !lor_tx by assumption.
    change (14 * 16) with 224 in E0.
    rewrite <- E0, <- E1, <- E2, !n2b_b2n. reflexivity.
  - destruct F as (-> & F1 & Flo & Fhi & FF0 & FF4).
    destruct t as [|c2 [|c3 t]]; [simpl in Hl; lia|simpl in Hl; lia|].
    cbn [nth Nat.leb] in H.
    destruct (N.ltb_spec (b2n c2) 128); [simpl in H; congruence|].
    destruct (N.ltb_spec 191 (b2n c2)); [simpl in H; congruence|].
    cbn [orb] in H. cbv iota in H.
    destruct (N.ltb_spec (b2n c3) 128); [simpl in H; congruence|].
    destruct (N.ltb_spec 191 (b2n c3)); [simpl in H; congruence|].
    cbn [orb] in H. cbv iota in H.
    destruct (cont_byte (b2n c1)) as (x1 & Hx1 & E1 & M1); [lia..|].
    destruct (cont_byte (b2n c2)) as (x2 & Hx2 & E2 & M2); [lia..|].
    destruct (cont_byte (b2n c3)) as (x3 & Hx3 & E3 & M3); [lia..|].
    destruct (lead_byte 30 8 (b2n c0)) as (h & Hh & E0 & M0); [lia..|].
    rewrite M0, M1, M2, M3, rune4_arith in H by assumption.
    inversion H; subst r n; clear H.
    replace (h * 262144 + x1 * 4096 + x2 * 64 + x3)
      with (((h * 64 + x1) * 64 + x2) * 64 + x3) by lia.
    destruct (split64 ((h * 64 + x1) * 64 + x2) x3 Hx3) as [D1 D2].
    destruct (split64 (h * 64 + x1) x2 Hx2) as [D3 D4].
    destruct (split64 h x1 Hx1) as [D5 D6].
    set (r := ((h * 64 + x1) * 64 + x2) * 64 + x3) in *.
    assert (Hr : 65536 <= r <= 1114111).
    { unfold r. destruct (N.eq_dec (b2n c0) 0xF0) as [E|E];
      [specialize (FF0 E)|clear FF0];
      (destruct (N.eq_dec (b2n c0) 0xF4) as [E'|E'];
       [specialize (FF4 E')|clear FF4]); lia. }
    repeat split; cbn [length firstn]; try lia.
    2:{ repeat (apply Forall_cons; [right; lia|]); apply Forall_nil. }
    unfold EncodeRune, rune1Max, rune2Max, rune3Max, MaxRune, surrogateMin, surrogateMax.
    destruct (N.leb_spec r 127); [lia|].
    destruct (N.leb_spec r 2047); [lia|].
    destruct (N.ltb_spec 1114111 r); [lia|].
    assert (Hs' : (55296 <=? r) && (r <=? 57343) = false).
    { destruct (N.leb_spec 55296 r); destruct (N.leb_spec r 57343);
        try reflexivity. lia. }
    rewrite Hs'. cbn [orb].
    destruct (N.leb_spec r 65535); [lia|].
    rewrite (N.shiftr_div_pow2 r 6), !land_maskx.
    change 12 with (6 + 6). change 18 with (6 + (6 + 6)).
    rewrite <- !N.shiftr_shiftr, !N.shiftr_div_pow2.
    change (2 ^ 6) with 64.
    rewrite D2, D1, D4, D3, D6, D5, lor_t4, !lor_tx by assumption.
    change (30 * 8) with 240 in E0.
    rewrite <- E0, <- E1, <- E2, <- E3, !n2b_b2n. reflexivity.
Qed.

(** The width [DecodeRune] reports is at least one byte of a non-empty
    input, and never more than the input holds. *)
Lemma DecodeRune_size p :
  p <> [] -> (1 <= snd (DecodeRune p) <= length p)%nat.
Proof.
  intros Hp. destruct (DecodeRune p) as [r n] eqn:E. cbn [snd].
  destruct (N.eq_dec r RuneError) as [->|Hr].
  - destruct (Nat.eq_dec n 1) as [->|Hn].
    + destruct p; [congruence|simpl; lia].
    + destruct (DecodeRune_EncodeRune _ _ _ E Hp) as (? & ? & _); [congruence|lia].
  - destruct (DecodeRune_EncodeRune _ _ _ E Hp) as (? & ? & _); [congruence|lia].
Qed.

(** [DecodeRune] reads no further than the sequence it accepts. *)
Lemma DecodeRune_prefix p r n q :
  DecodeRune p = (r, n) -> p <> [] -> (r, n) <> (RuneError, 1%nat) ->
  DecodeRune (firstn n p ++ q) = (r, n).
Proof.
  intros H Hp Hne.
  destruct (DecodeRune_EncodeRune _ _ _ H Hp Hne) as (Hn & Hlen & _).
  destruct p as [|c0 t]; [congruence|].
  rewrite <- H. unfold DecodeRune in *. cbv zeta in *.
  destruct n as [|n]; [lia|]. cbn [firstn app].
  destruct (b2n c0 <? RuneSelf); [reflexivity|].
  destruct (first (b2n c0)) as [[[sz lo] hi]|] eqn:F; [|reflexivity].
  apply first_cases in F.
  destruct (Nat.ltb_spec (length (c0 :: t)) sz) as [Hl|Hl]; [congruence|].
  destruct t as [|c1 t]; [simpl in Hl; lia|].
  cbn [nth] in *.
  destruct ((b2n c1 <? lo) || (hi <? b2n c1)) eqn:B1; [congruence|].
  destruct F as [F|[F|F]].
  - destruct F as (-> & _). cbn [Nat.leb] in *.
    inversion H; subst. cbn [firstn app length nth Nat.ltb Nat.leb].
    rewrite B1. reflexivity.
  - destruct F as (-> & _).
    destruct t as [|c2 t]; [simpl in Hl; lia|].
    cbn [nth Nat.leb] in *.
    destruct ((b2n c2 <? locb) || (hicb <? b2n c2)) eqn:B2; [congruence|].
    inversion H; subst. cbn [firstn app length nth Nat.ltb Nat.leb].
    rewrite B1, B2. reflexivity.
  - destruct F as (-> & _).
    destruct t as [|c2 [|c3 t]]; [simpl in Hl; lia|simpl in Hl; lia|].
    cbn [nth Nat.leb] in *.
    destruct ((b2n c2 <? locb) || (hicb <? b2n c2)) eqn:B2; [congruence|].
    destruct ((b2n c3 <? locb) || (hicb <? b2n c3)) eqn:B3; [congruence|].
    inversion H; subst. cbn [firstn app length nth Nat.ltb Nat.leb].
    rewrite B1, B2, B3. reflexivity.
Qed.

(** Valid UTF-8, rune by rune. *)
Inductive WF : bytes -> Prop :=
| WF_nil : WF []
| WF_rune p r n :
    p <> [] -> DecodeRune p = (r, n) -> (r, n) <> (RuneError, 1%nat) ->
    WF (skipn n p) -> WF p.

Lemma ValidFuel_WF fuel p : ValidFuel fuel p = true -> WF p.
Proof.
  revert p. induction fuel as [|fuel IH]; intros p H.
  - destruct p; [constructor|discriminate].
  - destruct p as [|c t]; [constructor|].
    cbn [ValidFuel] in H.
    destruct (DecodeRune (c :: t)) as [r n] eqn:E.
    destruct ((r =? RuneError) && (n =? 1)%nat) eqn:B; [discriminate|].
    apply (WF_rune _ r n); [congruence|assumption| |now apply IH].
    intros X. inversion X; subst. now rewrite N.eqb_refl in B.
Qed.

Lemma Valid_WF p : Valid p = true -> WF p.
Proof. apply ValidFuel_WF. Qed.

(** Induction over a byte sequence rune by rune, valid or not. *)
Lemma rune_ind (P : bytes -> Prop) :
  P [] ->
  (forall p, p <> [] -> P (skipn (snd (DecodeRune p)) p) -> P p) ->
  forall p, P p.
Proof.
  intros H0 HS p.
  remember (length p) as k eqn:Hk. revert p Hk.
  induction k as [k IH] using lt_wf_ind. intros p Hk.
  destruct p as [|c t]; [exact H0|].
  apply HS; [congruence|].
  pose proof (DecodeRune_size (c :: t)) as Hsz.
  eapply IH; [|reflexivity]. subst k.
  rewrite length_skipn. specialize (Hsz ltac:(congruence)). lia.
Qed.

End Utf8Facts.

(** ** Facts of [encoding/json]: strings *)

Module JsonStringFacts.
Import utf8 json Utf8Facts.
Local Open Scope N_scope.

Lemma skipn_DecodeRune_length p :
  p <> [] -> (length (skipn (snd (DecodeRune p)) p) < length p)%nat.
Proof.
  intros Hp. pose proof (DecodeRune_size p Hp). rewrite length_skipn. lia.
Qed.

Lemma appendStringFuel_fuel f1 : forall f2 s,
  (length s <= f1)%nat -> (length s <= f2)%nat ->
  appendStringFuel f1 s = appendStringFuel f2 s.
Proof.
  induction f1 as [|f1 IH]; intros f2 s H1 H2.
  - destruct s; [|simpl in H1; lia]. now destruct f2.
  - destruct s as [|c t]; [now destruct f2|].
    destruct f2 as [|f2]; [simpl in H2; lia|].
    cbn [appendStringFuel]. cbv zeta.
    simpl in H1, H2.
    destruct (b2n c <? RuneSelf).
    + f_equal. apply IH; lia.
    + pose proof (skipn_DecodeRune_length (c :: t) ltac:(congruence)) as Hl.
      destruct (DecodeRune (c :: t)) as [r n]. cbn [snd] in Hl. simpl in Hl.
      destruct ((r =? RuneError) && (n =? 1)%nat);
        [|destruct ((r =? 8232) || (r =? 8233))];
        f_equal; apply IH; lia.
Qed.

Lemma appendStringFuel_enough f s :
  (length s <= f)%nat -> appendStringFuel f s = escapeString s.
Proof. intros. apply appendStringFuel_fuel; lia. Qed.

(** What one turn of the loop of [appendString] writes for the rune at the
    head of [p]. *)
Definition piece (p : bytes) : bytes :=
  match p with
  | [] => []
  | c :: _ =>
    let b := b2n c in
    if b <? RuneSelf then
      if htmlSafeSet b then [c] else escapeByte b
    else
      let '(r, size) := DecodeRune p in
      if (r =? RuneError) && (size =? 1)%nat then backslash :: bs "ufffd"
      else if (r =? 0x2028) || (r =? 0x2029) then
        backslash :: bs "u202" ++ [hex (N.land r 0xF)]
      else firstn size p
  end.

Lemma escapeString_step p :
  p <> [] ->
  escapeString p = piece p ++ escapeString (skipn (snd (DecodeRune p)) p).
Proof.
  intros Hp. destruct p as [|c t]; [congruence|].
  pose proof (skipn_DecodeRune_length (c :: t) Hp) as Hl.
  unfold escapeString at 1. cbn [length appendStringFuel piece]. cbv zeta.
  destruct (b2n c <? RuneSelf) eqn:B.
  - unfold DecodeRune. cbv zeta. rewrite B. cbn [snd skipn]. reflexivity.
  - destruct (DecodeRune (c :: t)) as [r n]. cbn [snd] in *. simpl in Hl.
    destruct ((r =? RuneError) && (n =? 1)%nat);
      [|destruct ((r =? 8232) || (r =? 8233))];
      f_equal; apply appendStringFuel_enough; lia.
Qed.

Lemma escapeString_nil : escapeString [] = [].
Proof. reflexivity. Qed.

(** *** The scanner accepts what [appendString] writes *)

Definition consRaw (l : bytes) (o : option (bytes * bytes))
  : option (bytes * bytes) :=
  match o with
  | Some (raw, rest) => Some (l ++ raw, rest)
  | None => None
  end.

Lemma consRaw_app l1 l2 o : consRaw (l1 ++ l2) o = consRaw l1 (consRaw l2 o).
Proof. destruct o as [[? ?]|]; simpl; [now rewrite app_assoc|reflexivity]. Qed.

Lemma scanString_high l X :
  Forall (fun c => 128 <= b2n c) l ->
  scanString (l ++ X) = consRaw l (scanString X).
Proof.
  induction 1 as [|c l Hc Hl IH].
  - simpl. now destruct (scanString X) as [[? ?]|].
  - cbn [app scanString]. rewrite !eqb_b2n.
    change (b2n quote) with 34. change (b2n backslash) with 92.
    destruct (N.eqb_spec (b2n c) 34); [lia|].
    destruct (N.eqb_spec (b2n c) 92); [lia|].
    destruct (N.ltb_spec (b2n c) 32); [lia|].
    rewrite IH. now destruct (scanString X) as [[? ?]|].
Qed.

Lemma isHex_hex k : k < 16 -> isHex (hex k) = true.
Proof.
  intros H.
  assert (E : k = 0 \/ k = 1 \/ k = 2 \/ k = 3 \/ k = 4 \/ k = 5 \/ k = 6 \/ k = 7
              \/ k = 8 \/ k = 9 \/ k = 10 \/ k = 11 \/ k = 12 \/ k = 13 \/ k = 14
              \/ k = 15) by lia.
  repeat (destruct E as [->|E]; [reflexivity|]). now subst.
Qed.

Lemma hexval_hex k : k < 16 -> hexval (hex k) = Some k.
Proof.
  intros H.
  assert (E : k = 0 \/ k = 1 \/ k = 2 \/ k = 3 \/ k = 4 \/ k = 5 \/ k = 6 \/ k = 7
              \/ k = 8 \/ k = 9 \/ k = 10 \/ k = 11 \/ k = 12 \/ k = 13 \/ k = 14
              \/ k = 15) by lia.
  repeat (destruct E as [->|E]; [reflexivity|]). now subst.
Qed.

Lemma scanString_plain c X :
  32 <= b2n c -> b2n c <> 34 -> b2n c <> 92 ->
  scanString (c :: X) = consRaw [c] (scanString X).
Proof.
  intros H1 H2 H3. cbn [scanString]. rewrite !eqb_b2n.
  change (b2n quote) with 34. change (b2n backslash) with 92.
  destruct (N.eqb_spec (b2n c) 34); [lia|].
  destruct (N.eqb_spec (b2n c) 92); [lia|].
  destruct (N.ltb_spec (b2n c) 32); [lia|].
  now destruct (scanString X) as [[? ?]|].
Qed.

Lemma scanString_escapeByte b X :
  b < 128 -> scanString (escapeByte b ++ X) = consRaw (escapeByte b) (scanString X).
Proof.
  intros Hb. unfold escapeByte.
  destruct (N.eqb_spec b 92) as [->|?];
    [cbn; now destruct (scanString X) as [[? ?]|]|].
  destruct (N.eqb_spec b 34) as [->|?];
    [cbn; now destruct (scanString X) as [[? ?]|]|].
  cbn [orb].
  repeat match goal with
  | |- context [ if ?b =? ?k then _ else _ ] =>
    destruct (N.eqb_spec b k);
    [cbn; now destruct (scanString X) as [[? ?]|]|]
  end.
  cbn [app scanString].
  change (Ascii.eqb backslash quote) with false.
  change (Ascii.eqb backslash backslash) with true.
  change (isEscapeChar "u") with false.
  change (Ascii.eqb "u" "u") with true.
  change (isHex "0") with true. cbv iota. cbn [andb].
  rewrite !isHex_hex.
  - now destruct (scanString X) as [[? ?]|].
  - change 15 with (N.ones 4). rewrite N.land_ones.
    apply N.mod_lt. discriminate.
  - rewrite N.shiftr_div_pow2. change (2 ^ 4) with 16. nlia.
Qed.

Lemma scanString_piece p X :
  p <> [] -> scanString (piece p ++ X) = consRaw (piece p) (scanString X).
Proof.
  intros Hp. destruct p as [|c t]; [congruence|].
  unfold piece. cbv zeta.
  destruct (N.ltb_spec (b2n c) RuneSelf) as [Hs|Hs].
  - unfold RuneSelf in Hs. destruct (htmlSafeSet (b2n c)) eqn:Hsafe.
    + unfold htmlSafeSet in Hsafe.
      repeat (apply andb_prop in Hsafe; destruct Hsafe as [Hsafe ?]).
      repeat match goal with
      | H : negb _ = true |- _ => apply negb_true_iff, N.eqb_neq in H
      end.
      apply N.leb_le in Hsafe.
      cbn [app]. apply scanString_plain; lia.
    + now apply scanString_escapeByte.
  - destruct (DecodeRune (c :: t)) as [r n] eqn:E.
    destruct ((r =? RuneError) && (n =? 1)%nat) eqn:B.
    { cbn. now destruct (scanString X) as [[? ?]|]. }
    assert (Hne : (r, n) <> (RuneError, 1%nat)).
    { intros Q. inversion Q; subst. now rewrite N.eqb_refl in B. }
    destruct (DecodeRune_EncodeRune _ _ _ E Hp Hne)
      as (Hn & Hlen & Henc & Hone & _ & _ & Hhigh).
    destruct (N.eqb_spec r 8232) as [->|?];
      [cbn; now destruct (scanString X) as [[? ?]|]|].
    destruct (N.eqb_spec r 8233) as [->|?];
      [cbn; now destruct (scanString X) as [[? ?]|]|].
    cbn [orb]. apply scanString_high.
    assert (n <> 1%nat).
    { intros ->. unfold DecodeRune in E. cbv zeta in E.
      destruct (N.ltb_spec (b2n c) RuneSelf); [unfold RuneSelf in *; lia|].
      destruct Hone as [Hone _]. specialize (Hone eq_refl).
      destruct (first (b2n c)) as [[[? ?] ?]|]; [|inversion E; subst; discriminate].
      unfold RuneSelf in *. clear - E Hone B Hne.
      repeat match type of E with
      | (if ?b then _ else _) = _ => destruct b
      | (_, _) = (_, _) => inversion E; subst; clear E
      end; try congruence; try lia. }
    eapply Forall_impl; [|exact Hhigh]. simpl. intros a [?|?]; [lia|assumption].
Qed.

(** The content [appendString] writes is read back by the scanner, up to
    the closing quote. *)
Lemma scanString_escapeString s X :
  scanString (escapeString s ++ quote :: X) = Some (escapeString s, X).
Proof.
  induction s as [|p Hp IH] using rune_ind.
  - reflexivity.
  - rewrite (escapeString_step p Hp), <- app_assoc, scanString_piece by assumption.
    rewrite IH. reflexivity.
Qed.

End JsonStringFacts.

(** *** [unquote] undoes [appendString] on valid UTF-8 *)

Module JsonUnquoteFacts.
Import utf8 json Utf8Facts JsonStringFacts.
Local Open Scope N_scope.

Lemma unquoteFuel_cons f c r :
  unquoteFuel (S f) (c :: r) =
  if Ascii.eqb c backslash then
    match r with
    | [] => None
    | e :: r1 =>
      if Ascii.eqb e "u" then
        match getu4 (c :: r) with
        | None => None
        | Some rr =>
          let s6 := skipn 6 (c :: r) in
          if IsSurrogate rr then
            let dec := utf16_DecodeRune rr (getu4 s6) in
            if negb (dec =? utf8.RuneError) then
              option_map (app (utf8.EncodeRune dec))
                         (unquoteFuel f (skipn 6 s6))
            else
              option_map (app (utf8.EncodeRune utf8.RuneError))
                         (unquoteFuel f s6)
          else
            option_map (app (utf8.EncodeRune rr)) (unquoteFuel f s6)
        end
      else
        match unescapeChar e with
        | Some d => option_map (cons d) (unquoteFuel f r1)
        | None => None
        end
    end
  else if Ascii.eqb c quote || (b2n c <? 0x20) then None
  else if b2n c <? utf8.RuneSelf then
    option_map (cons c) (unquoteFuel f r)
  else
    let '(rr, size) := utf8.DecodeRune (c :: r) in
    option_map (app (utf8.EncodeRune rr)) (unquoteFuel f (skipn size (c :: r))).
Proof. reflexivity. Qed.

Lemma getu4_cons h1 h2 h3 h4 X :
  getu4 (backslash :: "u"%char :: h1 :: h2 :: h3 :: h4 :: X) =
  match hexval h1, hexval h2, hexval h3, hexval h4 with
  | Some v1, Some v2, Some v3, Some v4 =>
    Some (((v1 * 16 + v2) * 16 + v3) * 16 + v4)
  | _, _, _, _ => None
  end.
Proof. reflexivity. Qed.

Lemma unquoteFuel_fuel f1 : forall f2 s,
  (length s <= f1)%nat -> (length s <= f2)%nat ->
  unquoteFuel f1 s = unquoteFuel f2 s.
Proof.
  induction f1 as [|f1 IH]; intros f2 s H1 H2.
  - destruct s; [|simpl in H1; lia]. now destruct f2.
  - destruct s as [|c r]; [now destruct f2|].
    destruct f2 as [|f2]; [simpl in H2; lia|].
    pose proof (skipn_DecodeRune_length (c :: r) ltac:(congruence)) as Hd.
    cbn [length] in H1, H2, Hd.
    rewrite !unquoteFuel_cons.
    destruct (Ascii.eqb c backslash).
    + destruct r as [|e r1]; [reflexivity|]. cbn [length] in H1, H2.
      destruct (Ascii.eqb e "u").
      * destruct (getu4 (c :: e :: r1)) as [rr|]; [|reflexivity]. cbv zeta.
        destruct (IsSurrogate rr);
          [destruct (negb (utf16_DecodeRune rr (getu4 (skipn 6 (c :: e :: r1)))
                           =? RuneError))|];
          f_equal; apply IH; rewrite ?length_skipn; cbn [length]; lia.
      * destruct (unescapeChar e); [|reflexivity]. f_equal; apply IH; lia.
    + destruct (Ascii.eqb c quote || (b2n c <? 32)); [reflexivity|].
      destruct (b2n c <? RuneSelf); [f_equal; apply IH; lia|].
      destruct (DecodeRune (c :: r)) as [rr size]. cbn [snd] in Hd.
      f_equal; apply IH; lia.
Qed.

Lemma unquoteFuel_enough f s :
  (length s <= f)%nat -> unquoteFuel f s = unquote s.
Proof. intros. apply unquoteFuel_fuel; lia. Qed.

Lemma unquote_plain c E :
  32 <= b2n c < 128 -> b2n c <> 34 -> b2n c <> 92 ->
  unquote (c :: E) = option_map (cons c) (unquote E).
Proof.
  intros H1 H2 H3. unfold unquote at 1. cbn [length].
  rewrite unquoteFuel_cons, !eqb_b2n.
  change (b2n quote) with 34. change (b2n backslash) with 92.
  destruct (N.eqb_spec (b2n c) 34); [lia|].
  destruct (N.eqb_spec (b2n c) 92); [lia|].
  destruct (N.ltb_spec (b2n c) 32); [lia|]. cbn [orb].
  destruct (N.ltb_spec (b2n c) RuneSelf); [|unfold RuneSelf in *; lia].
  reflexivity.
Qed.

Lemma EncodeRune_ascii b : b < 128 -> EncodeRune b = [n2b b].
Proof.
  intros H. unfold EncodeRune, rune1Max.
  destruct (N.leb_spec b 127); [reflexivity|lia].
Qed.

Lemma unquote_u00 b E :
  b < 128 ->
  unquote (backslash :: "u"%char :: "0"%char :: "0"%char
           :: hex (N.shiftr b 4) :: hex (N.land b 15) :: E)
  = option_map (cons (n2b b)) (unquote E).
Proof.
  intros Hb. unfold unquote at 1. cbn [length].
  rewrite unquoteFuel_cons, getu4_cons.
  change (Ascii.eqb backslash backslash) with true.
  change (Ascii.eqb "u" "u") with true. cbv iota.
  change (hexval "0") with (Some 0).
  assert (H1 : N.shiftr b 4 < 16)
    by (rewrite N.shiftr_div_pow2; change (2 ^ 4) with 16; nlia).
  assert (H2 : N.land b 15 < 16)
    by (change 15 with (N.ones 4); rewrite N.land_ones;
        apply N.mod_lt; discriminate).
  rewrite !hexval_hex by assumption.
  replace (((0 * 16 + 0) * 16 + N.shiftr b 4) * 16 + N.land b 15) with b.
  2:{ rewrite N.shiftr_div_pow2. change 15 with (N.ones 4).
      rewrite N.land_ones. change (2 ^ 4) with 16. nlia. }
  cbv zeta. unfold IsSurrogate, surr1.
  destruct (N.leb_spec 55296 b); [lia|]. cbn [andb].
  rewrite EncodeRune_ascii by assumption. cbn [skipn].
  rewrite unquoteFuel_enough by lia. now destruct (unquote E).
Qed.

Lemma unquote_escapeByte c E :
  b2n c < 128 -> htmlSafeSet (b2n c) = false ->
  unquote (escapeByte (b2n c) ++ E) = option_map (cons c) (unquote E).
Proof.
  intros Hb Hs. unfold escapeByte.
  assert (Hfuel : forall e d (X : bytes),
            Ascii.eqb e "u" = false -> unescapeChar e = Some d ->
            unquote (backslash :: e :: X) = option_map (cons d) (unquote X)).
  { intros e d X He Hd. unfold unquote at 1. cbn [length].
    rewrite unquoteFuel_cons.
    change (Ascii.eqb backslash backslash) with true. cbv iota.
    rewrite He, Hd. now rewrite unquoteFuel_enough by lia. }
  destruct (N.eqb_spec (b2n c) 92) as [Ec|?].
  { cbn [orb app]. rewrite Ec.
    replace c with backslash by (apply b2n_inj; now rewrite Ec).
    now apply Hfuel. }
  destruct (N.eqb_spec (b2n c) 34) as [Ec|?].
  { cbn [orb app]. rewrite Ec.
    replace c with quote by (apply b2n_inj; now rewrite Ec).
    now apply Hfuel. }
  cbn [orb].
  destruct (N.eqb_spec (b2n c) 8) as [Ec|?].
  { replace c with "008"%char by (apply b2n_inj; now rewrite Ec).
    now apply Hfuel. }
  destruct (N.eqb_spec (b2n c) 12) as [Ec|?].
  { replace c with "012"%char by (apply b2n_inj; now rewrite Ec).
    now apply Hfuel. }
  destruct (N.eqb_spec (b2n c) 10) as [Ec|?].
  { replace c with "010"%char by (apply b2n_inj; now rewrite Ec).
    now apply Hfuel. }
  destruct (N.eqb_spec (b2n c) 13) as [Ec|?].
  { replace c with "013"%char by (apply b2n_inj; now rewrite Ec).
    now apply Hfuel. }
  destruct (N.eqb_spec (b2n c) 9) as [Ec|?].
  { replace c with "009"%char by (apply b2n_inj; now rewrite Ec).
    now apply Hfuel. }
  cbn [app]. rewrite unquote_u00 by assumption. now rewrite n2b_b2n.
Qed.

Lemma unquote_u202 r E :
  r = 0x2028 \/ r = 0x2029 ->
  unquote ((backslash :: bs "u202" ++ [hex (N.land r 0xF)]) ++ E)
  = option_map (app (EncodeRune r)) (unquote E).
Proof.
  intros [->| ->]; unfold unquote at 1; cbn [length app bs list_ascii_of_string];
    rewrite unquoteFuel_cons;
    change (Ascii.eqb backslash backslash) with true;
    change (Ascii.eqb "u" "u") with true; cbv iota;
    [change (hex (N.land 8232 15)) with "8"%char;
     change (getu4 (backslash :: "u" :: "2" :: "0" :: "2" :: "8" :: E)%char)
       with (Some 8232)
    |change (hex (N.land 8233 15)) with "9"%char;
     change (getu4 (backslash :: "u" :: "2" :: "0" :: "2" :: "9" :: E)%char)
       with (Some 8233)];
    cbv iota zeta;
    [change (IsSurrogate 8232) with false|change (IsSurrogate 8233) with false];
    cbv iota; cbn [skipn];
    rewrite unquoteFuel_enough by lia; reflexivity.
Qed.

Lemma unquote_raw p r n E :
  p <> [] -> DecodeRune p = (r, n) -> (r, n) <> (RuneError, 1%nat) ->
  128 <= r ->
  unquote (firstn n p ++ E) = option_map (app (firstn n p)) (unquote E).
Proof.
  intros Hp Hd Hne Hr.
  destruct (DecodeRune_EncodeRune _ _ _ Hd Hp Hne)
    as (Hn & Hlen & Henc & Hone & _ & _ & Hhigh).
  assert (Hn1 : n <> 1%nat).
  { intros ->. destruct Hone as [Hone _]. specialize (Hone eq_refl).
    unfold RuneSelf in Hone. lia. }
  pose proof (DecodeRune_prefix _ _ _ E Hd Hp Hne) as Hpre.
  destruct p as [|c0 t]; [congruence|].
  destruct n as [|n]; [lia|].
  cbn [firstn app] in *.
  inversion Hhigh as [|? ? Hc0 _]; subst.
  destruct Hc0 as [?|Hc0]; [lia|].
  unfold unquote at 1. cbn [length].
  rewrite unquoteFuel_cons, !eqb_b2n.
  change (b2n quote) with 34. change (b2n backslash) with 92.
  destruct (N.eqb_spec (b2n c0) 92); [lia|].
  destruct (N.eqb_spec (b2n c0) 34); [lia|].
  destruct (N.ltb_spec (b2n c0) 32); [lia|]. cbn [orb].
  destruct (N.ltb_spec (b2n c0) RuneSelf); [unfold RuneSelf in *; lia|].
  rewrite Hpre, Henc.
  replace (skipn (S n) (c0 :: firstn n t ++ E)) with E.
  2:{ change (c0 :: firstn n t ++ E) with ((c0 :: firstn n t) ++ E).
      rewrite skipn_app.
      assert (Hl : length (c0 :: firstn n t) = S n).
      { simpl. rewrite length_firstn. simpl in Hlen. lia. }
      rewrite Hl, Nat.sub_diag. cbn [skipn].
      rewrite skipn_all2 by (rewrite length_firstn; lia). reflexivity. }
  rewrite unquoteFuel_enough; [reflexivity|].
  rewrite length_app. lia.
Qed.

Lemma unquote_piece p r n E :
  p <> [] -> DecodeRune p = (r, n) -> (r, n) <> (RuneError, 1%nat) ->
  unquote (piece p ++ E) = option_map (app (firstn n p)) (unquote E).
Proof.
  intros Hp Hd Hne.
  destruct (DecodeRune_EncodeRune _ _ _ Hd Hp Hne)
    as (Hn & Hlen & Henc & Hone & _ & _ & Hhigh).
  destruct p as [|c t]; [congruence|].
  unfold piece. cbv zeta.
  destruct (N.ltb_spec (b2n c) RuneSelf) as [Hs|Hs].
  - assert (En : n = 1%nat).
    { unfold DecodeRune in Hd. cbv zeta in Hd.
      destruct (N.ltb_spec (b2n c) RuneSelf); [|lia]. now inversion Hd. }
    subst n. cbn [firstn].
    unfold RuneSelf in Hs. destruct (htmlSafeSet (b2n c)) eqn:Hsafe.
    + unfold htmlSafeSet in Hsafe.
      repeat (apply andb_prop in Hsafe; destruct Hsafe as [Hsafe ?]).
      repeat match goal with
      | H : negb _ = true |- _ => apply negb_true_iff, N.eqb_neq in H
      end.
      apply N.leb_le in Hsafe.
      cbn [app]. rewrite unquote_plain by lia. now destruct (unquote E).
    + rewrite unquote_escapeByte by assumption. now destruct (unquote E).
  - rewrite Hd.
    destruct ((r =? RuneError) && (n =? 1)%nat) eqn:B.
    { apply andb_prop in B. destruct B as [B1 B2].
      apply N.eqb_eq in B1. apply Nat.eqb_eq in B2. subst. congruence. }
    assert (Hr : 128 <= r).
    { destruct (N.lt_ge_cases r 128) as [Hlt|]; [|assumption].
      destruct Hone as [_ Hone]. specialize (Hone Hlt). subst n.
      unfold DecodeRune in Hd. cbv zeta in Hd.
      destruct (N.ltb_spec (b2n c) RuneSelf); [lia|].
      exfalso. clear - Hd Hlt Hne.
      destruct (first (b2n c)) as [[[? ?] ?]|];
      repeat match type of Hd with
      | (if ?b then _ else _) = _ => destruct b
      | (_, _) = (_, _) => inversion Hd; subst; clear Hd
      end; try congruence; try discriminate. }
    destruct (N.eqb_spec r 8232) as [Er|?];
      [cbn [orb]; rewrite unquote_u202, Henc by (now left); reflexivity|].
    destruct (N.eqb_spec r 8233) as [Er|?];
      [cbn [orb]; rewrite unquote_u202, Henc by (now right); reflexivity|].
    cbn [orb]. now apply (unquote_raw _ r).
Qed.

(** Of valid UTF-8, [unquote] gives back what [appendString] was given. *)
Lemma unquote_escapeString s :
  WF s -> unquote (escapeString s) = Some s.
Proof.
  induction 1 as [|p r n Hp Hd Hne Hwf IH].
  - reflexivity.
  - rewrite (escapeString_step p Hp), Hd. cbn [snd].
    rewrite (unquote_piece p r n) by assumption.
    rewrite IH. cbn [option_map]. now rewrite firstn_skipn.
Qed.

End JsonUnquoteFacts.

(** ** Facts of [time] *)

Module TimeFacts.
Import time.
Local Open Scope Z_scope.

Lemma b2n_digit d : 0 <= d <= 9 -> b2n (digit d) = Z.to_N (48 + d).
Proof. intros. unfold digit. apply b2n_n2b. lia. Qed.

Lemma isDigit_digit d : 0 <= d <= 9 -> isDigit (digit d) = true.
Proof.
  intros. unfold isDigit. rewrite b2n_digit by assumption.
  apply andb_true_intro. split; apply N.leb_le; lia.
Qed.

Lemma atoiFrom_digit acc d r :
  0 <= d <= 9 -> atoiFrom acc (digit d :: r) = atoiFrom (acc * 10 + d) r.
Proof.
  intros. cbn [atoiFrom]. rewrite isDigit_digit, b2n_digit by assumption.
  f_equal. lia.
Qed.

(** A byte with no meaning of its own to the scanner of strings. *)
Definition plain (c : ascii) : Prop :=
  (32 <= b2n c < 128)%N /\ b2n c <> 34%N /\ b2n c <> 92%N.

Lemma plain_digit d : 0 <= d <= 9 -> plain (digit d).
Proof. intros. unfold plain. rewrite b2n_digit by assumption. lia. Qed.

Ltac each_byte tac :=
  repeat (apply Forall_cons; [tac|]); try apply Forall_nil.

Lemma digitsFuel_spec fuel : forall u,
  0 <= u < 2 ^ Z.of_nat fuel ->
  Forall (fun c => exists d, 0 <= d <= 9 /\ c = digit d) (digitsFuel fuel u).
Proof.
  induction fuel as [|fuel IH]; intros u Hu.
  - constructor.
  - cbn [digitsFuel]. destruct (Z.ltb_spec u 10).
    + each_byte ltac:(exists u; split; [lia|reflexivity]).
    + apply Forall_app. split.
      * apply IH. rewrite Nat2Z.inj_succ, Z.pow_succ_r in Hu by lia. nlia.
      * each_byte ltac:(exists (u mod 10); split; [nlia|reflexivity]).
Qed.

Lemma digits_spec u :
  0 <= u -> Forall (fun c => exists d, 0 <= d <= 9 /\ c = digit d) (digits u).
Proof.
  intros Hu. apply digitsFuel_spec. split; [assumption|].
  rewrite Nat2Z.inj_succ, Z2Nat.id by apply Z.log2_nonneg.
  destruct (Z.eq_dec u 0) as [->|]; [reflexivity|].
  apply Z.log2_spec. lia.
Qed.

Lemma appendInt_plain x w : Forall plain (appendInt x w).
Proof.
  assert (Hd : forall d, 0 <= d <= 9 -> plain (digit d)) by apply plain_digit.
  assert (Hm : plain "-"%char) by (unfold plain; cbn; lia).
  assert (Hs : Forall plain (if x <? 0 then bs "-" else [])).
  { destruct (x <? 0); each_byte assumption. }
  unfold appendInt. cbv zeta.
  pose proof (Z.abs_nonneg x) as Ha.
  destruct ((w =? 2)%nat && (Z.abs x <? 100)) eqn:B2.
  { apply andb_prop in B2. destruct B2 as [_ B2]. apply Z.ltb_lt in B2.
    apply Forall_app. split; [assumption|].
    each_byte ltac:(apply Hd; nlia). }
  destruct ((w =? 4)%nat && (Z.abs x <? 10000)) eqn:B4.
  { apply andb_prop in B4. destruct B4 as [_ B4]. apply Z.ltb_lt in B4.
    apply Forall_app. split; [assumption|].
    each_byte ltac:(apply Hd; nlia). }
  apply Forall_app. split; [assumption|].
  apply Forall_app. split.
  - apply Forall_forall. intros c Hc. apply repeat_spec in Hc. subst.
    unfold plain. cbn. lia.
  - eapply Forall_impl; [|apply digits_spec; assumption].
    intros c (d & Hdd & ->). now apply Hd.
Qed.

Lemma trimZeros_Forall (P : ascii -> Prop) s :
  Forall P s -> Forall P (trimZeros s).
Proof.
  induction 1 as [|c s Hc Hs IH]; [constructor|].
  cbn [trimZeros]. destruct (trimZeros s) as [|c' s'].
  - destruct (is0 c); each_byte assumption.
  - now constructor.
Qed.

(** The text of a time is made of bytes the scanner of strings passes
    over. *)
Lemma appendFormatRFC3339_plain t : Forall plain (appendFormatRFC3339 t).
Proof.
  assert (Hc : forall c, In c (bs "-T:.Z+") -> plain c).
  { intros c Hc. cbn in Hc.
    repeat (destruct Hc as [<-|Hc]; [unfold plain; cbn; lia|]).
    destruct Hc. }
  unfold appendFormatRFC3339, appendNano.
  repeat (apply Forall_app; split); try apply appendInt_plain;
    try (each_byte ltac:(apply Hc; cbn; tauto); fail).
  - destruct (Nanosecond t =? 0); [constructor|].
    apply Forall_app. split; [each_byte ltac:(apply Hc; cbn; tauto)|].
    apply trimZeros_Forall, appendInt_plain.
  - destruct (ZoneOffset t =? 0); [each_byte ltac:(apply Hc; cbn; tauto)|].
    cbv zeta.
    repeat (apply Forall_app; split); try apply appendInt_plain;
      try (each_byte ltac:(apply Hc; cbn; tauto); fail).
    destruct (Z.quot (ZoneOffset t) 60 <? 0);
      each_byte ltac:(apply Hc; cbn; tauto).
Qed.

Lemma appendInt_2 u :
  0 <= u < 100 -> appendInt u 2 = [digit (u / 10); digit (u mod 10)].
Proof.
  intros Hu. unfold appendInt. cbv zeta.
  rewrite Z.abs_eq by lia.
  destruct (Z.ltb_spec u 0); [lia|].
  destruct (Z.ltb_spec u 100); [|lia]. reflexivity.
Qed.

Lemma appendInt_4 u :
  0 <= u < 10000 ->
  appendInt u 4 = [digit (u / 100 / 10); digit (u / 100 mod 10);
                   digit (u mod 100 / 10); digit (u mod 100 mod 10)].
Proof.
  intros Hu. unfold appendInt. cbv zeta.
  rewrite Z.abs_eq by lia.
  destruct (Z.ltb_spec u 0); [lia|].
  destruct (Z.ltb_spec u 10000); [|lia]. reflexivity.
Qed.

Lemma parseUint_2 u lo hi :
  0 <= u < 100 -> lo <= u <= hi ->
  parseUint [digit (u / 10); digit (u mod 10)] lo hi = Some u.
Proof.
  intros Hu Hr. unfold parseUint.
  rewrite !atoiFrom_digit by nlia. cbn [atoiFrom].
  replace (((0 * 10 + u / 10) * 10 + u mod 10)) with u by nlia.
  destruct (Z.ltb_spec u lo); [lia|].
  destruct (Z.ltb_spec hi u); [lia|]. reflexivity.
Qed.

Lemma parseUint_4 u lo hi :
  0 <= u < 10000 -> lo <= u <= hi ->
  parseUint [digit (u / 100 / 10); digit (u / 100 mod 10);
             digit (u mod 100 / 10); digit (u mod 100 mod 10)] lo hi = Some u.
Proof.
  intros Hu Hr. unfold parseUint.
  rewrite !atoiFrom_digit by nlia. cbn [atoiFrom].
  replace ((((0 * 10 + u / 100 / 10) * 10 + u / 100 mod 10) * 10
            + u mod 100 / 10) * 10 + u mod 100 mod 10) with u by nlia.
  destruct (Z.ltb_spec u lo); [lia|].
  destruct (Z.ltb_spec hi u); [lia|]. reflexivity.
Qed.

(** [k] decimal digits of [u], zeros in front. *)
Fixpoint fixedDigits (k : nat) (u : Z) : bytes :=
  match k with
  | O => []
  | S k' => fixedDigits k' (u / 10) ++ [digit (u mod 10)]
  end.

Lemma fixedDigits_0 k : fixedDigits k 0 = repeat "0"%char k.
Proof.
  induction k as [|k IH]; [reflexivity|].
  cbn [fixedDigits]. change (0 / 10) with 0. rewrite IH.
  change [digit (0 mod 10)] with (repeat "0"%char 1).
  rewrite <- repeat_app. f_equal. lia.
Qed.

Lemma pad_digitsFuel fuel : forall k u,
  (1 <= k)%nat -> 0 <= u < 10 ^ Z.of_nat k -> u < 2 ^ Z.of_nat fuel ->
  repeat "0"%char (k - length (digitsFuel fuel u)) ++ digitsFuel fuel u
  = fixedDigits k u.
Proof.
  induction fuel as [|fuel IH]; intros k u Hk Hu Hf.
  - assert (u = 0) by (change (2 ^ Z.of_nat 0) with 1 in Hf; lia). subst u.
    cbn [digitsFuel length]. rewrite app_nil_r, Nat.sub_0_r.
    now rewrite fixedDigits_0.
  - destruct k as [|k]; [lia|].
    cbn [digitsFuel fixedDigits].
    rewrite Nat2Z.inj_succ, Z.pow_succ_r in Hu, Hf by lia.
    destruct (Z.ltb_spec u 10).
    + cbn [length]. replace (S k - 1)%nat with k by lia.
      replace (u / 10) with 0 by nlia. replace (u mod 10) with u by nlia.
      now rewrite fixedDigits_0.
    + rewrite length_app. cbn [length].
      replace (S k - (length (digitsFuel fuel (u / 10)) + 1))%nat
        with (k - length (digitsFuel fuel (u / 10)))%nat by lia.
      rewrite app_assoc. f_equal.
      apply IH.
      * destruct k; [|lia]. change (10 ^ Z.of_nat 0) with 1 in Hu. lia.
      * nlia.
      * nlia.
Qed.

Lemma appendInt_9 ns :
  0 <= ns < 1000000000 -> appendInt ns 9 = fixedDigits 9 ns.
Proof.
  intros H. unfold appendInt. cbv zeta.
  change ((9 =? 2)%nat) with false. change ((9 =? 4)%nat) with false.
  cbn [andb]. rewrite Z.abs_eq by lia.
  destruct (Z.ltb_spec ns 0); [lia|]. cbn [app].
  apply pad_digitsFuel; [lia|exact H|].
  rewrite Nat2Z.inj_succ, Z2Nat.id by apply Z.log2_nonneg.
  destruct (Z.eq_dec ns 0) as [->|]; [reflexivity|].
  apply Z.log2_spec. lia.
Qed.

Lemma atoiFrom_app s1 : forall acc s2,
  atoiFrom acc (s1 ++ s2) =
  match atoiFrom acc s1 with
  | Some v => atoiFrom v s2
  | None => None
  end.
Proof.
  induction s1 as [|c s1 IH]; intros acc s2; [reflexivity|].
  cbn [app atoiFrom]. destruct (isDigit c); [apply IH|reflexivity].
Qed.

Lemma atoiFrom_fixedDigits k : forall acc u,
  0 <= u < 10 ^ Z.of_nat k ->
  atoiFrom acc (fixedDigits k u) = Some (acc * 10 ^ Z.of_nat k + u).
Proof.
  induction k as [|k IH]; intros acc u Hu.
  - change (10 ^ Z.of_nat 0) with 1 in *. cbn [fixedDigits atoiFrom].
    f_equal. lia.
  - rewrite Nat2Z.inj_succ, Z.pow_succ_r in * by lia.
    cbn [fixedDigits]. rewrite atoiFrom_app, IH by nlia.
    rewrite atoiFrom_digit by nlia. cbn [atoiFrom]. f_equal. nlia.
Qed.

Lemma fixedDigits_digits k : forall u,
  Forall (fun c => isDigit c = true) (fixedDigits k u).
Proof.
  induction k as [|k IH]; intros u; [constructor|].
  cbn [fixedDigits]. apply Forall_app. split; [apply IH|].
  each_byte ltac:(apply isDigit_digit; nlia).
Qed.

Lemma fixedDigits_length k : forall u, length (fixedDigits k u) = k.
Proof.
  induction k as [|k IH]; intros u; [reflexivity|].
  cbn [fixedDigits]. rewrite length_app, IH. simpl. lia.
Qed.

Lemma is0_eq c : is0 c = true -> c = "0"%char.
Proof. unfold is0. apply Ascii.eqb_eq. Qed.

Lemma trimZeros_decomp s :
  exists j, s = trimZeros s ++ repeat "0"%char j.
Proof.
  induction s as [|c s [j IH]].
  - exists 0%nat. reflexivity.
  - cbn [trimZeros]. destruct (trimZeros s) as [|c' s'] eqn:E.
    + destruct (is0 c) eqn:Ec.
      * exists (S j). apply is0_eq in Ec. subst c. rewrite IH. reflexivity.
      * exists j. rewrite IH. reflexivity.
    + exists j. rewrite IH at 1. reflexivity.
Qed.

Lemma atoiFrom_zeros j : forall acc,
  atoiFrom acc (repeat "0"%char j) = Some (acc * 10 ^ Z.of_nat j).
Proof.
  induction j as [|j IH]; intros acc.
  - cbn. f_equal. lia.
  - cbn [repeat atoiFrom]. change (isDigit "0") with true. cbv iota.
    rewrite IH. f_equal. change (Z.of_N (b2n "0")) with 48.
    rewrite Nat2Z.inj_succ, Z.pow_succ_r by lia. lia.
Qed.

Lemma spanDigits_app ds rest :
  Forall (fun c => isDigit c = true) ds ->
  match rest with c :: _ => isDigit c = false | [] => True end ->
  spanDigits (ds ++ rest) = (ds, rest).
Proof.
  intros Hd Hr. induction Hd as [|c ds Hc Hds IH].
  - destruct rest as [|c r]; [reflexivity|]. cbn [app spanDigits]. now rewrite Hr.
  - cbn [app spanDigits]. now rewrite Hc, IH.
Qed.

(** The fraction [appendNano] writes is read back as the nanoseconds it
    was written from. *)
Lemma nano_roundtrip ns :
  0 < ns < 1000000000 ->
  exists ds d ds',
    trimZeros (appendInt ns 9) = ds /\ ds = d :: ds' /\
    Forall (fun c => isDigit c = true) ds /\
    parseNanoseconds ds = ns.
Proof.
  intros Hns. rewrite appendInt_9 by lia.
  pose proof (fixedDigits_digits 9 ns) as Hd.
  pose proof (fixedDigits_length 9 ns) as Hl.
  pose proof (atoiFrom_fixedDigits 9 0 ns ltac:(cbn; lia)) as Ha.
  destruct (trimZeros_decomp (fixedDigits 9 ns)) as [j Hj].
  pose proof (trimZeros_Forall _ _ Hd) as Hd'.
  set (tr := trimZeros (fixedDigits 9 ns)) in *.
  rewrite Hj, atoiFrom_app in Ha.
  destruct (atoiFrom 0 tr) as [v|] eqn:Ev; [|discriminate].
  rewrite atoiFrom_zeros in Ha. inversion Ha as [Hv]. clear Ha.
  assert (Hlen : (length tr + j = 9)%nat).
  { rewrite <- Hl, Hj at 1. rewrite length_app, repeat_length. reflexivity. }
  destruct tr as [|d ds'] eqn:Etr.
  { cbn in Ev. inversion Ev; subst. lia. }
  exists (d :: ds'), d, ds'. repeat split; try assumption.
  unfold parseNanoseconds. cbv zeta.
  rewrite firstn_all2 by lia. rewrite Ev.
  replace (9 - length (d :: ds'))%nat with j by lia.
  change (0 * 10 ^ Z.of_nat 9 + ns) with ns in Hv. congruence.
Qed.

End TimeFacts.

(** *** A time is read back from its RFC 3339 text *)

Module TimeRoundTrip.
Import time TimeFacts.
Local Open Scope Z_scope.

(** The times whose text says all there is to them: a year of four digits
    and a zone offset of whole minutes, less than a day. *)
Definition representable (t : Time) : Prop :=
  wf t /\ 0 <= Year t <= 9999 /\
  ZoneOffset t mod 60 = 0 /\ -86400 < ZoneOffset t < 86400.

Lemma daysIn_le m y : daysIn m y <= 31.
Proof.
  unfold daysIn.
  repeat match goal with |- context [ if ?b then _ else _ ] => destruct b end;
    lia.
Qed.

Lemma zone_text off :
  off mod 60 = 0 -> -86400 < off < 86400 -> off <> 0 ->
  exists h m,
    0 <= h < 24 /\ 0 <= m < 60 /\
    Z.abs (Z.quot off 60) / 60 = h /\ Z.abs (Z.quot off 60) mod 60 = m /\
    (Z.quot off 60 < 0 -> - ((h * 60 + m) * 60) = off) /\
    (0 <= Z.quot off 60 -> (h * 60 + m) * 60 = off).
Proof.
  intros Hm Hr Hz.
  exists (Z.abs (Z.quot off 60) / 60), (Z.abs (Z.quot off 60) mod 60).
  repeat split; try reflexivity; nlia.
Qed.

Lemma parseRFC3339_appendFormatRFC3339 t :
  representable t -> parseRFC3339 (appendFormatRFC3339 t) = Some t.
Proof.
  intros (Hwf & Hy & Hzm & Hzr).
  destruct Hwf as (Hmo & Hda & Hh & Hmi & Hs & Hn).
  pose proof (daysIn_le (Month t) (Year t)) as Hdl.
  destruct t as [Y Mo D H Mi S Ns Off].
  cbn [Year Month Day Hour Minute Second Nanosecond ZoneOffset] in *.
  unfold appendFormatRFC3339.
  cbn [Year Month Day Hour Minute Second Nanosecond ZoneOffset].
  rewrite (appendInt_4 Y), !(appendInt_2 Mo), !(appendInt_2 D),
    !(appendInt_2 H), !(appendInt_2 Mi), !(appendInt_2 S) by lia.
  (* the zone, spelled out *)
  match goal with
  | |- context [appendNano Ns ++ ?z] => remember z as zone eqn:Ez
  end.
  assert (Hzone :
    (Off = 0 /\ zone = bs "Z" \/
     exists sign h m, 0 <= h < 24 /\ 0 <= m < 60 /\
       (sign = "-"%char \/ sign = "+"%char) /\
       (if Ascii.eqb sign "-" then - ((h * 60 + m) * 60) else (h * 60 + m) * 60)
       = Off /\
       zone = [sign; digit (h / 10); digit (h mod 10); ":"%char;
               digit (m / 10); digit (m mod 10)])).
  { subst zone. cbv zeta. destruct (Z.eqb_spec Off 0) as [->|Hnz].
    - now left.
    - destruct (zone_text Off Hzm Hzr Hnz)
        as (h & m & Hh' & Hm' & Eh & Em & Eneg & Epos).
      right. rewrite Eh, Em, !appendInt_2 by lia.
      destruct (Z.ltb_spec (Z.quot Off 60) 0) as [Hq|Hq].
      + exists "-"%char, h, m. repeat split; try lia; [left; reflexivity|].
        change (Ascii.eqb "-" "-") with true. cbv iota. now apply Eneg.
      + exists "+"%char, h, m. repeat split; try lia; [right; reflexivity|].
        change (Ascii.eqb "+" "-") with false. cbv iota. now apply Epos. }
  clear Ez.
  (* the fraction, spelled out *)
  assert (Hfrac :
    (Ns = 0 /\ appendNano Ns = []) \/
    (exists d ds', appendNano Ns = "."%char :: d :: ds' /\
       Forall (fun c => isDigit c = true) (d :: ds') /\
       parseNanoseconds (d :: ds') = Ns)).
  { unfold appendNano. destruct (Z.eqb_spec Ns 0) as [->|Hnz].
    - now left.
    - right. destruct (nano_roundtrip Ns ltac:(lia))
        as (ds & d & ds' & E1 & E2 & Hd & Hp).
      exists d, ds'. rewrite E1. clear E1. subst ds.
      split; [reflexivity|]. split; assumption. }
  assert (Hz0 : match zone with c :: _ => isDigit c = false | [] => True end).
  { destruct Hzone as [[_ ->]|(sign & h & m & _ & _ & [-> | ->] & _ & ->)];
      reflexivity. }
  assert (Hz1 : match zone with c :: _ => Ascii.eqb c "." = false | [] => True end).
  { destruct Hzone as [[_ ->]|(sign & h & m & _ & _ & [-> | ->] & _ & ->)];
      reflexivity. }
  (* the date and the clock *)
  unfold parseRFC3339.
  cbn [app bs list_ascii_of_string length Nat.ltb Nat.leb slice firstn skipn
       Nat.sub byteAt nth_error].
  rewrite parseUint_4 by lia.
  rewrite (parseUint_2 Mo), (parseUint_2 D), (parseUint_2 H),
    (parseUint_2 Mi), (parseUint_2 S) by lia.
  change (Ascii.eqb "-" "-") with true. change (Ascii.eqb "T" "T") with true.
  change (Ascii.eqb ":" ":") with true. cbn [andb negb].
  (* the fraction *)
  assert (Hsplit :
    match appendNano Ns ++ zone with
    | dot :: d :: _ =>
      if Ascii.eqb dot "." && isDigit d then
        let '(ds, rest) := spanDigits (tl (appendNano Ns ++ zone)) in
        (parseNanoseconds ds, rest)
      else (0, appendNano Ns ++ zone)
    | _ => (0, appendNano Ns ++ zone)
    end = (Ns, zone)).
  { destruct Hfrac as [[-> ->]|(d & ds' & -> & Hd & Hp)].
    - cbn [app]. destruct zone as [|c [|c' z]]; try reflexivity.
      now rewrite Hz1.
    - cbn [app tl]. change (Ascii.eqb "." ".") with true.
      pose proof (Forall_inv Hd) as Hd0. cbv beta in Hd0.
      rewrite Hd0. cbn [andb].
      change (d :: ds' ++ zone) with ((d :: ds') ++ zone).
      rewrite spanDigits_app by assumption. now rewrite Hp. }
  rewrite Hsplit. clear Hsplit Hfrac Hz0 Hz1.
  (* the zone *)
  destruct Hzone as [[-> ->]|(sign & h & m & Hh' & Hm' & Hsign & Eoff & ->)].
  - reflexivity.
  - cbn [length Nat.eqb andb negb slice firstn skipn Nat.sub byteAt nth_error].
    rewrite (parseUint_2 h), (parseUint_2 m) by lia.
    change (Ascii.eqb ":" ":") with true.
    destruct Hsign as [-> | ->].
    + change (Ascii.eqb "-" "-") with true. cbn [orb andb negb].
      change (Ascii.eqb "-" "-") with true in Eoff. now rewrite Eoff.
    + change (Ascii.eqb "+" "-") with false. change (Ascii.eqb "+" "+") with true.
      cbn [orb andb negb].
      change (Ascii.eqb "+" "-") with false in Eoff. now rewrite Eoff.
Qed.

End TimeRoundTrip.

(** ** The codec of [LogEntry] *)

Module CodecFacts.
Import utf8 json models Utf8Facts JsonStringFacts JsonUnquoteFacts.
Import TimeFacts TimeRoundTrip.

(** The content of a string the scanner reads up to its closing quote. *)
Definition strlit (k : bytes) : Prop :=
  forall X, scanString (k ++ quote :: X) = Some (k, X).

Lemma strlit_escapeString s : strlit (escapeString s).
Proof. intros X. apply scanString_escapeString. Qed.

Lemma strlit_plain l : Forall plain l -> strlit l.
Proof.
  intros H X. induction H as [|c l (Hc1 & Hc2 & Hc3) Hl IH].
  - cbn [app scanString]. now rewrite Ascii.eqb_refl.
  - cbn [app]. rewrite scanString_plain by lia. rewrite IH. reflexivity.
Qed.

Lemma scanValue_eq f d s :
  scanValue (S f) d s =
  match skipSpace s with
  | [] => None
  | c :: r =>
    if Ascii.eqb c "{" then
      if (maxNestingDepth <? d + 1)%N then None else
      match skipSpace r with
      | c' :: r' =>
        if Ascii.eqb c' "}" then Some (VObject [], r')
        else
          match scanMembers f (d + 1) r with
          | Some (ms, rest) => Some (VObject ms, rest)
          | None => None
          end
      | [] => None
      end
    else if Ascii.eqb c "[" then
      if (maxNestingDepth <? d + 1)%N then None else
      match skipSpace r with
      | c' :: r' =>
        if Ascii.eqb c' "]" then Some (VArray [], r')
        else
          match scanElements f (d + 1) r with
          | Some (vs, rest) => Some (VArray vs, rest)
          | None => None
          end
      | [] => None
      end
    else if Ascii.eqb c quote then
      match scanString r with
      | Some (raw, rest) => Some (VString raw, rest)
      | None => None
      end
    else if Ascii.eqb c "-" || isDigit c then
      match scanNumber (c :: r) with
      | Some (raw, rest) => Some (VNumber raw, rest)
      | None => None
      end
    else if Ascii.eqb c "t" then scanLiteral (bs "true") (VBool true) (c :: r)
    else if Ascii.eqb c "f" then scanLiteral (bs "false") (VBool false) (c :: r)
    else if Ascii.eqb c "n" then scanLiteral (bs "null") VNull (c :: r)
    else None
  end.
Proof. reflexivity. Qed.

Lemma scanElements_eq f d s :
  scanElements (S f) d s =
  match scanValue f d s with
  | None => None
  | Some (v, r) =>
    match skipSpace r with
    | c :: r' =>
      if Ascii.eqb c "," then
        match scanElements f d r' with
        | Some (vs, rest) => Some (v :: vs, rest)
        | None => None
        end
      else if Ascii.eqb c "]" then Some ([v], r')
      else None
    | [] => None
    end
  end.
Proof. reflexivity. Qed.

Lemma scanMembers_eq f d s :
  scanMembers (S f) d s =
  match skipSpace s with
  | q :: r =>
    if negb (Ascii.eqb q quote) then None else
    match scanString r with
    | None => None
    | Some (key, r1) =>
      match skipSpace r1 with
      | colon :: r2 =>
        if negb (Ascii.eqb colon ":") then None else
        match scanValue f d r2 with
        | None => None
        | Some (v, r3) =>
          match skipSpace r3 with
          | c :: r4 =>
            if Ascii.eqb c "," then
              match scanMembers f d r4 with
              | Some (ms, rest) => Some ((key, v) :: ms, rest)
              | None => None
              end
            else if Ascii.eqb c "}" then Some ([(key, v)], r4)
            else None
          | [] => None
          end
        end
      | [] => None
      end
    end
  | [] => None
  end.
Proof. reflexivity. Qed.

Lemma scanValue_string f d v X :
  strlit v -> scanValue (S f) d (quote :: v ++ quote :: X) = Some (VString v, X).
Proof.
  intros Hv. rewrite scanValue_eq. cbn [skipSpace].
  change (isSpace quote) with false. cbv iota.
  change (Ascii.eqb quote "{") with false.
  change (Ascii.eqb quote "[") with false.
  change (Ascii.eqb quote quote) with true. cbv iota.
  now rewrite Hv.
Qed.

(** One member whose value is a string, as [Marshal] writes it: the key,
    the colon and the value, each in quotes and without space. *)
Definition member (k v : bytes) : bytes :=
  quote :: k ++ quote :: ":"%char :: quote :: v ++ [quote].

Lemma scanMembers_more f d k v X :
  strlit k -> strlit v ->
  scanMembers (S (S f)) d (member k v ++ ","%char :: X)
  = match scanMembers (S f) d X with
    | Some (ms, rest) => Some ((k, VString v) :: ms, rest)
    | None => None
    end.
Proof.
  intros Hk Hv. rewrite scanMembers_eq. unfold member.
  cbn [app skipSpace]. change (isSpace quote) with false. cbv iota.
  change (Ascii.eqb quote quote) with true. cbn [negb].
  rewrite <- app_assoc. cbn [app]. rewrite Hk.
  cbn [skipSpace]. change (isSpace ":") with false. cbv iota.
  change (Ascii.eqb ":" ":") with true. cbn [negb].
  rewrite <- app_assoc. cbn [app]. rewrite scanValue_string by assumption.
  cbn [skipSpace]. change (isSpace ",") with false. cbv iota.
  change (Ascii.eqb "," ",") with true. cbv iota. reflexivity.
Qed.

Lemma scanMembers_last f d k v X :
  strlit k -> strlit v ->
  scanMembers (S (S f)) d (member k v ++ "}"%char :: X)
  = Some ([(k, VString v)], X).
Proof.
  intros Hk Hv. rewrite scanMembers_eq. unfold member.
  cbn [app skipSpace]. change (isSpace quote) with false. cbv iota.
  change (Ascii.eqb quote quote) with true. cbn [negb].
  rewrite <- app_assoc. cbn [app]. rewrite Hk.
  cbn [skipSpace]. change (isSpace ":") with false. cbv iota.
  change (Ascii.eqb ":" ":") with true. cbn [negb].
  rewrite <- app_assoc. cbn [app]. rewrite scanValue_string by assumption.
  cbn [skipSpace]. change (isSpace "}") with false. cbv iota.
  change (Ascii.eqb "}" ",") with false. change (Ascii.eqb "}" "}") with true.
  cbv iota. reflexivity.
Qed.

(** The text of an object of four string members. *)
Definition object4 (k1 v1 k2 v2 k3 v3 k4 v4 : bytes) : bytes :=
  "{"%char :: member k1 v1 ++ ","%char :: member k2 v2 ++ ","%char
  :: member k3 v3 ++ ","%char :: member k4 v4 ++ ["}"%char].

Lemma scanValue_object4 f k1 v1 k2 v2 k3 v3 k4 v4 X :
  strlit k1 -> strlit v1 -> strlit k2 -> strlit v2 ->
  strlit k3 -> strlit v3 -> strlit k4 -> strlit v4 ->
  (6 <= f)%nat ->
  scanValue f 0 (object4 k1 v1 k2 v2 k3 v3 k4 v4 ++ X)
  = Some (VObject [(k1, VString v1); (k2, VString v2);
                   (k3, VString v3); (k4, VString v4)], X).
Proof.
  intros H1 H1' H2 H2' H3 H3' H4 H4' Hf.
  do 6 (destruct f as [|f]; [lia|]). clear Hf.
  unfold object4.
  assert (Hassoc :
    ("{"%char :: member k1 v1 ++ ","%char :: member k2 v2 ++ ","%char
      :: member k3 v3 ++ ","%char :: member k4 v4 ++ ["}"%char]) ++ X
    = "{"%char :: member k1 v1 ++ ","%char :: member k2 v2 ++ ","%char
      :: member k3 v3 ++ ","%char :: member k4 v4 ++ "}"%char :: X).
  { cbn [app]. repeat (rewrite <- app_assoc; cbn [app]). reflexivity. }
  rewrite Hassoc. clear Hassoc.
  rewrite scanValue_eq.
  cbn [skipSpace]. change (isSpace "{") with false. cbv iota.
  change (Ascii.eqb "{" "{") with true. cbv iota.
  change (maxNestingDepth <? 0 + 1)%N with false. cbv iota.
  assert (Hm : forall k v Y, skipSpace (member k v ++ Y) = member k v ++ Y).
  { intros. unfold member. cbn [app skipSpace].
    now change (isSpace quote) with false. }
  rewrite Hm.
  assert (Hq : forall k v Y,
    match member k v ++ Y with
    | [] => None
    | c' :: r' =>
      if Ascii.eqb c' "}" then Some (VObject [], r')
      else
        match scanMembers (S (S (S (S (S f))))) (0 + 1) (member k v ++ Y) with
        | Some (ms, rest) => Some (VObject ms, rest)
        | None => None
        end
    end =
    match scanMembers (S (S (S (S (S f))))) (0 + 1) (member k v ++ Y) with
    | Some (ms, rest) => Some (VObject ms, rest)
    | None => None
    end).
  { intros. unfold member at 1. cbn [app].
    now change (Ascii.eqb quote "}") with false. }
  rewrite Hq.
  rewrite !scanMembers_more by assumption.
  rewrite scanMembers_last by assumption.
  reflexivity.
Qed.

(** What [Marshal] writes. *)
Definition marshalled (l : LogEntry) : bytes :=
  object4 (bs "timestamp") (time.appendFormatRFC3339 (Timestamp l))
          (bs "application") (escapeString (Application l))
          (bs "level") (escapeString (Level l))
          (bs "message") (escapeString (Message l)).

Lemma appendString_names :
  appendString (bs "timestamp") = quote :: bs "timestamp" ++ [quote] /\
  appendString (bs "application") = quote :: bs "application" ++ [quote] /\
  appendString (bs "level") = quote :: bs "level" ++ [quote] /\
  appendString (bs "message") = quote :: bs "message" ++ [quote].
Proof. vm_compute. repeat split. Qed.

Lemma Marshal_ok l :
  time.strictRFC3339_ok (Timestamp l) = true ->
  Marshal l = (Some (marshalled l), None).
Proof.
  intros H. unfold Marshal, time.MarshalJSON. rewrite H.
  destruct appendString_names as (E1 & E2 & E3 & E4).
  rewrite E1, E2, E3, E4.
  unfold marshalled, object4, member, appendString.
  cbn [app bs list_ascii_of_string].
  repeat (rewrite <- app_assoc; cbn [app]). reflexivity.
Qed.

Lemma Marshal_error l :
  time.strictRFC3339_ok (Timestamp l) = false ->
  Marshal l = (None, Some MarshalerError).
Proof. intros H. unfold Marshal, time.MarshalJSON. now rewrite H. Qed.

Lemma strlit_key s : Forall plain (bs s) -> strlit (bs s).
Proof. apply strlit_plain. Qed.

Ltac plain_bytes :=
  cbn [bs list_ascii_of_string];
  repeat (apply Forall_cons; [unfold plain; cbn; lia|]); apply Forall_nil.

Lemma scanValue_marshalled l f X :
  (6 <= f)%nat ->
  scanValue f 0 (marshalled l ++ X)
  = Some (VObject
            [(bs "timestamp", VString (time.appendFormatRFC3339 (Timestamp l)));
             (bs "application", VString (escapeString (Application l)));
             (bs "level", VString (escapeString (Level l)));
             (bs "message", VString (escapeString (Message l)))], X).
Proof.
  intros Hf. unfold marshalled.
  apply scanValue_object4; try assumption;
    try apply strlit_escapeString;
    try (apply strlit_plain; plain_bytes).
  apply strlit_plain, appendFormatRFC3339_plain.
Qed.

Lemma checkValid_marshalled l :
  checkValid (marshalled l)
  = Some (VObject
            [(bs "timestamp", VString (time.appendFormatRFC3339 (Timestamp l)));
             (bs "application", VString (escapeString (Application l)));
             (bs "level", VString (escapeString (Level l)));
             (bs "message", VString (escapeString (Message l)))]).
Proof.
  unfold checkValid.
  rewrite <- (app_nil_r (marshalled l)) at 2.
  rewrite scanValue_marshalled; [reflexivity|].
  assert (2 <= length (marshalled l))%nat; [|lia].
  unfold marshalled, object4, member. cbn [length app]. lia.
Qed.

Lemma UnmarshalJSON_string t0 text :
  time.UnmarshalJSON t0 (quote :: text ++ [quote])
  = match time.parseStrictRFC3339 text with
    | Some t => (t, true)
    | None => (time.zero, false)
    end.
Proof.
  unfold time.UnmarshalJSON.
  rewrite bytes_eqb_neq by (cbn; intros H; inversion H).
  change (quote :: text ++ [quote]) with ((quote :: text) ++ [quote]) at 2.
  rewrite last_last, removelast_last, Ascii.eqb_refl.
  cbn [length]. rewrite length_app. cbn [length andb].
  destruct (Nat.leb_spec 2 (S (length text + 1))); [reflexivity|lia].
Qed.

(** What the strict reader accepts is stored as it is read. *)
Lemma UnmarshalJSON_parsed t0 text t :
  time.parseRFC3339 text = Some t ->
  time.UnmarshalJSON t0 (quote :: text ++ [quote]) = (t, true).
Proof.
  intros H. rewrite UnmarshalJSON_string. unfold time.parseStrictRFC3339.
  now rewrite H.
Qed.

Lemma representable_strict t :
  representable t -> time.strictRFC3339_ok t = true.
Proof.
  intros (_ & Hy & Hm & Hr). unfold time.strictRFC3339_ok.
  apply andb_true_intro. split.
  - apply andb_true_intro. split; apply Z.leb_le; lia.
  - apply orb_true_intro. right. apply Z.ltb_lt. nlia.
Qed.

(** The decoder undoes the encoder wherever the encoder loses nothing: on
    a timestamp its text determines and on strings of valid UTF-8. *)
Lemma roundtrip_general l :
  representable (Timestamp l) ->
  WF (Application l) -> WF (Level l) -> WF (Message l) ->
  ToJson l = (Some (marshalled l), None) /\
  FromJson (marshalled l) = (l, None).
Proof.
  intros Ht Ha Hl Hm. split.
  - apply Marshal_ok. now apply representable_strict.
  - unfold FromJson, Unmarshal. rewrite checkValid_marshalled.
    cbn [storeMembers]. unfold storeMember at 1.
    change (unquote (bs "timestamp")) with (Some (bs "timestamp")).
    change (findField fieldNames (bs "timestamp")) with (Some 0%nat).
    cbv iota. cbn [literalOf app].
    rewrite (UnmarshalJSON_parsed _ _ (Timestamp l))
      by now apply parseRFC3339_appendFormatRFC3339.
    unfold storeMember at 1.
    change (unquote (bs "application")) with (Some (bs "application")).
    change (findField fieldNames (bs "application")) with (Some 1%nat).
    cbv iota. rewrite unquote_escapeString by assumption.
    unfold storeMember at 1.
    change (unquote (bs "level")) with (Some (bs "level")).
    change (findField fieldNames (bs "level")) with (Some 2%nat).
    cbv iota. rewrite unquote_escapeString by assumption.
    unfold storeMember at 1.
    change (unquote (bs "message")) with (Some (bs "message")).
    change (findField fieldNames (bs "message")) with (Some 3%nat).
    cbv iota. rewrite unquote_escapeString by assumption.
    destruct l. reflexivity.
Qed.

End CodecFacts.

(** ** The scanner and the end of the input *)

Module ScannerFacts.
Import json CodecFacts.

(** More fuel changes no result. *)
Lemma scan_more_fuel f :
  (forall d s v r, scanValue f d s = Some (v, r) ->
                   scanValue (S f) d s = Some (v, r)) /\
  (forall d s vs r, scanElements f d s = Some (vs, r) ->
                    scanElements (S f) d s = Some (vs, r)) /\
  (forall d s ms r, scanMembers f d s = Some (ms, r) ->
                    scanMembers (S f) d s = Some (ms, r)).
Proof.
  induction f as [|f (IHv & IHe & IHm)].
  - repeat split; intros; discriminate.
  - repeat split; intros d s ? r H;
      [rewrite scanValue_eq in H; rewrite scanValue_eq
      |rewrite scanElements_eq in H; rewrite scanElements_eq
      |rewrite scanMembers_eq in H; rewrite scanMembers_eq];
      repeat match type of H with
      | context [match ?x with _ => _ end] => destruct x eqn:?; try discriminate
      end;
      repeat match goal with
      | E : scanValue f _ _ = Some _ |- _ => apply IHv in E
      | E : scanElements f _ _ = Some _ |- _ => apply IHe in E
      | E : scanMembers f _ _ = Some _ |- _ => apply IHm in E
      end; subst;
      repeat match goal with
      | E : ?x = _ |- context [?x] => rewrite E; cbv beta iota
      end; first [assumption | reflexivity].
Qed.

Lemma scanValue_fuel f f' d s v r :
  (f <= f')%nat -> scanValue f d s = Some (v, r) ->
  scanValue f' d s = Some (v, r).
Proof.
  induction 1 as [|f' Hle IH]; intros H; [assumption|].
  apply scan_more_fuel. now apply IH.
Qed.

(** What follows a token that is complete does not change how it is
    read. *)
Lemma skipSpace_app s c r x :
  skipSpace s = c :: r -> skipSpace (s ++ x) = c :: r ++ x.
Proof.
  induction s as [|a s IH]; [discriminate|].
  cbn [skipSpace app]. destruct (isSpace a); [assumption|].
  intros H. inversion H; subst. reflexivity.
Qed.

Lemma skipSpace_not_nil s c r : skipSpace s = c :: r -> s <> [].
Proof. destruct s; [discriminate|congruence]. Qed.

Lemma scanString_app n : forall s raw r x,
  (length s <= n)%nat -> scanString s = Some (raw, r) ->
  scanString (s ++ x) = Some (raw, r ++ x).
Proof.
  induction n as [|n IH]; intros s raw r x Hn H.
  - destruct s; [discriminate|simpl in Hn; lia].
  - destruct s as [|c s]; [discriminate|].
    cbn [scanString] in H. cbn [app scanString].
    destruct (Ascii.eqb c quote).
    { inversion H; subst. reflexivity. }
    destruct (Ascii.eqb c backslash).
    + destruct s as [|e s1]; [discriminate|]. cbn [app].
      destruct (isEscapeChar e).
      * destruct (scanString s1) as [[raw' rest']|] eqn:E; [|discriminate].
        rewrite (IH s1 _ _ x ltac:(cbn [length] in *; lia) E).
        inversion H; subst. reflexivity.
      * destruct (Ascii.eqb e "u"); [|discriminate].
        destruct s1 as [|h1 [|h2 [|h3 [|h4 s2]]]]; try discriminate.
        cbn [app].
        destruct (isHex h1 && isHex h2 && isHex h3 && isHex h4); [|discriminate].
        destruct (scanString s2) as [[raw' rest']|] eqn:E; [|discriminate].
        rewrite (IH s2 _ _ x ltac:(cbn [length] in *; lia) E).
        inversion H; subst. reflexivity.
    + destruct (N.ltb (b2n c) 32); [discriminate|].
      destruct (scanString s) as [[raw' rest']|] eqn:E; [|discriminate].
      rewrite (IH s _ _ x ltac:(cbn [length] in *; lia) E).
      inversion H; subst. reflexivity.
Qed.

Lemma scanLiteral_app lit v s v' r x :
  scanLiteral lit v s = Some (v', r) ->
  scanLiteral lit v (s ++ x) = Some (v', r ++ x).
Proof.
  unfold scanLiteral. intros H.
  destruct (bytes_eqb (firstn (length lit) s) lit) eqn:E; [|discriminate].
  apply bytes_eqb_eq in E. inversion H; subst v' r. clear H.
  assert (Hl : (length lit <= length s)%nat).
  { rewrite <- E at 1. rewrite length_firstn. lia. }
  rewrite firstn_app, skipn_app.
  replace (length lit - length s)%nat with 0%nat by lia.
  cbn [firstn skipn]. rewrite app_nil_r, E, bytes_eqb_refl. reflexivity.
Qed.

Lemma spanDigits_more s : forall ds r x,
  spanDigits s = (ds, r) -> r <> [] -> spanDigits (s ++ x) = (ds, r ++ x).
Proof.
  induction s as [|c s IH]; intros ds r x H Hr.
  - inversion H; subst. congruence.
  - cbn [spanDigits app] in *. destruct (isDigit c).
    + destruct (spanDigits s) as [d rest] eqn:E.
      inversion H; subst. now rewrite (IH _ _ x eq_refl Hr).
    + inversion H; subst. reflexivity.
Qed.

Lemma scanNumber_app s raw r x :
  scanNumber s = Some (raw, r) -> r <> [] ->
  scanNumber (s ++ x) = Some (raw, r ++ x).
Proof.
  unfold scanNumber. intros H Hr.
  repeat match goal with
  | H' : context [match ?y with _ => _ end] |- _ =>
    destruct y eqn:?; try discriminate
  | E : (_, _) = (_, _) |- _ => inversion E; subst; clear E
  | E : Some _ = Some _ |- _ => inversion E; subst; clear E
  | E : spanDigits [] = _ |- _ => cbn [spanDigits] in E
  end;
  try congruence;
  repeat match goal with
  | E : spanDigits ?a = (_, ?b) |- _ =>
    lazymatch a with
    | _ ++ x => fail
    | _ =>
      apply (fun E' => spanDigits_more _ _ _ x E') in E;
      [|first [assumption | discriminate]]
    end
  end;
  cbn [app] in *;
  repeat match goal with
  | E : ?y = _ |- context [?y] => rewrite E; cbv beta iota; cbn [app]
  end; reflexivity.
Qed.

Definition isNumber (v : value) : bool :=
  match v with
  | VNumber _ => true
  | _ => false
  end.

(** A value that is read is read the same whatever is put behind the
    input, unless it is a number that ends with the input. *)
Lemma scan_stable f :
  (forall d s v r x,
     scanValue f d s = Some (v, r) -> isNumber v = false \/ r <> [] ->
     scanValue f d (s ++ x) = Some (v, r ++ x)) /\
  (forall d s vs r x,
     scanElements f d s = Some (vs, r) ->
     scanElements f d (s ++ x) = Some (vs, r ++ x)) /\
  (forall d s ms r x,
     scanMembers f d s = Some (ms, r) ->
     scanMembers f d (s ++ x) = Some (ms, r ++ x)).
Proof.
  induction f as [|f (IHv & IHe & IHm)]; [repeat split; intros; discriminate|].
  repeat split.
  - intros d s v r x H Hn. rewrite scanValue_eq in H. rewrite scanValue_eq.
    destruct (skipSpace s) as [|c t] eqn:Es; [discriminate|].
    rewrite (skipSpace_app _ _ _ x Es).
    destruct (Ascii.eqb c "{").
    { destruct (maxNestingDepth <? d + 1)%N; [discriminate|].
      destruct (skipSpace t) as [|c' t'] eqn:Et; [discriminate|].
      rewrite (skipSpace_app _ _ _ x Et).
      destruct (Ascii.eqb c' "}").
      - inversion H; subst; reflexivity.
      - destruct (scanMembers f (d + 1) t) as [[ms rest]|] eqn:Em;
          [|discriminate].
        rewrite (IHm _ _ _ _ x Em). inversion H; subst; reflexivity. }
    destruct (Ascii.eqb c "[").
    { destruct (maxNestingDepth <? d + 1)%N; [discriminate|].
      destruct (skipSpace t) as [|c' t'] eqn:Et; [discriminate|].
      rewrite (skipSpace_app _ _ _ x Et).
      destruct (Ascii.eqb c' "]").
      - inversion H; subst; reflexivity.
      - destruct (scanElements f (d + 1) t) as [[vs rest]|] eqn:Ee;
          [|discriminate].
        rewrite (IHe _ _ _ _ x Ee). inversion H; subst; reflexivity. }
    destruct (Ascii.eqb c quote).
    { destruct (scanString t) as [[raw rest]|] eqn:E; [|discriminate].
      rewrite (scanString_app _ t _ _ x (le_n _) E).
      inversion H; subst; reflexivity. }
    destruct (Ascii.eqb c "-" || isDigit c).
    { destruct (scanNumber (c :: t)) as [[raw rest]|] eqn:E; [|discriminate].
      inversion H; subst. destruct Hn as [Hn|Hn]; [discriminate|].
      change (c :: t ++ x) with ((c :: t) ++ x).
      rewrite (scanNumber_app _ _ _ x E Hn). reflexivity. }
    change (c :: t ++ x) with ((c :: t) ++ x).
    destruct (Ascii.eqb c "t"); [now apply scanLiteral_app|].
    destruct (Ascii.eqb c "f"); [now apply scanLiteral_app|].
    destruct (Ascii.eqb c "n"); [now apply scanLiteral_app|].
    discriminate.
  - intros d s vs r x H. rewrite scanElements_eq in H. rewrite scanElements_eq.
    destruct (scanValue f d s) as [[v r1]|] eqn:Ev; [|discriminate].
    destruct (skipSpace r1) as [|c r2] eqn:Es; [discriminate|].
    rewrite (IHv _ _ _ _ x Ev)
      by (right; eapply skipSpace_not_nil; eassumption).
    rewrite (skipSpace_app _ _ _ x Es).
    destruct (Ascii.eqb c ",").
    + destruct (scanElements f d r2) as [[vs' rest]|] eqn:Ee; [|discriminate].
      rewrite (IHe _ _ _ _ x Ee). inversion H; subst; reflexivity.
    + destruct (Ascii.eqb c "]"); [|discriminate].
      inversion H; subst; reflexivity.
  - intros d s ms r x H. rewrite scanMembers_eq in H. rewrite scanMembers_eq.
    destruct (skipSpace s) as [|q t] eqn:Es; [discriminate|].
    rewrite (skipSpace_app _ _ _ x Es).
    destruct (negb (Ascii.eqb q quote)); [discriminate|].
    destruct (scanString t) as [[key r1]|] eqn:Ek; [|discriminate].
    rewrite (scanString_app _ t _ _ x (le_n _) Ek).
    destruct (skipSpace r1) as [|colon r2] eqn:Ec; [discriminate|].
    rewrite (skipSpace_app _ _ _ x Ec).
    destruct (negb (Ascii.eqb colon ":")); [discriminate|].
    destruct (scanValue f d r2) as [[v r3]|] eqn:Ev; [|discriminate].
    destruct (skipSpace r3) as [|c r4] eqn:E3; [discriminate|].
    rewrite (IHv _ _ _ _ x Ev)
      by (right; eapply skipSpace_not_nil; eassumption).
    rewrite (skipSpace_app _ _ _ x E3).
    destruct (Ascii.eqb c ",").
    + destruct (scanMembers f d r4) as [[ms' rest]|] eqn:Em; [|discriminate].
      rewrite (IHm _ _ _ _ x Em). inversion H; subst; reflexivity.
    + destruct (Ascii.eqb c "}"); [|discriminate].
      inversion H; subst; reflexivity.
Qed.

(** Whether a value is a number shows on its first byte. *)
Lemma scanValue_isNumber f d s v r c t :
  scanValue f d s = Some (v, r) -> skipSpace s = c :: t ->
  isNumber v = (Ascii.eqb c "-" || isDigit c).
Proof.
  destruct f as [|f]; [discriminate|].
  rewrite scanValue_eq. intros H Es. rewrite Es in H.
  destruct (Ascii.eqb_spec c "{") as [->|_].
  { repeat match type of H with
    | context [match ?y with _ => _ end] => destruct y; try discriminate
    end; inversion H; reflexivity. }
  destruct (Ascii.eqb_spec c "[") as [->|_].
  { repeat match type of H with
    | context [match ?y with _ => _ end] => destruct y; try discriminate
    end; inversion H; reflexivity. }
  destruct (Ascii.eqb_spec c quote) as [->|_].
  { repeat match type of H with
    | context [match ?y with _ => _ end] => destruct y; try discriminate
    end; inversion H; reflexivity. }
  destruct (Ascii.eqb c "-" || isDigit c).
  { repeat match type of H with
    | context [match ?y with _ => _ end] => destruct y; try discriminate
    end; inversion H; reflexivity. }
  unfold scanLiteral in H.
  repeat match type of H with
  | context [match ?y with _ => _ end] => destruct y; try discriminate
  end; inversion H; reflexivity.
Qed.

Lemma scanValue_head f d s v r :
  scanValue f d s = Some (v, r) -> exists c t, skipSpace s = c :: t.
Proof.
  destruct f as [|f]; [discriminate|]. rewrite scanValue_eq.
  destruct (skipSpace s) as [|c t]; [discriminate|]. now exists c, t.
Qed.

(** A JSON text that ends with its value, the value not a number, has no
    proper prefix that is a JSON text. *)
Lemma checkValid_prefix f data v p x :
  scanValue f 0 data = Some (v, []) -> isNumber v = false ->
  data = p ++ x -> x <> [] ->
  checkValid p = None.
Proof.
  intros Hd Hv -> Hx. unfold checkValid.
  destruct (scanValue (2 * length p + 2) 0 p) as [[v' r']|] eqn:Hp;
    [|reflexivity].
  destruct (skipSpace r') eqn:Hr'; [|reflexivity]. exfalso.
  destruct (scanValue_head _ _ _ _ _ Hp) as (c & t & Hs).
  assert (Hv' : isNumber v' = false).
  { rewrite (scanValue_isNumber _ _ _ _ _ _ _ Hp Hs).
    rewrite <- (scanValue_isNumber _ _ _ _ _ _ _ Hd (skipSpace_app _ _ _ x Hs)).
    exact Hv. }
  pose proof (proj1 (scan_stable _) _ _ _ _ x Hp (or_introl Hv')) as Hpx.
  set (m := Nat.max f (2 * length p + 2)).
  apply (scanValue_fuel _ m) in Hpx; [|lia].
  apply (scanValue_fuel _ m) in Hd; [|lia].
  rewrite Hd in Hpx. inversion Hpx as [[Hvv Hrx]].
  symmetry in Hrx. apply app_eq_nil in Hrx. destruct Hrx. contradiction.
Qed.

End ScannerFacts.

(* ================================================================== *)
(** * The claims about the codec *)

Module CodecClaims.
Import utf8 json models Utf8Facts TimeRoundTrip CodecFacts ScannerFacts.

(** The five levels the source names. *)
Definition levels : list LogLevel := [DEBUG; INFO; WARN; ERROR; FATAL].

Lemma levels_WF lvl : In lvl levels -> WF lvl.
Proof.
  intros H. apply Valid_WF. cbn in H.
  repeat (destruct H as [<-|H]; [reflexivity|]). destruct H.
Qed.

(** An entry the encoder loses nothing of: its timestamp is one its text
    determines, and its application name and message are valid UTF-8. *)
Definition lossless (e : LogEntry) : Prop :=
  representable (Timestamp e) /\
  Valid (Application e) = true /\ Valid (Message e) = true.

Definition newYear : time.Time := time.mkTime 2024 1 1 0 0 0 0 0.

Lemma newYear_representable : representable newYear.
Proof. unfold representable, time.wf, newYear. cbn. lia. Defined.

(** C1, as amended: for every LogEntry whose level is one of the five
    enumerated values, whose timestamp has a four-digit year and a zone of
    whole minutes within a day, and whose application name and message are
    valid UTF-8, [ToJson] succeeds and [FromJson] of the bytes it produces
    yields the entry itself and no error. *)
Theorem FromJson_ToJson (e : LogEntry) :
  In (Level e) levels -> lossless e ->
  exists data, ToJson e = (Some data, None) /\ FromJson data = (e, None).
Proof.
  intros Hl (Ht & Ha & Hm). exists (marshalled e).
  apply roundtrip_general; try assumption;
    try (now apply Valid_WF); now apply levels_WF.
Qed.

Definition sampleEntry : LogEntry :=
  mkLogEntry (time.mkTime 2024 2 29 23 59 1 120000000 19800)
             (bs "userService") INFO (bs "Request completed").

Lemma sampleEntry_lossless : lossless sampleEntry.
Proof.
  unfold lossless, representable, time.wf, sampleEntry. cbn.
  repeat split; try lia; reflexivity.
Defined.

Lemma FromJson_ToJson_witness :
  In (Level sampleEntry) levels /\ lossless sampleEntry /\
  exists data,
    ToJson sampleEntry = (Some data, None) /\
    FromJson data = (sampleEntry, None).
Proof.
  assert (Hl : In (Level sampleEntry) levels) by (cbn; tauto).
  split; [exact Hl|]. split; [exact sampleEntry_lossless|].
  exact (FromJson_ToJson sampleEntry Hl sampleEntry_lossless).
Defined.

(** C1 fails as stated: an entry of level INFO whose message is the single
    byte 0xFF, which is no UTF-8, is serialized without error, and what
    comes back holds U+FFFD in the message instead. *)
Definition badEntry : LogEntry :=
  mkLogEntry newYear (bs "userService") INFO [n2b 255].

Lemma FromJson_ToJson_counterexample :
  In (Level badEntry) levels /\
  exists data back,
    ToJson badEntry = (Some data, None) /\
    FromJson data = (back, None) /\
    Message back = [n2b 239; n2b 191; n2b 189] /\
    back <> badEntry.
Proof.
  split; [cbn; tauto|].
  destruct (ToJson badEntry) as [[data|] err] eqn:E;
    [|vm_compute in E; discriminate].
  exists data, (fst (FromJson data)).
  vm_compute in E. inversion E; subst. vm_compute.
  repeat split. discriminate.
Qed.

(** C2, as amended: for every serialized record whose level is not one
    of DEBUG, INFO, WARN, ERROR, FATAL (the serialization of an entry with
    such a level, the level valid UTF-8 and the entry otherwise one the
    encoder loses nothing of), [FromJson] returns no error, and the entry it
    returns carries that level unchanged: [LogLevel] is a string type and
    nothing checks its value. *)
Theorem FromJson_unknown_level (e : LogEntry) :
  ~ In (Level e) levels -> Valid (Level e) = true -> lossless e ->
  exists data, ToJson e = (Some data, None) /\ FromJson data = (e, None).
Proof.
  intros _ Hl (Ht & Ha & Hm). exists (marshalled e).
  apply roundtrip_general; try assumption; now apply Valid_WF.
Qed.

Definition traceEntry : LogEntry :=
  mkLogEntry newYear (bs "userService") (bs "TRACE") (bs "step 1").

Lemma traceEntry_unknown : ~ In (Level traceEntry) levels.
Proof.
  cbn. intros H. repeat (destruct H as [H|H]; [discriminate|]). exact H.
Defined.

Lemma traceEntry_lossless : lossless traceEntry.
Proof.
  unfold lossless, representable, time.wf, traceEntry, newYear. cbn.
  repeat split; try lia; reflexivity.
Defined.

Lemma FromJson_unknown_level_witness :
  ~ In (Level traceEntry) levels /\ Valid (Level traceEntry) = true /\
  lossless traceEntry /\
  exists data,
    ToJson traceEntry = (Some data, None) /\
    FromJson data = (traceEntry, None).
Proof.
  split; [exact traceEntry_unknown|].
  split; [reflexivity|]. split; [exact traceEntry_lossless|].
  exact (FromJson_unknown_level traceEntry traceEntry_unknown eq_refl
                                traceEntry_lossless).
Defined.

(** C2 fails as stated: the record that [ToJson] writes for an entry of
    level TRACE is deserialized without error, TRACE being the level of
    the entry returned. *)
Lemma FromJson_unknown_level_counterexample :
  exists data,
    ToJson traceEntry = (Some data, None) /\
    ~ In (bs "TRACE") levels /\
    snd (FromJson data) = None /\
    Level (fst (FromJson data)) = bs "TRACE".
Proof.
  destruct (ToJson traceEntry) as [[data|] err] eqn:E;
    [|vm_compute in E; discriminate].
  exists data. vm_compute in E. inversion E; subst.
  split; [reflexivity|]. split; [exact traceEntry_unknown|].
  vm_compute. split; reflexivity.
Qed.

(** *** Truncated records and records that lack a field *)

Lemma ToJson_Some e data :
  ToJson e = (Some data, None) -> data = marshalled e.
Proof.
  unfold ToJson. intros H.
  destruct (time.strictRFC3339_ok (Timestamp e)) eqn:Hok.
  - rewrite (Marshal_ok _ Hok) in H. now inversion H.
  - rewrite (Marshal_error _ Hok) in H. discriminate.
Qed.

(** The fields of a [LogEntry], by their index among [fieldNames]. *)
Definition field (f : nat) (e : LogEntry) : time.Time + bytes :=
  match f with
  | 0%nat => inl (Timestamp e)
  | 1%nat => inr (Application e)
  | 2%nat => inr (Level e)
  | _ => inr (Message e)
  end.

(** The key [key], as it stands in the input, selects the field [f]. *)
Definition selects (f : nat) (key : bytes) : Prop :=
  exists k, unquote key = Some k /\ findField fieldNames k = Some f.

(** A member the decoder stores without complaint: one no field is selected
    by, a timestamp that is [null] or a string the strict reader parses, a
    string field that is [null] or a string. *)
Definition accepted (m : bytes * value) : Prop :=
  exists k, unquote (fst m) = Some k /\
  match findField fieldNames k with
  | None => True
  | Some O =>
    snd m = VNull \/
    exists raw t, snd m = VString raw /\ time.parseRFC3339 raw = Some t
  | Some _ =>
    snd m = VNull \/ exists raw s, snd m = VString raw /\ unquote raw = Some s
  end.

Lemma indexOf_lt eq names : forall i j,
  indexOf eq names i = Some j -> (j < i + length names)%nat.
Proof.
  induction names as [|n names IH]; intros i j H; [discriminate|].
  cbn [indexOf length] in *. destruct (eq n).
  - inversion H; subst. lia.
  - apply IH in H. lia.
Qed.

Lemma findField_lt k f : findField fieldNames k = Some f -> (f < 4)%nat.
Proof.
  unfold findField. intros H.
  destruct (indexOf (bytes_eqb k) fieldNames 0) as [i|] eqn:E.
  - inversion H; subst. apply indexOf_lt in E. exact E.
  - apply indexOf_lt in H. exact H.
Qed.

Lemma storeMember_frame f e saved key v :
  (f < 4)%nat -> ~ selects f key ->
  field f (match storeMember e saved key v with
           | inl (e', _) => e'
           | inr (e', _) => e'
           end) = field f e.
Proof.
  intros Hf Hsel. unfold storeMember.
  destruct (unquote key) as [k|] eqn:Ek; [|reflexivity].
  destruct (findField fieldNames k) as [g|] eqn:Eg; [|reflexivity].
  assert (Hg : g <> f).
  { intros ->. apply Hsel. now exists k. }
  pose proof (findField_lt _ _ Eg) as Hg4.
  destruct g as [|g].
  - destruct (time.UnmarshalJSON (Timestamp e) (literalOf v)) as [t [|]];
      destruct f as [|[|[|f]]]; try reflexivity; congruence.
  - destruct v; try reflexivity.
    destruct (unquote raw); [|reflexivity].
    destruct g as [|[|[|g]]]; try lia;
      destruct f as [|[|[|f]]]; try reflexivity; try congruence; lia.
Qed.

Lemma storeMembers_frame f ms : forall e saved,
  (f < 4)%nat -> (forall k v, In (k, v) ms -> ~ selects f k) ->
  field f (fst (storeMembers e saved ms)) = field f e.
Proof.
  induction ms as [|[k v] ms IH]; intros e saved Hf Hsel; [reflexivity|].
  cbn [storeMembers].
  pose proof (storeMember_frame f e saved k v Hf
                (Hsel k v (or_introl eq_refl))) as Hstep.
  destruct (storeMember e saved k v) as [[e' saved']|[e' err]].
  - rewrite (IH e' saved' Hf); [exact Hstep|].
    intros k' v' Hin. apply (Hsel k' v'). now right.
  - exact Hstep.
Qed.

Lemma storeMembers_accepted ms : forall e,
  Forall accepted ms -> snd (storeMembers e None ms) = None.
Proof.
  induction ms as [|[key v] ms IH]; intros e H; [reflexivity|].
  inversion H as [|? ? (k & Ek & Hm) Hrest]; subst.
  cbn [fst snd] in Ek, Hm. cbn [storeMembers]. unfold storeMember.
  rewrite Ek.
  destruct (findField fieldNames k) as [[|g]|].
  - destruct Hm as [->|(raw & t & -> & Hp)].
    + cbn [literalOf]. unfold time.UnmarshalJSON.
      rewrite bytes_eqb_refl. now apply IH.
    + cbn [literalOf app]. rewrite (UnmarshalJSON_parsed _ _ _ Hp).
      now apply IH.
  - destruct Hm as [->|(raw & s & -> & Hu)].
    + now apply IH.
    + rewrite Hu. now apply IH.
  - now apply IH.
Qed.

(** C3, as amended: for every byte sequence that is a serialized record
    cut short (a proper prefix of what [ToJson] writes), [FromJson] returns
    a syntax error and the zero entry, and it returns whatever the input.
    A record that lacks a field is no error: a JSON object is decoded
    without error when each member it does hold is one the decoder accepts,
    and every field no key of the object selects keeps its zero value. *)
Theorem FromJson_truncated_or_incomplete :
  (forall e data p x,
     ToJson e = (Some data, None) -> data = p ++ x -> x <> [] ->
     FromJson p = (zeroLogEntry, Some SyntaxError)) /\
  (forall data ms,
     checkValid data = Some (VObject ms) ->
     (Forall accepted ms -> snd (FromJson data) = None) /\
     (forall f, (f < 4)%nat ->
        (forall k v, In (k, v) ms -> ~ selects f k) ->
        field f (fst (FromJson data)) = field f zeroLogEntry)).
Proof.
  split.
  - intros e data p x He Hd Hx.
    apply ToJson_Some in He. subst data.
    assert (Hc : checkValid p = None).
    { eapply (checkValid_prefix 6 (marshalled e));
        [rewrite <- (app_nil_r (marshalled e)) at 1;
         apply scanValue_marshalled; lia
        |reflexivity|exact Hd|exact Hx]. }
    unfold FromJson, Unmarshal. now rewrite Hc.
  - intros data ms Hv. unfold FromJson, Unmarshal. rewrite Hv. split.
    + apply storeMembers_accepted.
    + intros f Hf Hsel. now apply storeMembers_frame.
Qed.

(** The record of [sampleEntry] without its last eleven bytes, and a
    record that holds all fields but [message]. *)
Definition truncatedRecord : bytes :=
  firstn 100 (marshalled sampleEntry).

Definition recordWithoutMessage : bytes :=
  "{"%char :: member (bs "timestamp") (bs "2024-01-01T00:00:00Z")
  ++ ","%char :: member (bs "application") (bs "userService")
  ++ ","%char :: member (bs "level") (bs "INFO") ++ ["}"%char].

Lemma FromJson_truncated_or_incomplete_witness :
  FromJson truncatedRecord = (zeroLogEntry, Some SyntaxError) /\
  snd (FromJson recordWithoutMessage) = None /\
  field 3 (fst (FromJson recordWithoutMessage)) = field 3 zeroLogEntry.
Proof.
  destruct FromJson_truncated_or_incomplete as [Hcut Hobj].
  split.
  - apply (Hcut sampleEntry (marshalled sampleEntry) truncatedRecord
                (skipn 100 (marshalled sampleEntry))).
    + apply roundtrip_general;
        [exact (proj1 sampleEntry_lossless)|apply Valid_WF; reflexivity..].
    + unfold truncatedRecord. symmetry. apply firstn_skipn.
    + vm_compute. discriminate.
  - destruct (Hobj recordWithoutMessage
                [(bs "timestamp", VString (bs "2024-01-01T00:00:00Z"));
                 (bs "application", VString (bs "userService"));
                 (bs "level", VString (bs "INFO"))]) as [Hok Hframe].
    + vm_compute. reflexivity.
    + split.
      * apply Hok.
        apply Forall_cons.
        { exists (bs "timestamp"). split; [vm_compute; reflexivity|].
          replace (findField fieldNames (bs "timestamp")) with (Some 0%nat)
            by (vm_compute; reflexivity).
          right. exists (bs "2024-01-01T00:00:00Z"), newYear.
          split; [reflexivity|vm_compute; reflexivity]. }
        apply Forall_cons.
        { exists (bs "application"). split; [vm_compute; reflexivity|].
          replace (findField fieldNames (bs "application")) with (Some 1%nat)
            by (vm_compute; reflexivity).
          right. exists (bs "userService"), (bs "userService").
          split; [reflexivity|vm_compute; reflexivity]. }
        apply Forall_cons.
        { exists (bs "level"). split; [vm_compute; reflexivity|].
          replace (findField fieldNames (bs "level")) with (Some 2%nat)
            by (vm_compute; reflexivity).
          right. exists (bs "INFO"), (bs "INFO").
          split; [reflexivity|vm_compute; reflexivity]. }
        apply Forall_nil.
      * apply Hframe; [lia|].
        intros k v Hin (k' & Hk & Hf). cbn in Hin.
        repeat (destruct Hin as [Hin|Hin];
                [inversion Hin; subst; vm_compute in Hk;
                 inversion Hk; subst; vm_compute in Hf; discriminate|]).
        exact Hin.
Defined.

(** C3 fails as stated: a record that holds no [message] is deserialized
    without error, the message of the entry returned being empty. *)
Lemma FromJson_missing_field_counterexample :
  FromJson recordWithoutMessage
  = (mkLogEntry newYear (bs "userService") INFO [], None).
Proof. vm_compute. reflexivity. Qed.

(** *** When serialization fails *)

Lemma generateLogEntry_fields lp d :
  Timestamp (producer.generateLogEntry lp d) = producer.now d /\
  Application (producer.generateLogEntry lp d) = producer.appName lp.
Proof.
  unfold producer.generateLogEntry.
  destruct (producer.Qltb (producer.levelRand d) producer.c0_6);
    [|destruct (producer.Qltb (producer.levelRand d) producer.c0_8);
      [|destruct (producer.Qltb (producer.levelRand d) producer.c0_95)]];
    split; reflexivity.
Qed.

(** C10, as amended: [ToJson] returns bytes and a nil error exactly when
    the timestamp's year is within 0..9999 and its zone offset is zero or
    of an hour below 24, which is what [Time.MarshalJSON] insists on; for
    every other entry it returns an error and no bytes. So the
    marshal-failure branch of [sendLog] is taken exactly when the clock
    reading [time.Now()] is outside that range. *)
Theorem ToJson_error (e : LogEntry) :
  ((exists data, ToJson e = (Some data, None)) <->
   time.strictRFC3339_ok (Timestamp e) = true) /\
  (ToJson e = (None, Some MarshalerError) <->
   time.strictRFC3339_ok (Timestamp e) = false) /\
  (time.strictRFC3339_ok (Timestamp e) = true <->
   (0 <= time.Year (Timestamp e) <= 9999)%Z /\
   (time.ZoneOffset (Timestamp e) = 0 \/
    Z.abs (Z.quot (time.ZoneOffset (Timestamp e)) 60) / 60 < 24)%Z) /\
  (forall lp d r,
     producer.sent (producer.sendLog lp d r) = None <->
     time.strictRFC3339_ok (producer.now d) = false).
Proof.
  unfold ToJson. repeat split.
  - intros [data H].
    destruct (time.strictRFC3339_ok (Timestamp e)) eqn:Hok; [reflexivity|].
    rewrite (Marshal_error _ Hok) in H. discriminate.
  - intros Hok. exists (marshalled e). now apply Marshal_ok.
  - intros H.
    destruct (time.strictRFC3339_ok (Timestamp e)) eqn:Hok; [|reflexivity].
    rewrite (Marshal_ok _ Hok) in H. discriminate.
  - apply Marshal_error.
  - unfold time.strictRFC3339_ok in H.
    apply andb_prop in H. destruct H as [H _].
    apply andb_prop in H. destruct H as [H _]. now apply Z.leb_le.
  - unfold time.strictRFC3339_ok in H.
    apply andb_prop in H. destruct H as [H _].
    apply andb_prop in H. destruct H as [_ H]. now apply Z.leb_le.
  - unfold time.strictRFC3339_ok in H.
    apply andb_prop in H. destruct H as [_ H].
    apply orb_prop in H. destruct H as [H|H];
      [left; now apply Z.eqb_eq|right; now apply Z.ltb_lt].
  - intros ((Hy1 & Hy2) & Hz). unfold time.strictRFC3339_ok.
    apply andb_true_intro. split.
    + apply andb_true_intro. split; now apply Z.leb_le.
    + apply orb_true_intro.
      destruct Hz as [Hz|Hz]; [left; now apply Z.eqb_eq|right; now apply Z.ltb_lt].
  - unfold producer.sendLog, ToJson. cbv zeta. intros H.
    destruct (time.strictRFC3339_ok (producer.now d)) eqn:Hok; [|reflexivity].
    rewrite <- (proj1 (generateLogEntry_fields lp d)) in Hok.
    rewrite Marshal_ok in H by exact Hok.
    destruct r as [[? ?]|?]; discriminate.
  - unfold producer.sendLog, ToJson. cbv zeta. intros Hok.
    rewrite <- (proj1 (generateLogEntry_fields lp d)) in Hok.
    rewrite Marshal_error by exact Hok. reflexivity.
Qed.

(** C10 fails as stated: of an entry stamped in the year 10000, [ToJson]
    returns an error and no bytes, and [sendLog] at such a clock reading
    returns the marshal failure without sending anything. *)
Definition farEntry : LogEntry :=
  mkLogEntry (time.mkTime 10000 1 1 0 0 0 0 0) (bs "userService") INFO
             (bs "Service Started").

Lemma ToJson_error_counterexample :
  ToJson farEntry = (None, Some MarshalerError) /\
  producer.sendLog (producer.mkLogProducer (bs "userService"))
    (producer.mkDraws 0 2 (time.mkTime 10000 1 1 0 0 0 0 0)) (inl (0, 0)%Z)
  = producer.mkSendResult None []
      (Some (Errorf (bs "failed to marshal logentry %w ")
                    (JsonError MarshalerError))).
Proof. split; vm_compute; reflexivity. Qed.

End CodecClaims.

(* ================================================================== *)
(** * The claims about the producer *)

Module ProducerClaims.
Import models producer CodecClaims.




(** The draws of the four levels, one each. *)
Lemma generateLogEntry_level_examples :
  let lp := mkLogProducer (bs "AuthService") in
  let t := newYear in
  Level (generateLogEntry lp (mkDraws (1 # 2) 7 t)) = INFO /\
  Message (generateLogEntry lp (mkDraws (1 # 2) 7 t)) = bs "Request completed" /\
  Level (generateLogEntry lp (mkDraws (7 # 10) 7 t)) = WARN /\
  Level (generateLogEntry lp (mkDraws (9 # 10) 7 t)) = ERROR /\
  Level (generateLogEntry lp (mkDraws (99 # 100) 7 t)) = DEBUG.
Proof. cbv zeta. repeat split; reflexivity. Qed.

(** C5: the message [sendLog] hands to the broker client has the entry's
    application name as its key, the serialized entry as its value and the
    entry's timestamp as its timestamp; the application name is the
    producer's, so every message one producer sends has the same key. *)
Theorem sendLog_message :
  (forall lp d r m,
     sent (sendLog lp d r) = Some m ->
     let e := generateLogEntry lp d in
     sarama.ProducerMessage.Key m = Application e /\
     ToJson e = (Some (sarama.ProducerMessage.Value m), None) /\
     sarama.ProducerMessage.Timestamp m = Timestamp e /\
     sarama.ProducerMessage.Topic m = bs "raw-logs" /\
     Application e = appName lp /\ Timestamp e = now d) /\
  (forall lp events w m,
     In m (messages (loop lp events w)) ->
     In m (messages w) \/ sarama.ProducerMessage.Key m = appName lp).
Proof.
  assert (Hone : forall lp d r m,
     sent (sendLog lp d r) = Some m ->
     let e := generateLogEntry lp d in
     sarama.ProducerMessage.Key m = Application e /\
     ToJson e = (Some (sarama.ProducerMessage.Value m), None) /\
     sarama.ProducerMessage.Timestamp m = Timestamp e /\
     sarama.ProducerMessage.Topic m = bs "raw-logs" /\
     Application e = appName lp /\ Timestamp e = now d).
  { intros lp d r m H. cbv zeta.
    destruct (generateLogEntry_fields lp d) as [Ht Ha].
    unfold sendLog in H. cbv zeta in H.
    destruct (ToJson (generateLogEntry lp d)) as [[data|] [e|]] eqn:E;
      try discriminate.
    destruct r as [[p o]|e]; cbn [sent] in H; inversion H; subst m;
      cbn; repeat split; assumption. }
  split; [exact Hone|].
  intros lp events. induction events as [|ev events IH]; intros w m Hin.
  - now left.
  - destruct ev as [d r|].
    + cbn [loop] in Hin. apply IH in Hin. cbn [messages] in Hin.
      destruct Hin as [Hin|Hin]; [|now right].
      apply in_app_or in Hin. destruct Hin as [Hin|Hin]; [now left|].
      right. destruct (sent (sendLog lp d r)) as [m'|] eqn:E;
        [|destruct Hin].
      destruct Hin as [<-|[]].
      destruct (Hone lp d r m' E) as (Hk & _ & _ & _ & Ha & _).
      now rewrite Hk.
    + cbn [loop messages] in Hin. now left.
Qed.

Lemma sendLog_message_witness :
  let lp := mkLogProducer (bs "AuthService") in
  let d := mkDraws (1 # 2) 7 newYear in
  exists m,
    sent (sendLog lp d (inl (2, 42)%Z)) = Some m /\
    sarama.ProducerMessage.Key m = bs "AuthService" /\
    sarama.ProducerMessage.Timestamp m = newYear.
Proof.
  cbv zeta.
  destruct (sent (sendLog (mkLogProducer (bs "AuthService"))
                          (mkDraws (1 # 2) 7 newYear) (inl (2, 42)%Z)))
    as [m|] eqn:E; [|vm_compute in E; discriminate].
  exists m. split; [reflexivity|].
  destruct (proj1 sendLog_message _ _ _ _ E) as (Hk & _ & Ht & _ & Ha & Hn).
  split; [now rewrite Hk, Ha|now rewrite Ht, Hn].
Defined.

End ProducerClaims.

(* ================================================================== *)
(** * The claim about what ends the programs *)

Module ProcessClaims.
Import models CodecClaims.




(** A tick whose publish fails, between two that succeed. *)
Lemma failed_publish_example :
  let lp := producer.mkLogProducer (bs "AuthService") in
  let d := producer.mkDraws (1 # 2) 7 newYear in
  let w := producer.loop lp
             [producer.Tick d (inl (0, 1)%Z);
              producer.Tick d (inr (BrokerError (bs "timeout")));
              producer.Tick d (inl (0, 2)%Z)]
             (producer.mkWorld [] [] Running) in
  producer.state w = Running /\ length (producer.messages w) = 3%nat /\
  In (PrintlnErr (bs "Error sending log ")
                 (Errorf (bs "failed to send message %w")
                         (BrokerError (bs "timeout"))))
     (producer.console w).
Proof. vm_compute. repeat split. right. left. reflexivity. Qed.

End ProcessClaims.

(* ================================================================== *)
(** * What the codec does to strings that are no UTF-8 *)

Module CodecRepair.
Import utf8 json models Utf8Facts JsonStringFacts JsonUnquoteFacts.
Import TimeRoundTrip CodecFacts.
Local Open Scope N_scope.

(** The string [p] with every byte that starts no valid encoding replaced
    by the encoding of U+FFFD, which is what a [range] loop over a Go string
    yields rune by rune. *)
Fixpoint replaceInvalidFuel (fuel : nat) (p : bytes) : bytes :=
  match fuel with
  | O => []
  | S fuel' =>
    match p with
    | [] => []
    | _ =>
      let '(r, n) := DecodeRune p in
      (if (r =? RuneError) && (n =? 1)%nat then encode3 RuneError
       else firstn n p)
      ++ replaceInvalidFuel fuel' (skipn n p)
    end
  end.

Definition replaceInvalid (p : bytes) : bytes :=
  replaceInvalidFuel (length p) p.

(** The entry [json.Marshal] writes down when it is given [e]. *)
Definition repaired (e : LogEntry) : LogEntry :=
  mkLogEntry (Timestamp e) (replaceInvalid (Application e))
             (replaceInvalid (Level e)) (replaceInvalid (Message e)).

Lemma replaceInvalidFuel_fuel f1 : forall f2 s,
  (length s <= f1)%nat -> (length s <= f2)%nat ->
  replaceInvalidFuel f1 s = replaceInvalidFuel f2 s.
Proof.
  induction f1 as [|f1 IH]; intros f2 s H1 H2.
  - destruct s; [|simpl in H1; lia]. now destruct f2.
  - destruct s as [|c t]; [now destruct f2|].
    destruct f2 as [|f2]; [simpl in H2; lia|].
    cbn [replaceInvalidFuel].
    pose proof (skipn_DecodeRune_length (c :: t) ltac:(congruence)) as Hl.
    destruct (DecodeRune (c :: t)) as [r n]. cbn [snd] in Hl.
    simpl in H1, H2, Hl. f_equal. apply IH; lia.
Qed.

Lemma replaceInvalid_step p :
  p <> [] ->
  replaceInvalid p
  = (let '(r, n) := DecodeRune p in
     if (r =? RuneError) && (n =? 1)%nat then encode3 RuneError
     else firstn n p)
    ++ replaceInvalid (skipn (snd (DecodeRune p)) p).
Proof.
  intros Hp. destruct p as [|c t]; [congruence|].
  pose proof (skipn_DecodeRune_length (c :: t) Hp) as Hl.
  unfold replaceInvalid at 1. cbn [length replaceInvalidFuel].
  destruct (DecodeRune (c :: t)) as [r n]. cbn [snd] in *.
  f_equal. apply replaceInvalidFuel_fuel; simpl in Hl; lia.
Qed.

Lemma replaceInvalid_WF s : WF s -> replaceInvalid s = s.
Proof.
  induction 1 as [|p r n Hp Hd Hne Hwf IH]; [reflexivity|].
  rewrite (replaceInvalid_step p Hp), Hd. cbn [snd]. rewrite IH.
  destruct ((r =? RuneError) && (n =? 1)%nat) eqn:B.
  - apply andb_prop in B. destruct B as [B1 B2].
    apply N.eqb_eq in B1. apply Nat.eqb_eq in B2. subst. congruence.
  - apply firstn_skipn.
Qed.

Lemma DecodeRune_replacement q :
  DecodeRune (encode3 RuneError ++ q) = (RuneError, 3%nat).
Proof. reflexivity. Qed.

Lemma WF_replaceInvalid s : WF (replaceInvalid s).
Proof.
  induction s as [|p Hp IH] using rune_ind; [constructor|].
  rewrite (replaceInvalid_step p Hp).
  destruct (DecodeRune p) as [r n] eqn:Hd. cbn [snd] in IH.
  destruct ((r =? RuneError) && (n =? 1)%nat) eqn:B.
  - apply (WF_rune _ RuneError 3%nat);
      [discriminate|apply DecodeRune_replacement|congruence|exact IH].
  - assert (Hne : (r, n) <> (RuneError, 1%nat)).
    { intros H. inversion H; subst. discriminate. }
    destruct (DecodeRune_EncodeRune _ _ _ Hd Hp Hne) as (Hn & Hlen & _).
    apply (WF_rune _ r n).
    + destruct p; [congruence|]. destruct n; [lia|]. discriminate.
    + now apply DecodeRune_prefix.
    + exact Hne.
    + rewrite skipn_app, skipn_all2 by (rewrite length_firstn; lia).
      rewrite length_firstn.
      replace (n - Nat.min n (length p))%nat with 0%nat by lia.
      exact IH.
Qed.

Lemma WF_ValidFuel p : WF p -> forall fuel,
  (length p <= fuel)%nat -> ValidFuel fuel p = true.
Proof.
  induction 1 as [|p r n Hp Hd Hne Hwf IH]; intros fuel Hf.
  - now destruct fuel.
  - destruct (DecodeRune_EncodeRune _ _ _ Hd Hp Hne) as (Hn & Hlen & _).
    destruct fuel as [|fuel]; [destruct p; [congruence|simpl in Hf; lia]|].
    destruct p as [|c t]; [congruence|].
    cbn [ValidFuel]. rewrite Hd.
    destruct ((r =? RuneError) && (n =? 1)%nat) eqn:B.
    + apply andb_prop in B. destruct B as [B1 B2].
      apply N.eqb_eq in B1. apply Nat.eqb_eq in B2. subst. congruence.
    + apply IH. rewrite length_skipn. cbn [length] in *. lia.
Qed.

Lemma WF_Valid p : WF p -> Valid p = true.
Proof. intros H. now apply WF_ValidFuel. Qed.

Lemma unquote_ufffd E :
  unquote ((backslash :: bs "ufffd") ++ E)
  = option_map (app (EncodeRune RuneError)) (unquote E).
Proof.
  unfold unquote at 1. cbn [length app bs list_ascii_of_string].
  rewrite unquoteFuel_cons.
  change (Ascii.eqb backslash backslash) with true.
  change (Ascii.eqb "u" "u") with true. cbv iota.
  change (getu4 (backslash :: "u" :: "f" :: "f" :: "f" :: "d" :: E)%char)
    with (Some 65533).
  cbv iota zeta. change (IsSurrogate 65533) with false.
  cbv iota. cbn [skipn].
  rewrite unquoteFuel_enough by lia. reflexivity.
Qed.

(** Whatever the bytes of [s], [unquote] makes of the escaped [s] the
    string [s] with its invalid bytes replaced. *)
Lemma unquote_escapeString_any s :
  unquote (escapeString s) = Some (replaceInvalid s).
Proof.
  induction s as [|p Hp IH] using rune_ind; [reflexivity|].
  rewrite (escapeString_step p Hp), (replaceInvalid_step p Hp).
  destruct (DecodeRune p) as [r n] eqn:Hd. cbn [snd] in *.
  destruct ((r =? RuneError) && (n =? 1)%nat) eqn:B.
  - apply andb_prop in B. destruct B as [B1 B2].
    apply N.eqb_eq in B1. apply Nat.eqb_eq in B2. subst r n.
    assert (Hpiece : piece p = backslash :: bs "ufffd").
    { destruct p as [|c t]; [congruence|]. unfold piece. cbv zeta.
      destruct (N.ltb_spec (b2n c) RuneSelf) as [Hs|Hs].
      - exfalso. unfold DecodeRune in Hd. cbv zeta in Hd.
        destruct (N.ltb_spec (b2n c) RuneSelf); [|lia].
        inversion Hd as [Hr]. unfold RuneSelf, RuneError in *. lia.
      - rewrite Hd. reflexivity. }
    rewrite Hpiece, unquote_ufffd, IH. reflexivity.
  - assert (Hne : (r, n) <> (RuneError, 1%nat)).
    { intros H. inversion H; subst. discriminate. }
    rewrite (unquote_piece p r n) by assumption.
    rewrite IH. reflexivity.
Qed.

Lemma FromJson_marshalled l :
  representable (Timestamp l) ->
  FromJson (marshalled l) = (repaired l, None).
Proof.
  intros Ht.
  unfold FromJson, Unmarshal. rewrite checkValid_marshalled.
  cbn [storeMembers]. unfold storeMember at 1.
  change (unquote (bs "timestamp")) with (Some (bs "timestamp")).
  change (findField fieldNames (bs "timestamp")) with (Some 0%nat).
  cbv iota. cbn [literalOf app].
  rewrite (UnmarshalJSON_parsed _ _ (Timestamp l))
      by now apply parseRFC3339_appendFormatRFC3339.
  unfold storeMember at 1.
  change (unquote (bs "application")) with (Some (bs "application")).
  change (findField fieldNames (bs "application")) with (Some 1%nat).
  cbv iota. rewrite unquote_escapeString_any.
  unfold storeMember at 1.
  change (unquote (bs "level")) with (Some (bs "level")).
  change (findField fieldNames (bs "level")) with (Some 2%nat).
  cbv iota. rewrite unquote_escapeString_any.
  unfold storeMember at 1.
  change (unquote (bs "message")) with (Some (bs "message")).
  change (findField fieldNames (bs "message")) with (Some 3%nat).
  cbv iota. rewrite unquote_escapeString_any.
  reflexivity.
Qed.

(** X1: Whatever bytes the strings of an entry hold, an entry whose timestamp
    its text determines is serialized without error, and deserializing the
    bytes gives no error and the entry with every invalid byte of its
    strings replaced by U+FFFD; nothing else is changed, and strings of
    valid UTF-8 are not changed at all. *)
Theorem FromJson_ToJson_repaired (e : LogEntry) :
  representable (Timestamp e) ->
  (exists data,
     ToJson e = (Some data, None) /\ FromJson data = (repaired e, None)) /\
  (forall s, Valid s = true -> replaceInvalid s = s) /\
  (forall s, Valid (replaceInvalid s) = true).
Proof.
  intros Ht. split; [|split].
  - exists (marshalled e). split.
    + apply Marshal_ok. now apply representable_strict.
    + now apply FromJson_marshalled.
  - intros s Hs. now apply replaceInvalid_WF, Valid_WF.
  - intros s. apply WF_Valid, WF_replaceInvalid.
Qed.

Definition brokenEntry : LogEntry :=
  mkLogEntry (time.mkTime 2024 2 29 23 59 1 120000000 19800)
             (bs "userService") (bs "INFO")
             (bs "caf" ++ [n2b 233] ++ bs " ok").

Lemma brokenEntry_representable : representable (Timestamp brokenEntry).
Proof. unfold representable, time.wf, brokenEntry. cbn. lia. Defined.

Lemma FromJson_ToJson_repaired_witness :
  representable (Timestamp brokenEntry) /\
  (exists data,
     ToJson brokenEntry = (Some data, None) /\
     FromJson data = (repaired brokenEntry, None)) /\
  Message (repaired brokenEntry)
  = bs "caf" ++ [n2b 239; n2b 191; n2b 189] ++ bs " ok".
Proof.
  split; [exact brokenEntry_representable|]. split.
  - exact (proj1 (FromJson_ToJson_repaired brokenEntry
                    brokenEntry_representable)).
  - reflexivity.
Defined.

End CodecRepair.

(* ================================================================== *)
(** * The bytes of a serialized record *)

Module CodecOutput.
Import utf8 json models Utf8Facts JsonStringFacts TimeFacts CodecFacts.

(** A byte that is not below [0x20], so none of the control characters
    U+0000 to U+001F, and none of [<], [>] and [&]. *)
Definition wireByte (c : ascii) : Prop :=
  (32 <= b2n c)%N /\ b2n c <> 60%N /\ b2n c <> 62%N /\ b2n c <> 38%N.

Section TimeText.
Local Open Scope Z_scope.
Variable P : ascii -> Prop.
Hypothesis P_digit : forall d, 0 <= d <= 9 -> P (digit d).
Hypothesis P_mark : forall c, In c (bs "-T:.Z+") -> P c.

Lemma appendInt_Forall x w : Forall P (time.appendInt x w).
Proof.
  assert (Hm : P "-"%char) by (apply P_mark; cbn; tauto).
  assert (Hs : Forall P (if x <? 0 then bs "-" else [])).
  { destruct (x <? 0); each_byte assumption. }
  unfold time.appendInt. cbv zeta.
  pose proof (Z.abs_nonneg x) as Ha.
  destruct ((w =? 2)%nat && (Z.abs x <? 100)) eqn:B2.
  { apply andb_prop in B2. destruct B2 as [_ B2]. apply Z.ltb_lt in B2.
    apply Forall_app. split; [assumption|].
    each_byte ltac:(apply P_digit; nlia). }
  destruct ((w =? 4)%nat && (Z.abs x <? 10000)) eqn:B4.
  { apply andb_prop in B4. destruct B4 as [_ B4]. apply Z.ltb_lt in B4.
    apply Forall_app. split; [assumption|].
    each_byte ltac:(apply P_digit; nlia). }
  apply Forall_app. split; [assumption|].
  apply Forall_app. split.
  - apply Forall_forall. intros c Hc. apply repeat_spec in Hc. subst.
    apply (P_digit 0). lia.
  - eapply Forall_impl; [|apply digits_spec; assumption].
    intros c (d & Hdd & ->). now apply P_digit.
Qed.

Lemma appendFormatRFC3339_Forall t : Forall P (time.appendFormatRFC3339 t).
Proof.
  unfold time.appendFormatRFC3339, time.appendNano.
  repeat (apply Forall_app; split); try apply appendInt_Forall;
    try (each_byte ltac:(apply P_mark; cbn; tauto); fail).
  - destruct (time.Nanosecond t =? 0); [constructor|].
    apply Forall_app. split; [each_byte ltac:(apply P_mark; cbn; tauto)|].
    apply trimZeros_Forall, appendInt_Forall.
  - destruct (time.ZoneOffset t =? 0);
      [each_byte ltac:(apply P_mark; cbn; tauto)|].
    cbv zeta.
    repeat (apply Forall_app; split); try apply appendInt_Forall;
      try (each_byte ltac:(apply P_mark; cbn; tauto); fail).
    destruct (Z.quot (time.ZoneOffset t) 60 <? 0);
      each_byte ltac:(apply P_mark; cbn; tauto).
Qed.

End TimeText.

Local Open Scope N_scope.

Lemma wire_hex k : k < 16 -> wireByte (hex k).
Proof.
  intros H.
  assert (E : k = 0 \/ k = 1 \/ k = 2 \/ k = 3 \/ k = 4 \/ k = 5 \/ k = 6 \/ k = 7
              \/ k = 8 \/ k = 9 \/ k = 10 \/ k = 11 \/ k = 12 \/ k = 13 \/ k = 14
              \/ k = 15) by lia.
  repeat (destruct E as [->|E];
          [unfold wireByte; vm_compute; repeat split; discriminate|]).
  subst. unfold wireByte. vm_compute. repeat split; discriminate.
Qed.

Lemma wire_escapeByte b :
  b < 128 -> Forall wireByte (escapeByte b).
Proof.
  intros Hb. unfold escapeByte.
  assert (H4 : N.shiftr b 4 < 16).
  { rewrite N.shiftr_div_pow2. change (2 ^ 4) with 16.
    apply N.Div0.div_lt_upper_bound. lia. }
  assert (Hl : N.land b 15 < 16).
  { change 15 with (N.ones 4). rewrite N.land_ones.
    apply N.mod_lt. discriminate. }
  destruct (N.eqb_spec b 92) as [->|?];
    [cbn [orb]; each_byte ltac:(unfold wireByte; cbn; lia)|].
  destruct (N.eqb_spec b 34) as [->|?];
    [cbn [orb]; each_byte ltac:(unfold wireByte; cbn; lia)|].
  cbn [orb].
  repeat match goal with
  | |- Forall _ (if ?c then _ else _) => destruct c
  end;
  repeat (apply Forall_cons;
          [first [now apply wire_hex|unfold wireByte; cbn; lia]|]);
  apply Forall_nil.
Qed.

Lemma wire_piece p : p <> [] -> Forall wireByte (piece p).
Proof.
  intros Hp. destruct p as [|c t]; [congruence|].
  unfold piece. cbv zeta.
  destruct (N.ltb_spec (b2n c) RuneSelf) as [Hs|Hs].
  - unfold RuneSelf in Hs. destruct (htmlSafeSet (b2n c)) eqn:Hsafe.
    + unfold htmlSafeSet in Hsafe.
      repeat (apply andb_prop in Hsafe; destruct Hsafe as [Hsafe ?]).
      repeat match goal with
      | H : negb _ = true |- _ => apply negb_true_iff, N.eqb_neq in H
      end.
      apply N.leb_le in Hsafe.
      each_byte ltac:(unfold wireByte; lia).
    + now apply wire_escapeByte.
  - destruct (DecodeRune (c :: t)) as [r n] eqn:Hd.
    destruct ((r =? RuneError) && (n =? 1)%nat) eqn:B;
      [cbn [bs list_ascii_of_string];
       each_byte ltac:(unfold wireByte; vm_compute; repeat split; discriminate)
      |].
    assert (Hne : (r, n) <> (RuneError, 1%nat)).
    { intros H. inversion H; subst. discriminate. }
    destruct (DecodeRune_EncodeRune _ _ _ Hd Hp Hne)
      as (Hn & Hlen & Henc & Hone & _ & _ & Hhigh).
    destruct (N.eqb_spec r 8232) as [->|?];
      [cbn [orb bs list_ascii_of_string app];
       each_byte ltac:(unfold wireByte; vm_compute; repeat split; discriminate)
      |].
    destruct (N.eqb_spec r 8233) as [->|?];
      [cbn [orb bs list_ascii_of_string app];
       each_byte ltac:(unfold wireByte; vm_compute; repeat split; discriminate)
      |].
    cbn [orb].
    assert (Hn1 : n <> 1%nat).
    { intros ->. unfold DecodeRune in Hd. cbv zeta in Hd.
      destruct (N.ltb_spec (b2n c) RuneSelf); [lia|].
      destruct Hone as [Hone _]. specialize (Hone eq_refl).
      clear - Hd Hone Hne.
      destruct (first (b2n c)) as [[[? ?] ?]|];
      repeat match type of Hd with
      | (if ?b then _ else _) = _ => destruct b
      | (_, _) = (_, _) => inversion Hd; subst; clear Hd
      end; try congruence; try discriminate. }
    eapply Forall_impl; [|exact Hhigh].
    intros a [Ha|Ha]; [congruence|]. unfold wireByte. lia.
Qed.

Lemma wire_escapeString s : Forall wireByte (escapeString s).
Proof.
  induction s as [|p Hp IH] using rune_ind; [constructor|].
  rewrite (escapeString_step p Hp). apply Forall_app. split.
  - now apply wire_piece.
  - exact IH.
Qed.

Lemma wire_marshalled e : Forall wireByte (marshalled e).
Proof.
  assert (Ht : Forall wireByte (time.appendFormatRFC3339 (Timestamp e))).
  { apply appendFormatRFC3339_Forall.
    - intros d Hd. unfold wireByte. rewrite b2n_digit by assumption. lia.
    - intros c Hc. cbn in Hc.
      repeat (destruct Hc as [<-|Hc]; [unfold wireByte; cbn; lia|]).
      destruct Hc. }
  pose proof (wire_escapeString (Application e)) as Ha.
  pose proof (wire_escapeString (Level e)) as Hl.
  pose proof (wire_escapeString (Message e)) as Hm.
  unfold marshalled, object4, member.
  cbn [bs list_ascii_of_string app].
  repeat first
    [ assumption
    | apply Forall_nil
    | apply Forall_cons; [unfold wireByte; cbn; lia|]
    | apply Forall_app; split ].
Qed.

(** X2: Whatever the entry, the bytes [ToJson] returns hold no byte below
    [0x20], so none of the control characters U+0000 to U+001F and no line
    break, and none of [<], [>] and [&]: such bytes of the strings are
    written as escapes.  (The byte [0x7F] is written as it is.) *)
Theorem ToJson_wire_bytes (e : LogEntry) (data : bytes) :
  ToJson e = (Some data, None) -> Forall wireByte data.
Proof.
  intros H. unfold ToJson in H.
  destruct (time.strictRFC3339_ok (Timestamp e)) eqn:Hok.
  - rewrite (Marshal_ok _ Hok) in H. inversion H; subst.
    apply wire_marshalled.
  - rewrite (Marshal_error _ Hok) in H. discriminate.
Qed.

Definition multilineEntry : LogEntry :=
  mkLogEntry (time.mkTime 2024 1 1 0 0 0 0 0) (bs "AuthService") (bs "WARN")
             (bs "<b>line 1" ++ [newline] ++ bs "line 2 & more").

Lemma ToJson_wire_bytes_witness :
  exists data,
    ToJson multilineEntry = (Some data, None) /\ Forall wireByte data /\
    ~ In newline data.
Proof.
  assert (H : ToJson multilineEntry
              = (Some (marshalled multilineEntry), None)).
  { apply Marshal_ok. reflexivity. }
  exists (marshalled multilineEntry).
  pose proof (ToJson_wire_bytes _ _ H) as Hp.
  split; [exact H|]. split; [exact Hp|].
  intros Hin. rewrite Forall_forall in Hp. apply Hp in Hin.
  unfold wireByte in Hin. cbn in Hin. lia.
Defined.

(** The byte [0x7F] of a message, in the record as it is. *)
Lemma ToJson_DEL_example :
  ToJson (mkLogEntry (time.mkTime 2024 1 1 0 0 0 0 0) [] [] ["127"%char])
  = (Some (object4 (bs "timestamp") (bs "2024-01-01T00:00:00Z")
                   (bs "application") [] (bs "level") []
                   (bs "message") ["127"%char]),
     None).
Proof. vm_compute. reflexivity. Qed.

(** X3: Whatever the entry, the bytes [ToJson] returns are a JSON text: an
    object of exactly four members, named timestamp, application, level and
    message in this order, each of them a string. *)
Theorem ToJson_object (e : LogEntry) (data : bytes) :
  ToJson e = (Some data, None) ->
  checkValid data
  = Some (VObject
            [(bs "timestamp", VString (time.appendFormatRFC3339 (Timestamp e)));
             (bs "application", VString (escapeString (Application e)));
             (bs "level", VString (escapeString (Level e)));
             (bs "message", VString (escapeString (Message e)))]).
Proof.
  intros H. unfold ToJson in H.
  destruct (time.strictRFC3339_ok (Timestamp e)) eqn:Hok.
  - rewrite (Marshal_ok _ Hok) in H. inversion H; subst.
    apply checkValid_marshalled.
  - rewrite (Marshal_error _ Hok) in H. discriminate.
Qed.

Lemma ToJson_object_witness :
  exists data,
    ToJson multilineEntry = (Some data, None) /\
    checkValid data
    = Some (VObject
              [(bs "timestamp", VString (bs "2024-01-01T00:00:00Z"));
               (bs "application", VString (bs "AuthService"));
               (bs "level", VString (bs "WARN"));
               (bs "message",
                VString (backslash :: bs "u003cb" ++ backslash
                         :: bs "u003eline 1" ++ backslash :: bs "nline 2 "
                         ++ backslash :: bs "u0026 more"))]).
Proof.
  assert (H : ToJson multilineEntry
              = (Some (marshalled multilineEntry), None)).
  { apply Marshal_ok. reflexivity. }
  exists (marshalled multilineEntry). split; [exact H|].
  rewrite (ToJson_object _ _ H). reflexivity.
Defined.

End CodecOutput.

(* ================================================================== *)
(** * How [FromJson] reads the members of a record *)

Module DecoderFacts.
Import utf8 json models Utf8Facts JsonStringFacts JsonUnquoteFacts.
Import TimeFacts TimeRoundTrip CodecFacts CodecClaims CodecRepair.

(** *** The decoder member by member *)

Lemma storeMember_saved e saved key v e' :
  storeMember e saved key v = inl (e', None) -> saved = None.
Proof.
  unfold storeMember. intros H.
  destruct (unquote key); [|discriminate].
  destruct (findField fieldNames _) as [[|g]|].
  - destruct (time.UnmarshalJSON _ _) as [t [|]]; [|discriminate].
    now inversion H.
  - destruct v; try (destruct saved; cbn in H; now inversion H).
    destruct (unquote raw); [|discriminate]. now inversion H.
  - now inversion H.
Qed.

Lemma storeMembers_app ms1 : forall e saved e1 ms2,
  storeMembers e saved ms1 = (e1, None) ->
  saved = None /\ storeMembers e saved (ms1 ++ ms2) = storeMembers e1 None ms2.
Proof.
  induction ms1 as [|[k v] ms1 IH]; intros e saved e1 ms2 H.
  - cbn in H. inversion H; subst. now split.
  - cbn [storeMembers app] in *.
    destruct (storeMember e saved k v) as [[e' s']|[e' err]] eqn:E;
      [|discriminate].
    destruct (IH _ _ _ ms2 H) as [-> Hrest].
    split; [now apply (storeMember_saved _ _ _ _ _ E)|exact Hrest].
Qed.

Lemma storeMembers_prefix ms1 A B :
  (forall e saved, storeMembers e saved A = storeMembers e saved B) ->
  forall e saved,
    storeMembers e saved (ms1 ++ A) = storeMembers e saved (ms1 ++ B).
Proof.
  intros H. induction ms1 as [|[k v] ms1 IH]; intros e saved; [apply H|].
  cbn [storeMembers app].
  destruct (storeMember e saved k v) as [[e' s']|[e' err]];
    [apply IH|reflexivity].
Qed.

(** A key, as it stands in the input, that names no field. *)
Definition unknownKey (key : bytes) : Prop :=
  exists k, unquote key = Some k /\ findField fieldNames k = None.

(** X4: A record may hold members that name no field of [LogEntry]: [FromJson]
    passes over such a member, whatever its value, and returns what it
    returns for the record without it. *)
Theorem FromJson_unknown_key (data data' : bytes)
        (ms1 ms2 : list (bytes * value)) (key : bytes) (v : value) :
  checkValid data = Some (VObject (ms1 ++ (key, v) :: ms2)) ->
  checkValid data' = Some (VObject (ms1 ++ ms2)) ->
  unknownKey key ->
  FromJson data = FromJson data'.
Proof.
  intros Hd Hd' (k & Hk & Hf). unfold FromJson, Unmarshal.
  rewrite Hd, Hd'. apply storeMembers_prefix. intros e saved.
  cbn [storeMembers]. unfold storeMember. now rewrite Hk, Hf.
Qed.

Definition recordWithHost : bytes :=
  bs "{" ++ member (bs "timestamp") (bs "2024-01-01T00:00:00Z")
  ++ bs "," ++ quote :: bs "host" ++ quote :: bs ":[1,{}],"
  ++ member (bs "level") (bs "INFO") ++ bs "}".

Definition recordWithoutHost : bytes :=
  bs "{" ++ member (bs "timestamp") (bs "2024-01-01T00:00:00Z")
  ++ bs "," ++ member (bs "level") (bs "INFO") ++ bs "}".

Lemma FromJson_unknown_key_witness :
  FromJson recordWithHost = FromJson recordWithoutHost /\
  FromJson recordWithHost = (mkLogEntry newYear [] INFO [], None).
Proof.
  split; [|vm_compute; reflexivity].
  apply (FromJson_unknown_key recordWithHost recordWithoutHost
           [(bs "timestamp", VString (bs "2024-01-01T00:00:00Z"))]
           [(bs "level", VString (bs "INFO"))]
           (bs "host") (VArray [VNumber (bs "1"); VObject []])).
  - vm_compute. reflexivity.
  - vm_compute. reflexivity.
  - exists (bs "host"). split; vm_compute; reflexivity.
Defined.

(** *** Keys in another letter case *)

Local Open Scope N_scope.

(** An ASCII letter in upper case; any other byte as it is. *)
Definition upperASCII (c : ascii) : ascii :=
  if (97 <=? b2n c) && (b2n c <=? 122) then n2b (b2n c - 32) else c.

(** [k] spells [name] when the case of letters is disregarded. *)
Definition sameName (k name : bytes) : Prop :=
  map upperASCII k = map upperASCII name.

Lemma upperASCII_ascii c : b2n (upperASCII c) < 128 -> b2n c < 128.
Proof.
  unfold upperASCII.
  destruct ((97 <=? b2n c) && (b2n c <=? 122)) eqn:B; [|trivial].
  apply andb_prop in B. destruct B as [_ B]. apply N.leb_le in B. lia.
Qed.

Lemma sameName_ascii k : forall name,
  sameName k name -> Forall (fun c => b2n c < 128) name ->
  Forall (fun c => b2n c < 128) k.
Proof.
  unfold sameName.
  induction k as [|c k IH]; intros name H Hn; [constructor|].
  destruct name as [|d name]; [discriminate|].
  cbn [map] in H. inversion H as [[Hc Hk]].
  inversion Hn as [|? ? Hd Hn']; subst.
  constructor; [|now apply (IH name)].
  apply upperASCII_ascii. rewrite Hc.
  unfold upperASCII. destruct ((97 <=? b2n d) && (b2n d <=? 122)) eqn:B;
    [|assumption].
  rewrite b2n_n2b by lia. lia.
Qed.

Lemma foldNameFuel_ascii fuel : forall k,
  (length k <= fuel)%nat -> Forall (fun c => b2n c < 128) k ->
  foldNameFuel fuel k = map upperASCII k.
Proof.
  induction fuel as [|fuel IH]; intros k Hl Hk.
  - destruct k; [reflexivity|simpl in Hl; lia].
  - destruct k as [|c k]; [reflexivity|].
    inversion Hk as [|? ? Hc Hk']; subst.
    cbn [foldNameFuel map]. cbv zeta.
    destruct (N.ltb_spec (b2n c) RuneSelf) as [_|H];
      [|unfold RuneSelf in H; lia].
    unfold upperASCII. f_equal. apply IH; [simpl in Hl; lia|assumption].
Qed.

Lemma foldName_ascii k :
  Forall (fun c => b2n c < 128) k -> foldName k = map upperASCII k.
Proof. intros H. now apply foldNameFuel_ascii. Qed.

Lemma fieldNames_ascii name :
  In name fieldNames -> Forall (fun c => b2n c < 128) name.
Proof.
  intros H. cbn in H.
  repeat (destruct H as [<-|H];
          [cbn [bs list_ascii_of_string];
           repeat (apply Forall_cons; [cbn; lia|]); apply Forall_nil|]).
  destruct H.
Qed.

Lemma findField_sameName f name k :
  nth_error fieldNames f = Some name -> sameName k name ->
  findField fieldNames k = Some f.
Proof.
  intros Hn Hs.
  assert (Hin : In name fieldNames) by (eapply nth_error_In; eassumption).
  pose proof (sameName_ascii _ _ Hs (fieldNames_ascii _ Hin)) as Hk.
  pose proof (foldName_ascii k Hk) as Hfold.
  unfold sameName in Hs. rewrite Hs in Hfold.
  unfold findField, fieldNames. cbn [indexOf].
  rewrite Hfold. clear Hfold Hk Hin.
  destruct f as [|[|[|[|f]]]]; cbn in Hn;
    try (destruct f; discriminate);
    injection Hn as <-;
    repeat match goal with
    | |- context [bytes_eqb k ?n] =>
      let E := fresh "E" in
      destruct (bytes_eqb k n) eqn:E;
      [apply bytes_eqb_eq in E; rewrite E in Hs|]
    end;
    try reflexivity; vm_compute in Hs; discriminate.
Qed.

Lemma sameName_plain k : forall name,
  sameName k name -> Forall plain name -> Forall plain k.
Proof.
  unfold sameName.
  induction k as [|c k IH]; intros name H Hn; [constructor|].
  destruct name as [|d name]; [discriminate|].
  cbn [map] in H. inversion H as [[Hc Hk]].
  inversion Hn as [|? ? Hd Hn']; subst.
  constructor; [|now apply (IH name)].
  clear - Hc Hd. unfold plain in *. unfold upperASCII in Hc.
  destruct ((97 <=? b2n c) && (b2n c <=? 122)) eqn:Bc;
    destruct ((97 <=? b2n d) && (b2n d <=? 122)) eqn:Bd;
    repeat match goal with
    | H : _ && _ = true |- _ => apply andb_prop in H; destruct H
    | H : (_ <=? _) = true |- _ => apply N.leb_le in H
    end;
    try lia.
  - apply (f_equal b2n) in Hc. rewrite b2n_n2b in Hc by lia. lia.
  - subst. assumption.
Qed.

Lemma unquote_plain_all k : Forall plain k -> unquote k = Some k.
Proof.
  induction 1 as [|c k Hc Hk IH]; [reflexivity|].
  unfold plain in Hc. rewrite unquote_plain by lia. now rewrite IH.
Qed.

Lemma fieldNames_plain name : In name fieldNames -> Forall plain name.
Proof.
  intros H. cbn in H.
  repeat (destruct H as [<-|H]; [plain_bytes|]). destruct H.
Qed.

(** X5: The keys of a record are matched with the fields of [LogEntry] without
    regard to the case of their letters: the record [ToJson] writes for an
    entry is deserialized to the same entry when its four keys are spelled
    in any other letter case. *)
Theorem FromJson_key_case (e : LogEntry) (k1 k2 k3 k4 : bytes) :
  representable (Timestamp e) ->
  sameName k1 (bs "timestamp") -> sameName k2 (bs "application") ->
  sameName k3 (bs "level") -> sameName k4 (bs "message") ->
  FromJson (object4 k1 (time.appendFormatRFC3339 (Timestamp e))
                    k2 (escapeString (Application e))
                    k3 (escapeString (Level e))
                    k4 (escapeString (Message e)))
  = (repaired e, None).
Proof.
  intros Ht H1 H2 H3 H4.
  assert (P1 : Forall plain k1).
  { apply (sameName_plain _ _ H1), fieldNames_plain. cbn. tauto. }
  assert (P2 : Forall plain k2).
  { apply (sameName_plain _ _ H2), fieldNames_plain. cbn. tauto. }
  assert (P3 : Forall plain k3).
  { apply (sameName_plain _ _ H3), fieldNames_plain. cbn. tauto. }
  assert (P4 : Forall plain k4).
  { apply (sameName_plain _ _ H4), fieldNames_plain. cbn. tauto. }
  unfold FromJson, Unmarshal, checkValid.
  rewrite <- (app_nil_r (object4 _ _ _ _ _ _ _ _)) at 2.
  rewrite scanValue_object4;
    try (now apply strlit_plain); try apply strlit_escapeString;
    [|apply strlit_plain, appendFormatRFC3339_plain
     |unfold object4, member; cbn [length app]; lia].
  cbn [skipSpace storeMembers].
  unfold storeMember at 1.
  rewrite (unquote_plain_all k1 P1),
    (findField_sameName 0 (bs "timestamp") k1 eq_refl H1).
  cbv iota. cbn [literalOf app].
  rewrite (UnmarshalJSON_parsed _ _ (Timestamp e))
      by now apply parseRFC3339_appendFormatRFC3339.
  unfold storeMember at 1.
  rewrite (unquote_plain_all k2 P2),
    (findField_sameName 1 (bs "application") k2 eq_refl H2).
  cbv iota. rewrite unquote_escapeString_any.
  unfold storeMember at 1.
  rewrite (unquote_plain_all k3 P3),
    (findField_sameName 2 (bs "level") k3 eq_refl H3).
  cbv iota. rewrite unquote_escapeString_any.
  unfold storeMember at 1.
  rewrite (unquote_plain_all k4 P4),
    (findField_sameName 3 (bs "message") k4 eq_refl H4).
  cbv iota. rewrite unquote_escapeString_any.
  reflexivity.
Qed.

Lemma FromJson_key_case_witness :
  FromJson (object4 (bs "Timestamp")
                    (time.appendFormatRFC3339 (Timestamp sampleEntry))
                    (bs "APPLICATION") (escapeString (Application sampleEntry))
                    (bs "leVel") (escapeString (Level sampleEntry))
                    (bs "Message") (escapeString (Message sampleEntry)))
  = (repaired sampleEntry, None) /\
  repaired sampleEntry = sampleEntry.
Proof.
  split; [|reflexivity].
  apply (FromJson_key_case sampleEntry);
    [exact (proj1 sampleEntry_lossless)|reflexivity..].
Defined.

End DecoderFacts.

(* ================================================================== *)
(** * Members that repeat a key, and members of the wrong kind *)

Module DecoderOrder.
Import utf8 json models CodecFacts CodecClaims DecoderFacts.

(** The member stores a value into the field [f]: its key selects [f] and
    its value is a string the field takes. *)
Definition stores (f : nat) (m : bytes * value) : Prop :=
  exists k, unquote (fst m) = Some k /\ findField fieldNames k = Some f /\
  match f with
  | O => exists raw t, snd m = VString raw /\ time.parseRFC3339 raw = Some t
  | _ => exists raw s, snd m = VString raw /\ unquote raw = Some s
  end.

(** Two entries that differ in the field [f] at most. *)
Definition agreeExcept (f : nat) (e1 e2 : LogEntry) : Prop :=
  (f <> 0%nat -> Timestamp e1 = Timestamp e2) /\
  (f <> 1%nat -> Application e1 = Application e2) /\
  (f <> 2%nat -> Level e1 = Level e2) /\
  (f <> 3%nat -> Message e1 = Message e2).

Lemma agreeExcept_refl f e : agreeExcept f e e.
Proof. repeat split. Qed.

Lemma UnmarshalJSON_null t : time.UnmarshalJSON t (bs "null") = (t, true).
Proof. reflexivity. Qed.

(** What an accepted member does to the entry does not depend on the error
    saved, and it saves none. *)
Lemma storeMember_accepted m :
  accepted m ->
  forall e, exists e',
    forall saved, storeMember e saved (fst m) (snd m) = inl (e', saved).
Proof.
  intros (k & Hk & Hm) e. unfold storeMember. rewrite Hk.
  destruct (findField fieldNames k) as [[|g]|].
  - destruct Hm as [->|(raw & t & -> & Hp)].
    + exists e. intros saved. cbn [literalOf].
      rewrite UnmarshalJSON_null. now destruct e.
    + eexists. intros saved. cbn [literalOf app].
      rewrite (UnmarshalJSON_parsed _ _ _ Hp). reflexivity.
  - destruct Hm as [->|(raw & s & -> & Hu)].
    + now exists e.
    + eexists. intros saved. rewrite Hu. reflexivity.
  - now exists e.
Qed.

Lemma storeMembers_app_accepted ms1 : forall e saved rest,
  Forall accepted ms1 ->
  storeMembers e saved (ms1 ++ rest)
  = storeMembers (fst (storeMembers e None ms1)) saved rest.
Proof.
  induction ms1 as [|[k v] ms1 IH]; intros e saved rest H; [reflexivity|].
  inversion H as [|? ? Hm Hrest]; subst.
  destruct (storeMember_accepted _ Hm e) as [e' He']. cbn [fst snd] in He'.
  cbn [app storeMembers]. rewrite !He'. now apply IH.
Qed.

Lemma storeMembers_all_accepted ms e saved :
  Forall accepted ms ->
  storeMembers e saved ms = (fst (storeMembers e None ms), saved).
Proof.
  intros H. rewrite <- (app_nil_r ms) at 1.
  now rewrite storeMembers_app_accepted.
Qed.

(** An accepted member changes no field but the one its key selects. *)
Lemma storeMember_agree f e1 e2 saved m :
  accepted m -> agreeExcept f e1 e2 ->
  exists e1' e2',
    storeMember e1 saved (fst m) (snd m) = inl (e1', saved) /\
    storeMember e2 saved (fst m) (snd m) = inl (e2', saved) /\
    agreeExcept f e1' e2' /\
    (stores f m -> e1' = e2').
Proof.
  intros (k & Hk & Hm) (H0 & H1 & H2 & H3). unfold storeMember. rewrite Hk.
  assert (Hst : stores f m -> findField fieldNames k = Some f /\ snd m <> VNull).
  { intros (k' & Hk' & Hf & Hv). rewrite Hk in Hk'. inversion Hk'; subst k'.
    split; [assumption|].
    destruct f; destruct Hv as (raw & ? & -> & _); discriminate. }
  destruct (findField fieldNames k) as [g|] eqn:Hg.
  2:{ exists e1, e2. repeat split; try assumption.
      intros Hs. apply Hst in Hs. destruct Hs; discriminate. }
  pose proof (findField_lt _ _ Hg) as Hg4.
  destruct g as [|g].
  - destruct Hm as [Hv|(raw & t & Hv & Hp)]; rewrite Hv.
    + cbn [literalOf]. rewrite !UnmarshalJSON_null.
      exists (mkLogEntry (Timestamp e1) (Application e1) (Level e1) (Message e1)),
             (mkLogEntry (Timestamp e2) (Application e2) (Level e2) (Message e2)).
      repeat split; try assumption.
      intros Hs. apply Hst in Hs. destruct Hs; congruence.
    + cbn [literalOf app]. rewrite !(UnmarshalJSON_parsed _ _ _ Hp).
      eexists _, _. split; [reflexivity|]. split; [reflexivity|].
      split; [repeat split; assumption|].
      intros Hs. apply Hst in Hs. destruct Hs as [Hs _].
      inversion Hs; subst f.
      rewrite H1, H2, H3 by discriminate. reflexivity.
  - destruct Hm as [Hv|(raw & s & Hv & Hu)]; rewrite Hv.
    + exists e1, e2. repeat split; try assumption.
      intros Hs. apply Hst in Hs. destruct Hs; congruence.
    + rewrite Hu. eexists _, _. split; [reflexivity|]. split; [reflexivity|].
      destruct g as [|[|[|g]]]; try lia; cbn [setString];
        (split; [repeat split; cbn; assumption|]);
        intros Hs; apply Hst in Hs; destruct Hs as [Hs _];
        inversion Hs; subst f;
        [rewrite H0, H2, H3 by discriminate
        |rewrite H0, H1, H3 by discriminate
        |rewrite H0, H1, H2 by discriminate]; reflexivity.
Qed.

Lemma storeMembers_agree f m' ms3 ms2 : forall e1 e2 saved,
  Forall accepted ms2 -> accepted m' -> stores f m' -> agreeExcept f e1 e2 ->
  storeMembers e1 saved (ms2 ++ m' :: ms3)
  = storeMembers e2 saved (ms2 ++ m' :: ms3).
Proof.
  induction ms2 as [|[k v] ms2 IH]; intros e1 e2 saved H2 Ha Hs Hag.
  - destruct (storeMember_agree f e1 e2 saved m' Ha Hag)
      as (e1' & e2' & E1 & E2 & _ & Heq).
    destruct m' as [k' v']. cbn [fst snd] in *.
    cbn [app storeMembers]. rewrite E1, E2, (Heq Hs). reflexivity.
  - inversion H2 as [|? ? Hm Hrest]; subst.
    destruct (storeMember_agree f e1 e2 saved (k, v) Hm Hag)
      as (e1' & e2' & E1 & E2 & Hag' & _).
    cbn [fst snd] in *. cbn [app storeMembers]. rewrite E1, E2.
    now apply IH.
Qed.

Lemma storeMember_only f e saved m :
  accepted m -> selects f (fst m) ->
  exists e1,
    storeMember e saved (fst m) (snd m) = inl (e1, saved) /\
    agreeExcept f e1 e.
Proof.
  intros (k & Hk & Hm) (k' & Hk' & Hf).
  rewrite Hk in Hk'. inversion Hk'; subst k'.
  unfold storeMember. rewrite Hk, Hf. rewrite Hf in Hm.
  pose proof (findField_lt _ _ Hf) as Hf4.
  destruct f as [|f].
  - destruct Hm as [Hv|(raw & t & Hv & Hp)]; rewrite Hv.
    + cbn [literalOf]. rewrite UnmarshalJSON_null.
      eexists. split; [reflexivity|]. repeat split.
    + cbn [literalOf app]. rewrite (UnmarshalJSON_parsed _ _ _ Hp).
      eexists. split; [reflexivity|]. repeat split; intros; congruence.
  - destruct Hm as [Hv|(raw & s & Hv & Hu)]; rewrite Hv.
    + exists e. split; [reflexivity|apply agreeExcept_refl].
    + rewrite Hu. eexists. split; [reflexivity|].
      destruct f as [|[|[|f]]]; try lia; cbn [setString];
        repeat split; cbn; intros; congruence.
Qed.

Lemma stores_accepted f m : stores f m -> accepted m.
Proof.
  intros (k & Hk & Hf & Hv). exists k. split; [exact Hk|]. rewrite Hf.
  destruct f; right; exact Hv.
Qed.

(** X6: When two members of a record select the same field, the later one
    decides: the record is deserialized as it is without the earlier one,
    provided the members in between are ones the decoder accepts and the
    later member holds a value the field takes. *)
Theorem FromJson_duplicate_key (data data' : bytes)
        (ms1 ms2 ms3 : list (bytes * value)) (m m' : bytes * value)
        (f : nat) :
  checkValid data = Some (VObject (ms1 ++ m :: ms2 ++ m' :: ms3)) ->
  checkValid data' = Some (VObject (ms1 ++ ms2 ++ m' :: ms3)) ->
  accepted m -> selects f (fst m) ->
  Forall accepted ms2 ->
  stores f m' ->
  FromJson data = FromJson data'.
Proof.
  intros Hd Hd' Ha Hsel H2 Hst.
  pose proof (stores_accepted f m' Hst) as Ha'.
  unfold FromJson, Unmarshal.
  rewrite Hd, Hd'. apply storeMembers_prefix. intros e saved.
  destruct (storeMember_only f e saved m Ha Hsel) as (e1 & E1 & Hag).
  destruct m as [k v]. cbn [fst snd] in *.
  cbn [storeMembers]. rewrite E1.
  now apply (storeMembers_agree f).
Qed.

Definition recordTwoLevels : bytes :=
  bs "{" ++ member (bs "level") (bs "INFO") ++ bs ","
  ++ member (bs "message") (bs "ok") ++ bs ","
  ++ member (bs "level") (bs "ERROR") ++ bs "}".

Definition recordLastLevel : bytes :=
  bs "{" ++ member (bs "message") (bs "ok") ++ bs ","
  ++ member (bs "level") (bs "ERROR") ++ bs "}".

Lemma accepted_string k f raw s :
  unquote k = Some k -> findField fieldNames k = Some (S f) ->
  unquote raw = Some s -> accepted (k, VString raw).
Proof.
  intros Hk Hf Hu. exists k. cbn [fst snd]. split; [assumption|].
  rewrite Hf. right. now exists raw, s.
Qed.

Lemma FromJson_duplicate_key_witness :
  FromJson recordTwoLevels = FromJson recordLastLevel /\
  FromJson recordTwoLevels
  = (mkLogEntry time.zero [] ERROR (bs "ok"), None).
Proof.
  split; [|vm_compute; reflexivity].
  apply (FromJson_duplicate_key recordTwoLevels recordLastLevel
           [] [(bs "message", VString (bs "ok"))] []
           (bs "level", VString (bs "INFO"))
           (bs "level", VString (bs "ERROR")) 2).
  - vm_compute. reflexivity.
  - vm_compute. reflexivity.
  - apply (accepted_string _ 1 _ (bs "INFO")); vm_compute; reflexivity.
  - exists (bs "level"). split; vm_compute; reflexivity.
  - apply Forall_cons; [|apply Forall_nil].
    apply (accepted_string _ 2 _ (bs "ok")); vm_compute; reflexivity.
  - exists (bs "level"). cbn [fst snd].
    split; [vm_compute; reflexivity|]. split; [vm_compute; reflexivity|].
    exists (bs "ERROR"), (bs "ERROR"). split; [reflexivity|].
    vm_compute. reflexivity.
Defined.

(** *** Members of the wrong kind *)

(** The member's key selects the string field [f], and its value is
    neither [null] nor a string. *)
Definition mismatched (f : nat) (m : bytes * value) : Prop :=
  exists k, unquote (fst m) = Some k /\
            findField fieldNames k = Some (S f) /\
  match snd m with
  | VNull | VString _ => False
  | _ => True
  end.

(** The member's key selects the timestamp, and its value is one
    [Time.UnmarshalJSON] returns an error on, whatever the receiver. *)
Definition badTimestamp (m : bytes * value) : Prop :=
  exists k, unquote (fst m) = Some k /\
            findField fieldNames k = Some 0%nat /\
  forall t, snd (time.UnmarshalJSON t (literalOf (snd m))) = false.

(** X7: A member that holds a number, a boolean, an array or an object where
    the field is a string is reported, as an [UnmarshalTypeError] that names
    the kind of the value and the field, but it does not stop the decoding:
    the entry returned with the error is the one the record gives without
    that member. *)
Theorem FromJson_type_mismatch (data data' : bytes)
        (ms1 ms2 : list (bytes * value)) (m : bytes * value) (f : nat) :
  checkValid data = Some (VObject (ms1 ++ m :: ms2)) ->
  checkValid data' = Some (VObject (ms1 ++ ms2)) ->
  Forall accepted ms1 -> Forall accepted ms2 -> mismatched f m ->
  FromJson data' = (fst (FromJson data'), None) /\
  FromJson data
  = (fst (FromJson data'),
     Some (UnmarshalTypeError (kindOf (snd m)) (nth (S f) fieldNames []))).
Proof.
  intros Hd Hd' H1 H2 (k & Hk & Hf & Hv). unfold FromJson, Unmarshal.
  rewrite Hd, Hd'.
  assert (H12 : Forall accepted (ms1 ++ ms2)).
  { apply Forall_app. now split. }
  split; [now apply storeMembers_all_accepted|].
  rewrite (storeMembers_app_accepted ms1 _ _ (m :: ms2) H1).
  rewrite (storeMembers_app_accepted ms1 _ None ms2 H1).
  destruct m as [key v]. cbn [fst snd] in *.
  cbn [storeMembers]. unfold storeMember. rewrite Hk, Hf.
  destruct v; try contradiction; cbn [saveError];
    rewrite (storeMembers_all_accepted ms2 _ (Some _)) by assumption;
    rewrite (storeMembers_all_accepted ms2 _ None) by assumption;
    reflexivity.
Qed.

Definition recordNumberLevel : bytes :=
  bs "{" ++ member (bs "application") (bs "AuthService") ++ bs ","
  ++ quote :: bs "level" ++ quote :: bs ":3,"
  ++ member (bs "message") (bs "ok") ++ bs "}".

Definition recordNoLevel : bytes :=
  bs "{" ++ member (bs "application") (bs "AuthService") ++ bs ","
  ++ member (bs "message") (bs "ok") ++ bs "}".

Lemma FromJson_type_mismatch_witness :
  FromJson recordNumberLevel
  = (mkLogEntry time.zero (bs "AuthService") [] (bs "ok"),
     Some (UnmarshalTypeError (bs "number") (bs "level"))).
Proof.
  destruct (FromJson_type_mismatch recordNumberLevel recordNoLevel
              [(bs "application", VString (bs "AuthService"))]
              [(bs "message", VString (bs "ok"))]
              (bs "level", VNumber (bs "3")) 1) as [_ H].
  - vm_compute. reflexivity.
  - vm_compute. reflexivity.
  - apply Forall_cons; [|apply Forall_nil].
    apply (accepted_string _ 0 _ (bs "AuthService")); vm_compute; reflexivity.
  - apply Forall_cons; [|apply Forall_nil].
    apply (accepted_string _ 2 _ (bs "ok")); vm_compute; reflexivity.
  - exists (bs "level"). cbn [fst snd].
    split; [vm_compute; reflexivity|]. split; [vm_compute; reflexivity|].
    exact I.
  - rewrite H. vm_compute. reflexivity.
Defined.

(** X8: A record whose timestamp is no time, neither for the strict reader
    nor for [time.Parse], is an error of [FromJson], the one
    [Time.UnmarshalJSON] returns, whatever follows the timestamp in the
    record, the members before it being ones the decoder accepts; and the
    consumer writes that error for the record, not a line. *)
Theorem FromJson_bad_timestamp (data : bytes)
        (ms1 ms2 : list (bytes * value)) (m : bytes * value) :
  checkValid data = Some (VObject (ms1 ++ m :: ms2)) ->
  Forall accepted ms1 ->
  badTimestamp m ->
  snd (FromJson data) = Some TimeUnmarshalError /\
  forall partition offset,
    consumer.proccessLogMessage
      (sarama.ConsumerMessage.mk data partition offset)
    = [PrintlnErr (bs "Error parsing the log message ")
                  (JsonError TimeUnmarshalError)].
Proof.
  intros Hd H1 (k & Hk & Hf & Hv).
  assert (He : snd (FromJson data) = Some TimeUnmarshalError).
  { unfold FromJson, Unmarshal. rewrite Hd.
    rewrite (storeMembers_app_accepted ms1 _ _ (m :: ms2) H1).
    destruct m as [key v]. cbn [fst snd] in *.
    cbn [storeMembers]. unfold storeMember. rewrite Hk, Hf.
    specialize (Hv (Timestamp (fst (storeMembers zeroLogEntry None ms1)))).
    destruct (time.UnmarshalJSON _ (literalOf v)) as [t ok].
    cbn [snd] in Hv. subst ok. reflexivity. }
  split; [exact He|].
  intros partition offset. unfold consumer.proccessLogMessage.
  cbn [sarama.ConsumerMessage.Value].
  destruct (FromJson data) as [e err]. cbn [snd] in He. subst err.
  reflexivity.
Qed.

Definition recordBadTime : bytes :=
  bs "{" ++ member (bs "application") (bs "AuthService") ++ bs ","
  ++ member (bs "timestamp") (bs "yesterday") ++ bs ","
  ++ member (bs "message") (bs "ok") ++ bs "}".

Lemma FromJson_bad_timestamp_witness :
  snd (FromJson recordBadTime) = Some TimeUnmarshalError /\
  consumer.proccessLogMessage (sarama.ConsumerMessage.mk recordBadTime 0 3)
  = [PrintlnErr (bs "Error parsing the log message ")
                (JsonError TimeUnmarshalError)].
Proof.
  destruct (FromJson_bad_timestamp recordBadTime
              [(bs "application", VString (bs "AuthService"))]
              [(bs "message", VString (bs "ok"))]
              (bs "timestamp", VString (bs "yesterday"))) as [He Hc].
  - vm_compute. reflexivity.
  - apply Forall_cons; [|apply Forall_nil].
    apply (accepted_string _ 0 _ (bs "AuthService")); vm_compute; reflexivity.
  - exists (bs "timestamp"). cbn [fst snd].
    split; [vm_compute; reflexivity|]. split; [vm_compute; reflexivity|].
    intros t. vm_compute. reflexivity.
  - split; [exact He|apply Hc].
Defined.

End DecoderOrder.

(* ================================================================== *)
(** * The errors of [FromJson] *)

Module DecoderErrors.
Import utf8 json models Utf8Facts JsonUnquoteFacts CodecFacts ScannerFacts.
Local Open Scope N_scope.

(** The content of a string as the scanner lets it pass: escapes of one
    character, escapes of four hexadecimal digits, and bytes that are no
    quote, no backslash and no control character. *)
Inductive Lit : bytes -> Prop :=
| Lit_nil : Lit []
| Lit_esc e raw :
    isEscapeChar e = true -> Lit raw -> Lit (backslash :: e :: raw)
| Lit_u h1 h2 h3 h4 raw :
    isHex h1 && isHex h2 && isHex h3 && isHex h4 = true -> Lit raw ->
    Lit (backslash :: "u"%char :: h1 :: h2 :: h3 :: h4 :: raw)
| Lit_byte c raw :
    Ascii.eqb c quote = false -> Ascii.eqb c backslash = false ->
    (b2n c <? 0x20) = false -> Lit raw -> Lit (c :: raw).

Lemma scanString_Lit n : forall s raw rest,
  (length s <= n)%nat -> scanString s = Some (raw, rest) -> Lit raw.
Proof.
  induction n as [|n IH]; intros s raw rest Hl H.
  - destruct s; [discriminate|simpl in Hl; lia].
  - destruct s as [|c r]; [discriminate|]. cbn [scanString] in H.
    simpl in Hl.
    destruct (Ascii.eqb c quote) eqn:Eq; [inversion H; constructor|].
    destruct (Ascii.eqb c backslash) eqn:Eb.
    + apply Ascii.eqb_eq in Eb. subst c.
      destruct r as [|e r1]; [discriminate|]. simpl in Hl.
      destruct (isEscapeChar e) eqn:Ee.
      * destruct (scanString r1) as [[raw' rest']|] eqn:E1; [|discriminate].
        pose proof (IH r1 raw' rest' ltac:(lia) E1).
        inversion H; subst. now apply Lit_esc.
      * destruct (Ascii.eqb e "u") eqn:Eu; [|discriminate].
        apply Ascii.eqb_eq in Eu. subst e.
        destruct r1 as [|h1 [|h2 [|h3 [|h4 r2]]]]; try discriminate.
        simpl in Hl.
        destruct (isHex h1 && isHex h2 && isHex h3 && isHex h4) eqn:Eh;
          [|discriminate].
        destruct (scanString r2) as [[raw' rest']|] eqn:E2; [|discriminate].
        pose proof (IH r2 raw' rest' ltac:(lia) E2).
        inversion H; subst. now apply Lit_u.
    + destruct (b2n c <? 32) eqn:Ec; [discriminate|].
      destruct (scanString r) as [[raw' rest']|] eqn:E1; [|discriminate].
      pose proof (IH r raw' rest' ltac:(lia) E1).
      inversion H; subst. now apply Lit_byte.
Qed.

Lemma isEscapeChar_unescapeChar e :
  isEscapeChar e = true ->
  Ascii.eqb e "u" = false /\ exists d, unescapeChar e = Some d.
Proof.
  unfold isEscapeChar. intros H.
  repeat (apply orb_prop in H; destruct H as [H|H]);
    apply Ascii.eqb_eq in H; subst e;
    (split; [reflexivity|eexists; reflexivity]).
Qed.

Lemma isHex_hexval h : isHex h = true -> exists v, hexval h = Some v.
Proof.
  unfold isHex, hexval. intros H.
  destruct (isDigit h); [eexists; reflexivity|].
  destruct ((97 <=? b2n h) && (b2n h <=? 102)); [eexists; reflexivity|].
  destruct ((65 <=? b2n h) && (b2n h <=? 70)); [eexists; reflexivity|].
  discriminate.
Qed.

Lemma Lit_not_escape_u : isEscapeChar "u" = false.
Proof. reflexivity. Qed.

(** After a [\uXXXX] that [getu4] reads, the content goes on as a
    content. *)
Lemma Lit_getu4 raw r :
  Lit raw -> getu4 raw = Some r -> Lit (skipn 6 raw).
Proof.
  intros HL Hg. unfold getu4 in Hg.
  destruct raw as [|c [|u [|h1 [|h2 [|h3 [|h4 raw']]]]]]; try discriminate.
  destruct (Ascii.eqb c backslash) eqn:Ec; [|discriminate].
  destruct (Ascii.eqb u "u") eqn:Eu; [|discriminate].
  apply Ascii.eqb_eq in Ec, Eu. subst c u. cbn [skipn].
  inversion HL as [|e raw0 He HL'|? ? ? ? raw0 Hh HL'|c raw0 _ Hb _ _]; subst.
  - rewrite Lit_not_escape_u in He. discriminate.
  - exact HL'.
  - rewrite Ascii.eqb_refl in Hb. discriminate.
Qed.

Lemma Lit_skip_high n : forall p,
  Lit p -> Forall (fun c => 128 <= b2n c) (firstn n p) -> Lit (skipn n p).
Proof.
  induction n as [|n IH]; intros p HL Hh; [exact HL|].
  destruct p as [|c t]; [exact HL|].
  cbn [firstn skipn] in *. inversion Hh as [|? ? Hc Ht]; subst.
  apply IH; [|exact Ht].
  inversion HL as [|e raw0 He HL'|? ? ? ? raw0 Hx HL'|? raw0 _ _ _ HL'];
    subst; try exact HL';
    change (b2n backslash) with 92 in Hc; lia.
Qed.

Lemma Lit_unquote n : forall raw,
  (length raw <= n)%nat -> Lit raw -> exists u, unquote raw = Some u.
Proof.
  induction n as [|n IH]; intros raw Hl HL.
  - destruct raw; [now exists []|simpl in Hl; lia].
  - destruct raw as [|c r]; [now exists []|].
    unfold unquote. cbn [length]. rewrite unquoteFuel_cons.
    simpl in Hl.
    inversion HL as [|e raw0 He HL'|h1 h2 h3 h4 raw0 Hh HL'
                     |c0 raw0 Hq Hb Hc HL']; subst.
    + rewrite Ascii.eqb_refl.
      destruct (isEscapeChar_unescapeChar e He) as [Eu [d Hd]].
      rewrite Eu, Hd.
      destruct (IH raw0 ltac:(simpl in Hl; lia) HL') as [u Hu].
      rewrite unquoteFuel_enough by (simpl; lia). rewrite Hu.
      now eexists.
    + rewrite Ascii.eqb_refl.
      change (Ascii.eqb "u" "u") with true. cbv iota.
      rewrite getu4_cons.
      repeat (apply andb_prop in Hh; destruct Hh as [Hh ?]).
      destruct (isHex_hexval h1) as [v1 ->]; [assumption|].
      destruct (isHex_hexval h2) as [v2 ->]; [assumption|].
      destruct (isHex_hexval h3) as [v3 ->]; [assumption|].
      destruct (isHex_hexval h4) as [v4 ->]; [assumption|].
      cbv zeta.
      change (skipn 6 (backslash :: "u"%char :: h1 :: h2 :: h3 :: h4 :: raw0))
        with raw0.
      simpl in Hl.
      destruct (IH raw0 ltac:(lia) HL') as [u Hu].
      destruct (IsSurrogate _).
      * destruct (negb _) eqn:Edec.
        -- destruct (getu4 raw0) as [r2|] eqn:Eg.
           ++ pose proof (Lit_getu4 _ _ HL' Eg) as HL6.
              destruct (IH (skipn 6 raw0)
                          ltac:(rewrite length_skipn; lia) HL6) as [u6 Hu6].
              rewrite unquoteFuel_enough
                by (rewrite length_skipn; cbn [length]; lia).
              rewrite Hu6. now eexists.
           ++ cbn in Edec. discriminate.
        -- rewrite unquoteFuel_enough by (cbn [length]; lia).
           rewrite Hu. now eexists.
      * rewrite unquoteFuel_enough by (cbn [length]; lia).
        rewrite Hu. now eexists.
    + rewrite Hb, Hq, Hc. cbn [orb].
      destruct (N.ltb_spec (b2n c) RuneSelf) as [Hs|Hs].
      * destruct (IH r ltac:(lia) HL') as [u Hu].
        rewrite unquoteFuel_enough by lia. rewrite Hu. now eexists.
      * destruct (DecodeRune (c :: r)) as [rr size] eqn:Hd.
        pose proof (DecodeRune_size (c :: r) ltac:(discriminate)) as Hsz.
        rewrite Hd in Hsz. cbn [snd length] in Hsz.
        assert (HL6 : Lit (skipn size (c :: r))).
        { destruct (N.eq_dec rr RuneError) as [Er|Er];
            [destruct (Nat.eq_dec size 1) as [E1|E1]|].
          - subst size. exact HL'.
          - apply Lit_skip_high; [exact HL|].
            assert (Hne : (rr, size) <> (RuneError, 1%nat)) by congruence.
            destruct (DecodeRune_EncodeRune _ _ _ Hd ltac:(discriminate) Hne)
              as (_ & _ & _ & _ & _ & _ & Hhigh).
            eapply Forall_impl; [|exact Hhigh].
            intros a [Ha|Ha]; [contradiction|exact Ha].
          - assert (Hne : (rr, size) <> (RuneError, 1%nat)) by congruence.
            destruct (DecodeRune_EncodeRune _ _ _ Hd ltac:(discriminate) Hne)
              as (_ & _ & _ & Hone & _ & _ & Hhigh).
            destruct (Nat.eq_dec size 1) as [E1|E1]; [subst size; exact HL'|].
            apply Lit_skip_high; [exact HL|].
            eapply Forall_impl; [|exact Hhigh].
            intros a [Ha|Ha]; [contradiction|exact Ha]. }
        destruct (IH (skipn size (c :: r))
                    ltac:(rewrite length_skipn; cbn [length]; lia) HL6)
          as [u Hu].
        rewrite unquoteFuel_enough
          by (rewrite length_skipn; cbn [length]; lia).
        rewrite Hu. now eexists.
Qed.

(** A member as the scanner delimits it: its key is the content of a
    string, and so is its value when it is a string. *)
Definition scanned (m : bytes * value) : Prop :=
  Lit (fst m) /\ forall raw, snd m = VString raw -> Lit raw.

Lemma scanValue_Lit f d s raw r :
  scanValue f d s = Some (VString raw, r) -> Lit raw.
Proof.
  destruct f as [|f]; [discriminate|]. rewrite scanValue_eq.
  intros H. unfold scanLiteral in H.
  repeat match type of H with
  | context [match ?x with _ => _ end] =>
    let E := fresh "E" in destruct x eqn:E; try discriminate
  end.
  inversion H; subst.
  eapply scanString_Lit; [apply Nat.le_refl|eassumption].
Qed.

Lemma scanMembers_scanned f : forall d s ms r,
  scanMembers f d s = Some (ms, r) -> Forall scanned ms.
Proof.
  induction f as [|f IH]; intros d s ms r H; [discriminate|].
  rewrite scanMembers_eq in H.
  destruct (skipSpace s) as [|q t]; [discriminate|].
  destruct (negb (Ascii.eqb q quote)); [discriminate|].
  destruct (scanString t) as [[key r1]|] eqn:Ek; [|discriminate].
  destruct (skipSpace r1) as [|colon r2]; [discriminate|].
  destruct (negb (Ascii.eqb colon ":")); [discriminate|].
  destruct (scanValue f d r2) as [[v r3]|] eqn:Ev; [|discriminate].
  assert (Hm : scanned (key, v)).
  { split; cbn [fst snd].
    - eapply scanString_Lit; [apply Nat.le_refl|eassumption].
    - intros raw ->. eapply scanValue_Lit; eassumption. }
  destruct (skipSpace r3) as [|c r4]; [discriminate|].
  destruct (Ascii.eqb c ",").
  - destruct (scanMembers f d r4) as [[ms' rest]|] eqn:Em; [|discriminate].
    inversion H; subst. constructor; [exact Hm|]. eapply IH; eassumption.
  - destruct (Ascii.eqb c "}"); [|discriminate].
    inversion H; subst. constructor; [exact Hm|constructor].
Qed.

Lemma checkValid_scanned data ms :
  checkValid data = Some (VObject ms) -> Forall scanned ms.
Proof.
  unfold checkValid. intros H.
  destruct (scanValue _ 0 data) as [[v rest]|] eqn:E; [|discriminate].
  destruct (skipSpace rest); [|discriminate]. inversion H; subst v.
  destruct (2 * length data + 2)%nat as [|f]; [discriminate|].
  rewrite scanValue_eq in E.
  destruct (skipSpace data) as [|c r]; [discriminate|].
  unfold scanLiteral in E.
  repeat match type of E with
  | context [match ?x with _ => _ end] =>
    let E' := fresh "E" in destruct x eqn:E'; try discriminate
  end; inversion E; subst; try constructor.
  eapply scanMembers_scanned; eassumption.
Qed.

(** The errors [FromJson] returns to its caller. *)
Definition reported (err : option error) : Prop :=
  match err with
  | None | Some (UnmarshalTypeError _ _) | Some TimeUnmarshalError => True
  | _ => False
  end.

Lemma storeMember_reported e saved m :
  scanned m -> reported saved ->
  match storeMember e saved (fst m) (snd m) with
  | inl (_, saved') => reported saved'
  | inr (_, err) => err = TimeUnmarshalError
  end.
Proof.
  intros [Hk Hv] Hs. unfold storeMember.
  destruct (Lit_unquote _ _ (Nat.le_refl _) Hk) as [k ->].
  destruct (findField fieldNames k) as [[|g]|]; [| |exact Hs].
  - destruct (time.UnmarshalJSON _ _) as [t [|]]; [exact Hs|reflexivity].
  - destruct (snd m) as [| | |raw| |] eqn:Ev;
      try (destruct saved; [exact Hs|exact I]); try exact Hs.
    destruct (Lit_unquote _ _ (Nat.le_refl _) (Hv raw eq_refl)) as [s ->].
    exact Hs.
Qed.

Lemma storeMembers_reported ms : forall e saved,
  Forall scanned ms -> reported saved ->
  reported (snd (storeMembers e saved ms)).
Proof.
  induction ms as [|[k v] ms IH]; intros e saved H Hs; [exact Hs|].
  inversion H as [|? ? Hm Hrest]; subst.
  pose proof (storeMember_reported e saved (k, v) Hm Hs) as Hstep.
  cbn [fst snd] in Hstep. cbn [storeMembers].
  destruct (storeMember e saved k v) as [[e' s']|[e' err]].
  - now apply IH.
  - subst err. exact I.
Qed.

(** X9: [FromJson] never runs into the panic of the decoder, which a key or a
    string that cannot be unquoted would set off: what the scanner has let
    pass can always be unquoted.  Its error is a syntax error exactly when
    the input is no JSON text, and then the entry returned is the zero
    entry; every other error is a value of the wrong kind or a timestamp
    that does not parse. *)
Theorem FromJson_errors (data : bytes) :
  match snd (FromJson data) with
  | Some SyntaxError =>
    checkValid data = None /\ fst (FromJson data) = zeroLogEntry
  | None | Some (UnmarshalTypeError _ _) | Some TimeUnmarshalError =>
    checkValid data <> None
  | Some PhaseError | Some MarshalerError => False
  end.
Proof.
  unfold FromJson, Unmarshal.
  destruct (checkValid data) as [v|] eqn:Hv; [|now split].
  destruct v as [| | | | |ms]; cbn [snd]; try discriminate.
  pose proof (storeMembers_reported ms zeroLogEntry None
                (checkValid_scanned _ _ Hv) I) as H.
  destruct (snd (storeMembers zeroLogEntry None ms)) as [[]|];
    try contradiction; discriminate.
Qed.

(** *** Space around a record *)

Lemma skipSpace_spaces ws s :
  Forall (fun c => isSpace c = true) ws -> skipSpace (ws ++ s) = skipSpace s.
Proof.
  induction 1 as [|c ws Hc _ IH]; [reflexivity|].
  cbn [app skipSpace]. now rewrite Hc.
Qed.

Lemma skipSpace_nil_app rest ws :
  skipSpace rest = [] -> Forall (fun c => isSpace c = true) ws ->
  skipSpace (rest ++ ws) = [].
Proof.
  induction rest as [|c rest IH]; intros H Hws.
  - cbn [app]. rewrite <- (app_nil_r ws). now rewrite skipSpace_spaces.
  - cbn [app skipSpace] in *. destruct (isSpace c); [now apply IH|].
    discriminate.
Qed.

Lemma scanValue_spaces f d ws s :
  Forall (fun c => isSpace c = true) ws ->
  scanValue f d (ws ++ s) = scanValue f d s.
Proof.
  intros H. destruct f as [|f]; [reflexivity|].
  now rewrite !scanValue_eq, skipSpace_spaces.
Qed.

Lemma checkValid_spaces data ms ws1 ws2 :
  checkValid data = Some (VObject ms) ->
  Forall (fun c => isSpace c = true) ws1 ->
  Forall (fun c => isSpace c = true) ws2 ->
  checkValid (ws1 ++ data ++ ws2) = Some (VObject ms).
Proof.
  unfold checkValid. intros H H1 H2.
  destruct (scanValue _ 0 data) as [[v rest]|] eqn:E; [|discriminate].
  destruct (skipSpace rest) eqn:Er; [|discriminate].
  inversion H; subst v.
  pose proof (proj1 (scan_stable _) _ _ _ _ ws2 E (or_introl eq_refl)) as E2.
  rewrite scanValue_spaces by assumption.
  assert (Hf : (2 * length data + 2 <= 2 * length (ws1 ++ data ++ ws2) + 2)%nat)
    by (rewrite !length_app; lia).
  rewrite (scanValue_fuel _ _ _ _ _ _ Hf E2).
  now rewrite skipSpace_nil_app.
Qed.

(** X10: Space, tabs and line ends before and after a record do not matter:
    [FromJson] returns for the record with them what it returns for the
    record alone. *)
Theorem FromJson_spaces (data ws1 ws2 : bytes)
        (ms : list (bytes * value)) :
  checkValid data = Some (VObject ms) ->
  Forall (fun c => isSpace c = true) ws1 ->
  Forall (fun c => isSpace c = true) ws2 ->
  FromJson (ws1 ++ data ++ ws2) = FromJson data.
Proof.
  intros H H1 H2. unfold FromJson, Unmarshal.
  now rewrite (checkValid_spaces data ms ws1 ws2 H H1 H2), H.
Qed.

Lemma FromJson_spaces_witness :
  FromJson (bs "  " ++ marshalled CodecClaims.sampleEntry ++ [newline])
  = (CodecClaims.sampleEntry, None).
Proof.
  rewrite (FromJson_spaces _ _ _ _
             (checkValid_marshalled CodecClaims.sampleEntry)).
  - apply roundtrip_general;
      [exact (proj1 CodecClaims.sampleEntry_lossless)
      |apply Valid_WF; reflexivity..].
  - repeat constructor.
  - repeat constructor.
Defined.

End DecoderErrors.

(* ================================================================== *)
(** * What [unquote] returns is valid UTF-8 *)

Module UnquoteValid.
Import utf8 json Utf8Facts JsonUnquoteFacts.
Local Open Scope N_scope.

Ltac decode_bytes :=
  unfold DecodeRune; cbv zeta; cbn [nth length];
  rewrite !b2n_n2b by lia;
  unfold first, RuneSelf, locb, hicb;
  repeat match goal with
  | |- context [ ?a <? ?b ] => destruct (N.ltb_spec a b); try lia
  | |- context [ ?a =? ?b ] => destruct (N.eqb_spec a b); try lia
  end; reflexivity.

Lemma DecodeRune_2 p0 b1 q :
  0xC2 <= p0 < 0xE0 -> 0x80 <= b1 <= 0xBF ->
  snd (DecodeRune (n2b p0 :: n2b b1 :: q)) = 2%nat.
Proof. intros. decode_bytes. Qed.

Lemma DecodeRune_3 p0 b1 b2 q :
  0xE0 <= p0 < 0xF0 -> 0x80 <= b1 <= 0xBF -> 0x80 <= b2 <= 0xBF ->
  (p0 = 0xE0 -> 0xA0 <= b1) -> (p0 = 0xED -> b1 <= 0x9F) ->
  snd (DecodeRune (n2b p0 :: n2b b1 :: n2b b2 :: q)) = 3%nat.
Proof. intros. decode_bytes. Qed.

Lemma DecodeRune_4 p0 b1 b2 b3 q :
  0xF0 <= p0 <= 0xF4 -> 0x80 <= b1 <= 0xBF -> 0x80 <= b2 <= 0xBF ->
  0x80 <= b3 <= 0xBF ->
  (p0 = 0xF0 -> 0x90 <= b1) -> (p0 = 0xF4 -> b1 <= 0x8F) ->
  snd (DecodeRune (n2b p0 :: n2b b1 :: n2b b2 :: n2b b3 :: q)) = 4%nat.
Proof. intros. decode_bytes. Qed.

Lemma shiftr_div r k : N.shiftr r k = r / 2 ^ k.
Proof. apply N.shiftr_div_pow2. Qed.

(** The bytes [EncodeRune] writes are an encoding [DecodeRune] accepts,
    of the width written. *)
Lemma EncodeRune_width r q :
  EncodeRune r <> [] /\
  snd (DecodeRune (EncodeRune r ++ q)) = length (EncodeRune r) /\
  DecodeRune (EncodeRune r ++ q) <> (RuneError, 1%nat).
Proof.
  assert (Hw : forall p n,
            snd (DecodeRune p) = n -> (n = 1%nat -> fst (DecodeRune p) < 128) ->
            DecodeRune p <> (RuneError, 1%nat)).
  { intros p n Hs H1 E. rewrite E in Hs, H1. cbn in Hs, H1.
    specialize (H1 (eq_sym Hs)). unfold RuneError in H1. lia. }
  unfold EncodeRune, rune1Max, rune2Max, rune3Max, MaxRune, surrogateMin,
    surrogateMax.
  destruct (N.leb_spec r 127) as [H1|H1].
  { split; [discriminate|].
    assert (E : DecodeRune ([n2b r] ++ q) = (r, 1%nat)).
    { unfold DecodeRune. cbv zeta. cbn [app]. rewrite b2n_n2b by lia.
      unfold RuneSelf. destruct (N.ltb_spec r 128); [reflexivity|lia]. }
    rewrite E. split; [reflexivity|].
    intros E'. inversion E'. unfold RuneError in *. lia. }
  destruct (N.leb_spec r 2047) as [H2|H2].
  { split; [discriminate|].
    rewrite shiftr_div, land_maskx. change (2 ^ 6) with 64.
    assert (Ha : r / 64 < 32) by nlia.
    assert (Hb : r mod 64 < 64) by nlia.
    rewrite lor_t2, lor_tx by assumption. cbn [app length].
    assert (E : snd (DecodeRune (n2b (192 + r / 64)
                                 :: n2b (128 + r mod 64) :: q)) = 2%nat).
    { apply DecodeRune_2; nlia. }
    split; [exact E|]. apply (Hw _ _ E). discriminate. }
  destruct ((1114111 <? r) || ((55296 <=? r) && (r <=? 57343))) eqn:Hbad.
  { split; [discriminate|]. split; [reflexivity|]. discriminate. }
  apply orb_false_elim in Hbad. destruct Hbad as [Hmax Hsur].
  apply N.ltb_ge in Hmax.
  assert (Hs : r < 55296 \/ 57343 < r).
  { apply andb_false_elim in Hsur. destruct Hsur as [Hs|Hs].
    - apply N.leb_gt in Hs. now left.
    - apply N.leb_gt in Hs. now right. }
  destruct (N.leb_spec r 65535) as [H3|H3].
  { split; [discriminate|]. unfold encode3.
    rewrite !shiftr_div, !land_maskx.
    change (2 ^ 6) with 64. change (2 ^ 12) with 4096.
    assert (Ha : r / 4096 < 16) by nlia.
    assert (Hb : (r / 64) mod 64 < 64) by nlia.
    assert (Hc : r mod 64 < 64) by nlia.
    rewrite lor_t3, !lor_tx by assumption. cbn [app length].
    assert (E : snd (DecodeRune (n2b (224 + r / 4096)
                                 :: n2b (128 + (r / 64) mod 64)
                                 :: n2b (128 + r mod 64) :: q)) = 3%nat).
    { apply DecodeRune_3; try nlia. }
    split; [exact E|]. apply (Hw _ _ E). discriminate. }
  split; [discriminate|].
  rewrite !shiftr_div, !land_maskx.
  change (2 ^ 6) with 64. change (2 ^ 12) with 4096.
  change (2 ^ 18) with 262144.
  assert (Ha : r / 262144 < 8) by nlia.
  assert (Hb : (r / 4096) mod 64 < 64) by nlia.
  assert (Hc : (r / 64) mod 64 < 64) by nlia.
  assert (Hd : r mod 64 < 64) by nlia.
  rewrite lor_t4, !lor_tx by assumption. cbn [app length].
  assert (E : snd (DecodeRune (n2b (240 + r / 262144)
                               :: n2b (128 + (r / 4096) mod 64)
                               :: n2b (128 + (r / 64) mod 64)
                               :: n2b (128 + r mod 64) :: q)) = 4%nat).
  { apply DecodeRune_4; try nlia. }
  split; [exact E|]. apply (Hw _ _ E). discriminate.
Qed.

Lemma WF_EncodeRune r u : WF u -> WF (EncodeRune r ++ u).
Proof.
  intros Hu. destruct (EncodeRune_width r u) as (Hne & Hn & Herr).
  destruct (DecodeRune (EncodeRune r ++ u)) as [r' n] eqn:Hd.
  cbn [snd] in Hn. subst n.
  apply (WF_rune _ r' (length (EncodeRune r))).
  - destruct (EncodeRune r); [congruence|discriminate].
  - exact Hd.
  - exact Herr.
  - rewrite skipn_app, skipn_all, Nat.sub_diag. exact Hu.
Qed.

Lemma WF_ascii c u : b2n c < 128 -> WF u -> WF (c :: u).
Proof.
  intros Hc Hu. apply (WF_rune _ (b2n c) 1%nat).
  - discriminate.
  - unfold DecodeRune. cbv zeta. unfold RuneSelf.
    destruct (N.ltb_spec (b2n c) 128); [reflexivity|lia].
  - intros E. inversion E. unfold RuneError in *. lia.
  - exact Hu.
Qed.

Lemma unescapeChar_ascii e d : unescapeChar e = Some d -> b2n d < 128.
Proof.
  unfold unescapeChar.
  destruct (_ || _) eqn:B.
  - intros H. inversion H; subst d.
    repeat (apply orb_prop in B; destruct B as [B|B]);
      apply Ascii.eqb_eq in B; subst e; cbn; lia.
  - repeat match goal with
    | |- context [Ascii.eqb e ?x] => destruct (Ascii.eqb e x)
    end; intros H; inversion H; subst; cbn; lia.
Qed.

Lemma option_map_Some {A B} (f : A -> B) o u :
  option_map f o = Some u -> exists v, o = Some v /\ u = f v.
Proof. destruct o as [v|]; [|discriminate]. intros H. exists v. now inversion H. Qed.

(** Whatever the content of a JSON string, what [unquote] makes of it is
    valid UTF-8. *)
Lemma unquote_WF n : forall raw u,
  (length raw <= n)%nat -> unquote raw = Some u -> WF u.
Proof.
  induction n as [|n IH]; intros raw u Hl H.
  - destruct raw; [|simpl in Hl; lia]. inversion H. constructor.
  - destruct raw as [|c r]; [inversion H; constructor|].
    unfold unquote in H. cbn [length] in H, Hl.
    rewrite unquoteFuel_cons in H.
    assert (Hrec : forall X v,
              (length X <= length r)%nat ->
              unquoteFuel (length r) X = Some v -> WF v).
    { intros X v HX Hv. rewrite unquoteFuel_enough in Hv by assumption.
      apply (IH X v); [lia|assumption]. }
    assert (H6 : (length (skipn 6 (c :: r)) <= length r)%nat).
    { rewrite length_skipn. cbn [length]. lia. }
    assert (H66 : (length (skipn 6 (skipn 6 (c :: r))) <= length r)%nat).
    { rewrite !length_skipn. cbn [length]. lia. }
    destruct (Ascii.eqb c backslash).
    + destruct r as [|e r1]; [discriminate|].
      destruct (Ascii.eqb e "u").
      * destruct (getu4 _) as [rr|]; [|discriminate]. cbv zeta in H.
        destruct (IsSurrogate rr);
          [destruct (negb _)|];
          apply option_map_Some in H; destruct H as (v & Ev & ->);
          apply WF_EncodeRune; (eapply Hrec; [|exact Ev]); assumption.
      * destruct (unescapeChar e) as [d|] eqn:Ed; [|discriminate].
        apply option_map_Some in H. destruct H as (v & Ev & ->).
        apply WF_ascii.
        -- eapply unescapeChar_ascii; eassumption.
        -- eapply Hrec; [|eassumption]. cbn [length]. lia.
    + destruct (_ || _); [discriminate|].
      destruct (N.ltb_spec (b2n c) RuneSelf) as [Hs|Hs].
      * apply option_map_Some in H. destruct H as (v & Ev & ->).
        apply WF_ascii; [exact Hs|].
        eapply Hrec; [|eassumption]. lia.
      * pose proof (DecodeRune_size (c :: r) ltac:(discriminate)) as Hsz.
        destruct (DecodeRune (c :: r)) as [rr size]. cbn [snd length] in Hsz.
        apply option_map_Some in H. destruct H as (v & Ev & ->).
        apply WF_EncodeRune.
        eapply Hrec; [|eassumption].
        rewrite length_skipn. cbn [length]. lia.
Qed.

End UnquoteValid.

(* ================================================================== *)
(** * What [FromJson] returns can be serialized *)

Module DecodedEntries.
Import utf8 json models Utf8Facts TimeFacts TimeRoundTrip CodecFacts.
Import UnquoteValid.
Local Open Scope Z_scope.

Lemma parseUint_range s lo hi x :
  time.parseUint s lo hi = Some x -> lo <= x <= hi.
Proof.
  unfold time.parseUint. destruct (time.atoiFrom 0 s) as [v|]; [|discriminate].
  destruct (Z.ltb_spec v lo) as [?|Hlo]; [discriminate|].
  destruct (Z.ltb_spec hi v) as [?|Hhi]; [discriminate|].
  cbn [orb]. intros E. inversion E; subst. lia.
Qed.

Lemma atoiFrom_bound s : forall acc v,
  0 <= acc -> time.atoiFrom acc s = Some v ->
  acc * 10 ^ Z.of_nat (length s) <= v
  < (acc + 1) * 10 ^ Z.of_nat (length s).
Proof.
  induction s as [|c s IH]; intros acc v Ha H.
  - cbn in H. inversion H; subst. cbn. lia.
  - cbn [time.atoiFrom] in H. destruct (isDigit c) eqn:Hc; [|discriminate].
    unfold isDigit in Hc. apply andb_prop in Hc. destruct Hc as [H1 H2].
    apply N.leb_le in H1, H2.
    apply IH in H; [|lia].
    cbn [length]. rewrite Nat2Z.inj_succ, Z.pow_succ_r by lia.
    pose proof (Z.pow_pos_nonneg 10 (Z.of_nat (length s))
                  ltac:(lia) ltac:(lia)) as Hp.
    nia.
Qed.

Lemma parseNanoseconds_range ds :
  0 <= time.parseNanoseconds ds < 1000000000.
Proof.
  unfold time.parseNanoseconds. cbv zeta.
  destruct (time.atoiFrom 0 (firstn 9 ds)) as [ns|] eqn:E; [|lia].
  apply atoiFrom_bound in E; [|lia].
  assert (Hl : (length (firstn 9 ds) <= 9)%nat)
    by (rewrite length_firstn; lia).
  remember (length (firstn 9 ds)) as k eqn:Ek. clear Ek.
  assert (Hk : 10 ^ Z.of_nat k * 10 ^ Z.of_nat (9 - k) = 1000000000).
  { rewrite <- Z.pow_add_r by lia.
    replace (Z.of_nat k + Z.of_nat (9 - k)) with 9 by lia. reflexivity. }
  pose proof (Z.pow_pos_nonneg 10 (Z.of_nat k) ltac:(lia) ltac:(lia)).
  pose proof (Z.pow_pos_nonneg 10 (Z.of_nat (9 - k)) ltac:(lia) ltac:(lia)).
  nia.
Qed.

(** Whatever [parseRFC3339] accepts is a time of the calendar, with a year
    of four digits and a zone of whole minutes within a day. *)
Lemma parseRFC3339_representable s t :
  time.parseRFC3339 s = Some t -> representable t.
Proof.
  unfold time.parseRFC3339. intros H.
  destruct (length s <? 19)%nat; [discriminate|].
  destruct (time.parseUint (time.slice s 0 4) 0 9999) as [year|] eqn:Ey;
    [apply parseUint_range in Ey|discriminate].
  destruct (time.parseUint (time.slice s 5 7) 1 12) as [month|] eqn:Emo;
    [apply parseUint_range in Emo|discriminate].
  destruct (time.parseUint (time.slice s 8 10) 1 _) as [day|] eqn:Ed;
    [apply parseUint_range in Ed|discriminate].
  destruct (time.parseUint (time.slice s 11 13) 0 23) as [hour|] eqn:Eh;
    [apply parseUint_range in Eh|discriminate].
  destruct (time.parseUint (time.slice s 14 16) 0 59) as [min|] eqn:Emi;
    [apply parseUint_range in Emi|discriminate].
  destruct (time.parseUint (time.slice s 17 19) 0 59) as [sec|] eqn:Es;
    [apply parseUint_range in Es|discriminate].
  destruct (negb _); [discriminate|]. cbv zeta in H.
  match type of H with
  | (let '(_, _) := ?X in _) = _ => destruct X as [nsec s2] eqn:Ep
  end.
  assert (Hns : 0 <= nsec < 1000000000).
  { destruct (skipn 19 s) as [|dot [|d r]];
      try (inversion Ep; subst; lia).
    destruct (Ascii.eqb dot "." && isDigit d);
      [|inversion Ep; subst; lia].
    destruct (spanDigits _) as [ds rest]. inversion Ep; subst.
    apply parseNanoseconds_range. }
  destruct ((length s2 =? 1)%nat && time.byteAt s2 0 "Z").
  { inversion H; subst t. unfold representable, time.wf. cbn. lia. }
  destruct (negb (length s2 =? 6)%nat); [discriminate|].
  destruct (time.parseUint (time.slice s2 1 3) 0 23) as [hr|] eqn:Ehr;
    [apply parseUint_range in Ehr|discriminate].
  destruct (time.parseUint (time.slice s2 4 6) 0 59) as [mm|] eqn:Emm;
    [apply parseUint_range in Emm|discriminate].
  destruct (negb _); [discriminate|].
  inversion H; subst t. unfold representable, time.wf. cbn.
  destruct (time.byteAt s2 0 "-"); repeat split; try lia; nlia.
Qed.

(** The times the decoder stores: a time of the calendar, with a year of
    four digits and a zone of whole minutes that [time.Parse] lets reach
    twenty-five hours. *)
Definition decodable (t : time.Time) : Prop :=
  time.wf t /\ 0 <= time.Year t <= 9999 /\
  time.ZoneOffset t mod 60 = 0 /\ -90000 <= time.ZoneOffset t <= 90000.

Lemma representable_decodable t : representable t -> decodable t.
Proof. intros (Hw & Hy & Hm & Hr). repeat split; try apply Hw; lia. Qed.

Lemma decodable_representable t :
  decodable t -> Z.abs (time.ZoneOffset t) < 86400 -> representable t.
Proof. intros (Hw & Hy & Hm & Hr) Ha. repeat split; try apply Hw; lia. Qed.

Lemma digit_value c : isDigit c = true -> 0 <= Z.of_N (b2n c) - 48 <= 9.
Proof.
  unfold isDigit. intros H. apply andb_prop in H. destruct H as [H1 H2].
  apply N.leb_le in H1, H2. lia.
Qed.

Lemma getnum_range s fixed x r :
  time.getnum s fixed = Some (x, r) -> 0 <= x <= 99.
Proof.
  unfold time.getnum. intros H.
  destruct s as [|c0 s]; [discriminate|].
  destruct (isDigit c0) eqn:E0; [|discriminate].
  apply digit_value in E0.
  destruct s as [|c1 s].
  - destruct fixed; [discriminate|]. inversion H; subst. lia.
  - destruct (isDigit c1) eqn:E1.
    + apply digit_value in E1. inversion H; subst. lia.
    + destruct fixed; [discriminate|]. inversion H; subst. lia.
Qed.

(** Whatever [Parse] accepts on the layout of RFC 3339 is a time of the
    calendar as well; its zone may be a day from UTC, or more. *)
Lemma Parse_RFC3339_decodable s t :
  time.Parse_RFC3339 s = Some t -> decodable t.
Proof.
  unfold time.Parse_RFC3339. intros H.
  destruct (length s <? 4)%nat eqn:El; [discriminate|].
  destruct (time.atoiFrom 0 (firstn 4 s)) as [year|] eqn:Ey; [|discriminate].
  apply atoiFrom_bound in Ey; [|lia].
  assert (Hy : 0 <= year <= 9999).
  { assert (Hl : (length (firstn 4 s) <= 4)%nat)
      by (rewrite length_firstn; lia).
    pose proof (Z.pow_le_mono_r 10 (Z.of_nat (length (firstn 4 s))) 4
                  ltac:(lia) ltac:(lia)) as Hp.
    change (10 ^ 4) with 10000 in Hp.
    pose proof (Z.pow_pos_nonneg 10 (Z.of_nat (length (firstn 4 s)))
                  ltac:(lia) ltac:(lia)).
    lia. }
  clear Ey.
  destruct (time.skip _ "-") as [v1|]; [|discriminate].
  destruct (time.getnum v1 true) as [[month v2]|] eqn:Emo; [|discriminate].
  destruct (Z.leb_spec month 0); [discriminate|].
  destruct (Z.ltb_spec 12 month); [discriminate|]. cbn [orb] in H.
  destruct (time.skip v2 "-") as [v3|]; [|discriminate].
  destruct (time.getnum v3 true) as [[day v4]|] eqn:Ed; [|discriminate].
  destruct (time.skip v4 "T") as [v5|]; [|discriminate].
  destruct (time.getnum v5 false) as [[hour v6]|] eqn:Eh; [|discriminate].
  destruct (Z.ltb_spec hour 0); [discriminate|].
  destruct (Z.leb_spec 24 hour); [discriminate|]. cbn [orb] in H.
  destruct (time.skip v6 ":") as [v7|]; [|discriminate].
  destruct (time.getnum v7 true) as [[min v8]|] eqn:Emi; [|discriminate].
  destruct (Z.ltb_spec min 0); [discriminate|].
  destruct (Z.leb_spec 60 min); [discriminate|]. cbn [orb] in H.
  destruct (time.skip v8 ":") as [v9|]; [|discriminate].
  destruct (time.getnum v9 true) as [[sec v10]|] eqn:Es; [|discriminate].
  destruct (Z.ltb_spec sec 0); [discriminate|].
  destruct (Z.leb_spec 60 sec); [discriminate|]. cbn [orb] in H.
  match type of H with
  | (let '(_, _) := ?X in _) = _ => destruct X as [nsec v11] eqn:Ep
  end.
  assert (Hns : 0 <= nsec < 1000000000).
  { destruct v10 as [|sep [|d r]];
      try (inversion Ep; subst; lia).
    destruct (time.commaOrPeriod sep && isDigit d);
      [|inversion Ep; subst; lia].
    destruct (spanDigits _) as [ds rest]. inversion Ep; subst.
    apply parseNanoseconds_range. }
  match type of H with
  | match ?X with _ => _ end = _ =>
    destruct X as [[zoneOffset v12]|] eqn:Ez; [|discriminate]
  end.
  assert (Hz : zoneOffset mod 60 = 0 /\ -90000 <= zoneOffset <= 90000).
  { destruct (time.byteAt v11 0 "Z"); [inversion Ez; subst; split; [reflexivity|lia]|].
    destruct (length v11 <? 6)%nat; [discriminate|].
    destruct (negb _); [discriminate|].
    destruct (time.getnum (time.slice v11 1 3) true) as [[hr w1]|] eqn:Ehr;
      [|discriminate].
    destruct (time.getnum (time.slice v11 4 6) true) as [[mm w2]|] eqn:Emm;
      [|discriminate].
    apply getnum_range in Ehr, Emm.
    destruct (Z.ltb_spec 24 hr); [discriminate|].
    destruct (Z.ltb_spec 60 mm); [discriminate|]. cbn [orb] in Ez.
    cbv zeta in Ez.
    destruct (time.byteAt v11 0 "+"); [inversion Ez; subst; split; nlia|].
    destruct (time.byteAt v11 0 "-"); [inversion Ez; subst; split; nlia|].
    discriminate. }
  clear Ez Ep.
  destruct (negb _); [discriminate|].
  destruct (Z.ltb_spec day 1); [discriminate|].
  destruct (Z.ltb_spec (time.daysIn month year) day); [discriminate|].
  cbn [orb] in H. inversion H; subst t.
  unfold decodable, time.wf. cbn. lia.
Qed.

Lemma zero_decodable : decodable time.zero.
Proof. unfold decodable, time.wf. cbn. lia. Qed.

Lemma UnmarshalJSON_decodable t0 data :
  decodable t0 -> decodable (fst (time.UnmarshalJSON t0 data)).
Proof.
  unfold time.UnmarshalJSON. intros H0.
  destruct (bytes_eqb data (bs "null")); [exact H0|].
  destruct data as [|q rest]; [exact H0|].
  destruct (_ && _); [|exact H0].
  unfold time.parseStrictRFC3339.
  destruct (time.parseRFC3339 _) as [t|] eqn:E.
  - apply representable_decodable. eapply parseRFC3339_representable.
    exact E.
  - destruct (time.Parse_RFC3339 _) as [t|] eqn:E'.
    + eapply Parse_RFC3339_decodable. exact E'.
    + exact zero_decodable.
Qed.

Lemma storeMember_decodable e saved key v :
  decodable (Timestamp e) ->
  decodable (Timestamp (match storeMember e saved key v with
                        | inl (e', _) => e'
                        | inr (e', _) => e'
                        end)).
Proof.
  intros H. unfold storeMember.
  destruct (unquote key); [|exact H].
  destruct (findField fieldNames _) as [[|g]|]; [| |exact H].
  - pose proof (UnmarshalJSON_decodable (Timestamp e) (literalOf v) H) as Hd.
    destruct (time.UnmarshalJSON _ _) as [t [|]]; exact Hd.
  - destruct v; try exact H.
    destruct (unquote raw); [|exact H].
    destruct g as [|[|g]]; exact H.
Qed.

Lemma storeMembers_decodable ms : forall e saved,
  decodable (Timestamp e) ->
  decodable (Timestamp (fst (storeMembers e saved ms))).
Proof.
  induction ms as [|[k v] ms IH]; intros e saved H; [exact H|].
  cbn [storeMembers].
  pose proof (storeMember_decodable e saved k v H) as Hstep.
  destruct (storeMember e saved k v) as [[e' s']|[e' err]].
  - now apply IH.
  - exact Hstep.
Qed.

Lemma FromJson_decodable data : decodable (Timestamp (fst (FromJson data))).
Proof.
  unfold FromJson, Unmarshal.
  destruct (checkValid data) as [[| | | | |ms]|];
    try exact zero_decodable.
  apply storeMembers_decodable, zero_decodable.
Qed.

(** The strings of an entry are valid UTF-8. *)
Definition validStrings (e : LogEntry) : Prop :=
  WF (Application e) /\ WF (Level e) /\ WF (Message e).

Lemma storeMember_validStrings e saved key v :
  validStrings e ->
  validStrings (match storeMember e saved key v with
                | inl (e', _) => e'
                | inr (e', _) => e'
                end).
Proof.
  intros H. unfold storeMember.
  destruct (unquote key); [|exact H].
  destruct (findField fieldNames _) as [[|g]|]; [| |exact H].
  - destruct (time.UnmarshalJSON _ _) as [t [|]]; exact H.
  - destruct v; try exact H.
    destruct (unquote raw) as [s|] eqn:Es; [|exact H].
    apply (unquote_WF _ _ _ (Nat.le_refl _)) in Es.
    destruct H as (Ha & Hl & Hm).
    destruct g as [|[|g]]; repeat split; assumption.
Qed.

Lemma storeMembers_validStrings ms : forall e saved,
  validStrings e -> validStrings (fst (storeMembers e saved ms)).
Proof.
  induction ms as [|[k v] ms IH]; intros e saved H; [exact H|].
  cbn [storeMembers].
  pose proof (storeMember_validStrings e saved k v H) as Hstep.
  destruct (storeMember e saved k v) as [[e' s']|[e' err]].
  - now apply IH.
  - exact Hstep.
Qed.

Lemma FromJson_validStrings data : validStrings (fst (FromJson data)).
Proof.
  assert (H0 : validStrings zeroLogEntry) by (repeat split; constructor).
  unfold FromJson, Unmarshal.
  destruct (checkValid data) as [[| | | | |ms]|]; try exact H0.
  now apply storeMembers_validStrings.
Qed.

Lemma Marshal_far_zone l :
  0 <= time.Year (Timestamp l) <= 9999 ->
  86400 <= Z.abs (time.ZoneOffset (Timestamp l)) ->
  ToJson l = (None, Some MarshalerError).
Proof.
  intros Hy Hz. unfold ToJson, Marshal, time.MarshalJSON.
  replace (time.strictRFC3339_ok (Timestamp l)) with false; [reflexivity|].
  symmetry. unfold time.strictRFC3339_ok.
  apply andb_false_intro2. apply orb_false_intro.
  - apply Z.eqb_neq. lia.
  - apply Z.ltb_ge. nlia.
Qed.

(** X11: The entry [FromJson] returns, with an error or without, has a
    timestamp that is a time of the calendar with a year of four digits and
    a zone of whole minutes, and strings of valid UTF-8.  As long as the
    zone is less than a day from UTC, [ToJson] does not fail on the entry,
    and deserializing the bytes it writes gives the very same entry and no
    error.  A zone of a day or more, which [FromJson] accepts where
    [time.Parse] does ([+24:00], [-23:60]), is one [ToJson] fails on. *)
Theorem ToJson_FromJson (data : bytes) :
  let e := fst (FromJson data) in
  time.wf (Timestamp e) /\
  0 <= time.Year (Timestamp e) <= 9999 /\
  time.ZoneOffset (Timestamp e) mod 60 = 0 /\
  -90000 <= time.ZoneOffset (Timestamp e) <= 90000 /\
  Valid (Application e) = true /\
  Valid (Level e) = true /\
  Valid (Message e) = true /\
  (Z.abs (time.ZoneOffset (Timestamp e)) < 86400 ->
   exists out, ToJson e = (Some out, None) /\ FromJson out = (e, None)) /\
  (86400 <= Z.abs (time.ZoneOffset (Timestamp e)) ->
   ToJson e = (None, Some MarshalerError)).
Proof.
  cbv zeta.
  pose proof (FromJson_decodable data) as H.
  destruct (FromJson_validStrings data) as (Ha & Hl & Hm).
  destruct H as (Hw & Hy & Hz & Hr).
  split; [exact Hw|]. split; [exact Hy|]. split; [exact Hz|].
  split; [exact Hr|].
  split; [now apply CodecRepair.WF_Valid|].
  split; [now apply CodecRepair.WF_Valid|].
  split; [now apply CodecRepair.WF_Valid|].
  split.
  - intros Hd. exists (marshalled (fst (FromJson data))).
    apply roundtrip_general; try assumption.
    apply decodable_representable; [|exact Hd].
    repeat split; try apply Hw; lia.
  - intros Hd. now apply Marshal_far_zone.
Qed.

(** A record with a zone of five and a half hours and no message. *)
Lemma ToJson_FromJson_example :
  let data := bs "{" ++ member (bs "timestamp")
                               (bs "2024-02-29T23:59:01.5+05:30")
              ++ bs "}" in
  FromJson data
  = (mkLogEntry (time.mkTime 2024 2 29 23 59 1 500000000 19800) [] [] [],
     None) /\
  ToJson (fst (FromJson data))
  = (Some (bs "{" ++ member (bs "timestamp")
                            (bs "2024-02-29T23:59:01.5+05:30")
           ++ bs "," ++ quote :: bs "application" ++ quote :: bs ":"
           ++ [quote; quote]
           ++ bs "," ++ quote :: bs "level" ++ quote :: bs ":"
           ++ [quote; quote]
           ++ bs "," ++ quote :: bs "message" ++ quote :: bs ":"
           ++ [quote; quote] ++ bs "}"),
     None).
Proof. cbv zeta. split; vm_compute; reflexivity. Qed.

(** Records only [time.Parse] accepts: an hour of one digit with a comma
    before the fraction, which [ToJson] writes in the strict form, and a
    zone of a day, which it does not write. *)
Lemma ToJson_FromJson_lenient_example :
  let short := bs "{" ++ member (bs "timestamp")
                                (bs "2024-01-02T3:04:05,5Z") ++ bs "}" in
  let far := bs "{" ++ member (bs "timestamp")
                              (bs "2024-01-02T03:04:05+24:00") ++ bs "}" in
  FromJson short
  = (mkLogEntry (time.mkTime 2024 1 2 3 4 5 500000000 0) [] [] [], None) /\
  time.MarshalJSON (Timestamp (fst (FromJson short)))
  = Some (quote :: bs "2024-01-02T03:04:05.5Z" ++ [quote]) /\
  FromJson far
  = (mkLogEntry (time.mkTime 2024 1 2 3 4 5 0 86400) [] [] [], None) /\
  ToJson (fst (FromJson far)) = (None, Some MarshalerError).
Proof. cbv zeta. repeat split; vm_compute; reflexivity. Qed.

End DecodedEntries.

(* ================================================================== *)
(** * [%d] is the decimal notation *)

Module DecimalNotation.
Import Decimal.
Local Open Scope Z_scope.

(** The decimal notation of an integer, as the standard library of Rocq
    prints it. *)
Definition decimal (x : Z) : bytes :=
  bs (DecimalString.NilZero.string_of_int (Z.to_int x)).

(** The characters of a number given with its least digit first. *)
Fixpoint little (d : uint) : bytes :=
  match d with
  | Nil => []
  | D0 d => "0"%char :: little d
  | D1 d => "1"%char :: little d
  | D2 d => "2"%char :: little d
  | D3 d => "3"%char :: little d
  | D4 d => "4"%char :: little d
  | D5 d => "5"%char :: little d
  | D6 d => "6"%char :: little d
  | D7 d => "7"%char :: little d
  | D8 d => "8"%char :: little d
  | D9 d => "9"%char :: little d
  end.

Lemma string_of_revapp d : forall acc,
  bs (DecimalString.NilEmpty.string_of_uint (Decimal.revapp d acc))
  = List.rev (little d) ++ bs (DecimalString.NilEmpty.string_of_uint acc).
Proof.
  induction d; intros acc; cbn [Decimal.revapp little List.rev]; [reflexivity|..];
    rewrite IHd, <- app_assoc; reflexivity.
Qed.

Lemma string_of_rev d :
  bs (DecimalString.NilEmpty.string_of_uint (Decimal.rev d)) = List.rev (little d).
Proof.
  unfold Decimal.rev. rewrite string_of_revapp. cbn. apply app_nil_r.
Qed.

Lemma to_lu_units k :
  (0 < k < 10)%N -> little (DecimalPos.Unsigned.to_lu k) = [digit (Z.of_N k)].
Proof.
  intros H.
  assert (E : (k = 1 \/ k = 2 \/ k = 3 \/ k = 4 \/ k = 5 \/ k = 6 \/ k = 7
               \/ k = 8 \/ k = 9)%N) by lia.
  repeat (destruct E as [->|E]; [reflexivity|]). subst. reflexivity.
Qed.

Lemma to_lu_tens k q :
  (k < 10)%N -> (0 < q)%N ->
  little (DecimalPos.Unsigned.to_lu (k + 10 * q))
  = digit (Z.of_N k) :: little (DecimalPos.Unsigned.to_lu q).
Proof.
  intros Hk Hq. destruct q as [|p]; [lia|].
  assert (E : (k = 0 \/ k = 1 \/ k = 2 \/ k = 3 \/ k = 4 \/ k = 5 \/ k = 6
               \/ k = 7 \/ k = 8 \/ k = 9)%N) by lia.
  pose proof (DecimalPos.Unsigned.to_ldec_tenfold p) as H0.
  assert (Hs : forall n, DecimalPos.Unsigned.to_lu (N.succ n)
                         = Decimal.Little.succ (DecimalPos.Unsigned.to_lu n))
    by apply DecimalPos.Unsigned.to_lu_succ.
  repeat (destruct E as [->|E];
          [match goal with
           | |- context [(?j + 10 * N.pos p)%N] =>
             replace (j + 10 * N.pos p)%N
               with (N.iter j N.succ (10 * N.pos p)%N)
               by (cbn [N.iter Pos.iter]; lia)
           end;
           cbn [N.iter Pos.iter]; rewrite ?Hs, H0; reflexivity|]).
  subst.
  replace (9 + 10 * N.pos p)%N with (N.iter 9 N.succ (10 * N.pos p)%N)
    by (cbn [N.iter Pos.iter]; lia).
  cbn [N.iter Pos.iter]. rewrite ?Hs, H0. reflexivity.
Qed.

Lemma digitsFuel_little fuel : forall u,
  0 < u < 2 ^ Z.of_nat fuel ->
  digitsFuel fuel u = List.rev (little (DecimalPos.Unsigned.to_lu (Z.to_N u))).
Proof.
  induction fuel as [|fuel IH]; intros u Hu.
  - cbn in Hu. lia.
  - cbn [digitsFuel]. destruct (Z.ltb_spec u 10) as [H10|H10].
    + rewrite to_lu_units by lia. rewrite Z2N.id by lia. reflexivity.
    + rewrite Nat2Z.inj_succ, Z.pow_succ_r in Hu by lia.
      rewrite IH by nlia.
      replace (Z.to_N u)
        with (Z.to_N (u mod 10) + 10 * Z.to_N (u / 10))%N by nlia.
      rewrite to_lu_tens by nlia.
      rewrite Z2N.id by nlia. reflexivity.
Qed.

Lemma digits_to_uint p :
  digits (Z.pos p) = bs (DecimalString.NilEmpty.string_of_uint (Pos.to_uint p)).
Proof.
  unfold digits, Pos.to_uint. rewrite string_of_rev.
  rewrite digitsFuel_little; [reflexivity|].
  split; [lia|].
  rewrite Nat2Z.inj_succ, Z2Nat.id by apply Z.log2_nonneg.
  apply Z.log2_spec. lia.
Qed.

Lemma string_of_uint_nonnil d :
  d <> Nil -> DecimalString.NilZero.string_of_uint d = DecimalString.NilEmpty.string_of_uint d.
Proof. destruct d; [congruence|reflexivity..]. Qed.

(** [formatInt] writes the decimal notation. *)
Lemma formatInt_decimal x : formatInt x = decimal x.
Proof.
  unfold formatInt, decimal. destruct x as [|p|p].
  - reflexivity.
  - cbn [Z.ltb Z.compare Z.abs Z.to_int DecimalString.NilZero.string_of_int app].
    rewrite string_of_uint_nonnil by apply DecimalPos.Unsigned.to_uint_nonnil.
    apply digits_to_uint.
  - cbn [Z.ltb Z.compare Z.abs Z.to_int DecimalString.NilZero.string_of_int].
    rewrite string_of_uint_nonnil by apply DecimalPos.Unsigned.to_uint_nonnil.
    rewrite digits_to_uint. reflexivity.
Qed.

Lemma decimal_examples :
  decimal 0 = bs "0" /\ decimal 42 = bs "42" /\ decimal (-7) = bs "-7" /\
  decimal 2147483647 = bs "2147483647".
Proof. repeat split; reflexivity. Qed.

End DecimalNotation.

(* ================================================================== *)
(** * The producer, from the random draws to the consumer's console *)

Module ProducerFacts.
Import utf8 json models producer Utf8Facts TimeRoundTrip CodecFacts.
Import CodecClaims DecimalNotation.

(** The pool [generateLogEntry] draws the message of a level from. *)
Definition pool (level : LogLevel) : list bytes :=
  if bytes_eqb level INFO then infoMessages
  else if bytes_eqb level WARN then warnMessages
  else if bytes_eqb level ERROR then errorMessages
  else [bs "debug trace information"].

Lemma Intn_lt d n : (0 < n)%nat -> (Intn d n < n)%nat.
Proof. intros H. unfold Intn. apply Nat.mod_upper_bound. lia. Qed.

(** The four cases of the [switch] of [generateLogEntry]. *)
Lemma generateLogEntry_cases (lp : LogProducer) (d : draws) :
  let e := generateLogEntry lp d in
  (Level e = INFO /\ In (Message e) infoMessages) \/
  (Level e = WARN /\ In (Message e) warnMessages) \/
  (Level e = ERROR /\ In (Message e) errorMessages) \/
  (Level e = DEBUG /\ Message e = bs "debug trace information").
Proof.
  assert (Hnth : forall (l : list bytes),
            (0 < length l)%nat -> In (nth (Intn d (length l)) l []) l).
  { intros l Hl. apply nth_In. now apply Intn_lt. }
  cbv zeta. unfold generateLogEntry.
  destruct (Qltb (levelRand d) c0_6);
    [|destruct (Qltb (levelRand d) c0_8);
      [|destruct (Qltb (levelRand d) c0_95)]];
    cbn [Level Message].
  - left. split; [reflexivity|]. apply Hnth. cbn. lia.
  - right. left. split; [reflexivity|]. apply Hnth. cbn. lia.
  - right. right. left. split; [reflexivity|]. apply Hnth. cbn. lia.
  - right. right. right. split; reflexivity.
Qed.

(** X12: The message of a generated entry is one of the pool of its level: the
    index [rand.Intn(len(pool))] never falls outside the pool, whatever
    the random source yields, and the level, one of INFO, WARN, ERROR and
    DEBUG, decides the pool; the message is never empty. *)
Theorem generateLogEntry_message (lp : LogProducer) (d : draws) :
  In (Message (generateLogEntry lp d)) (pool (Level (generateLogEntry lp d)))
  /\ In (Level (generateLogEntry lp d)) [INFO; WARN; ERROR; DEBUG]
  /\ Message (generateLogEntry lp d) <> [].
Proof.
  assert (Hne : forall l m, In m l ->
            Forall (fun x : bytes => x <> []) l -> m <> []).
  { intros l m Hin Hall. rewrite Forall_forall in Hall. now apply Hall. }
  destruct (generateLogEntry_cases lp d)
    as [[El Hm]|[[El Hm]|[[El Hm]|[El Hm]]]];
    rewrite El.
  - split; [exact Hm|]. split; [cbn; tauto|].
    apply (Hne _ _ Hm). repeat constructor; discriminate.
  - split; [exact Hm|]. split; [cbn; tauto|].
    apply (Hne _ _ Hm). repeat constructor; discriminate.
  - split; [exact Hm|]. split; [cbn; tauto|].
    apply (Hne _ _ Hm). repeat constructor; discriminate.
  - rewrite Hm. split; [left; reflexivity|].
    split; [cbn; tauto|discriminate].
Qed.

Lemma pools_Forall (P : bytes -> Prop) lp d :
  Forall P infoMessages -> Forall P warnMessages -> Forall P errorMessages ->
  P (bs "debug trace information") ->
  P INFO -> P WARN -> P ERROR -> P DEBUG ->
  P (Message (generateLogEntry lp d)) /\ P (Level (generateLogEntry lp d)).
Proof.
  intros Hi Hw He Hd Li Lw Le Ld.
  rewrite Forall_forall in Hi, Hw, He.
  destruct (generateLogEntry_cases lp d)
    as [[El Hm]|[[El Hm]|[[El Hm]|[El Hm]]]];
    rewrite El; split; try assumption; try rewrite Hm; auto.
Qed.

Lemma generateLogEntry_Valid lp d :
  Valid (Message (generateLogEntry lp d)) = true /\
  Valid (Level (generateLogEntry lp d)) = true.
Proof.
  apply (pools_Forall (fun s => Valid s = true));
    try reflexivity; repeat constructor.
Qed.

Lemma appNames_Valid name : In name appNames -> Valid name = true.
Proof.
  intros H. cbn in H.
  repeat (destruct H as [<-|H]; [reflexivity|]). destruct H.
Qed.

(** A generated entry is one the codec loses nothing of, when the
    application name is valid UTF-8 and the clock is one its text
    determines. *)
Lemma generateLogEntry_lossless lp d :
  Valid (appName lp) = true -> representable (now d) ->
  lossless (generateLogEntry lp d) /\
  WF (Level (generateLogEntry lp d)).
Proof.
  intros Ha Ht.
  destruct (generateLogEntry_Valid lp d) as [Hm Hl].
  destruct (generateLogEntry_fields lp d) as [Et Ea].
  split.
  - unfold lossless. rewrite Et, Ea.
    split; [exact Ht|]. split; [exact Ha|exact Hm].
  - now apply Valid_WF.
Qed.

Lemma sendLog_sent lp d r m :
  sent (sendLog lp d r) = Some m ->
  m = sarama.ProducerMessage.mk (bs "raw-logs")
        (Application (generateLogEntry lp d))
        (marshalled (generateLogEntry lp d))
        (Timestamp (generateLogEntry lp d)).
Proof.
  unfold sendLog. cbv zeta. intros H.
  destruct (ToJson (generateLogEntry lp d)) as [[data|] [e|]] eqn:E;
    try discriminate.
  apply ToJson_Some in E. subst data.
  destruct r as [[p o]|e]; cbn [sent] in H; now inversion H.
Qed.

Lemma loop_messages lp events : forall w m,
  In m (messages (loop lp events w)) ->
  In m (messages w) \/
  exists d r, In (Tick d r) events /\ sent (sendLog lp d r) = Some m.
Proof.
  induction events as [|ev events IH]; intros w m Hin; [now left|].
  destruct ev as [d r|].
  - cbn [loop] in Hin. apply IH in Hin. cbn [messages] in Hin.
    destruct Hin as [Hin|(d' & r' & Hin & Hs)].
    + apply in_app_or in Hin. destruct Hin as [Hin|Hin]; [now left|].
      right. exists d, r. split; [now left|].
      destruct (sent (sendLog lp d r)) as [m'|]; [|destruct Hin].
      destruct Hin as [<-|[]]. reflexivity.
    + right. exists d', r'. split; [now right|assumption].
  - cbn [loop messages] in Hin. now left.
Qed.

(** X13: Every record the producer program hands to the broker is one
    [FromJson] reads back: as long as the clock readings are times their
    text determines (a year of four digits, a zone of whole minutes less
    than a day from UTC), the value of each message comes from a tick of
    the ticker, and [FromJson] returns for it the very entry
    [generateLogEntry] made at that tick, without error.  The key of the
    message is that entry's application name, the one [main] drew among its
    four names; its timestamp is the clock reading of the tick. *)
Theorem main_messages_readable (app : nat) (events : list event)
        (m : sarama.ProducerMessage.t) :
  (forall d r, In (Tick d r) events -> representable (now d)) ->
  In m (messages (main app None events)) ->
  exists d r,
    In (Tick d r) events /\
    FromJson (sarama.ProducerMessage.Value m)
    = (generateLogEntry
         (mkLogProducer (nth (app mod length appNames) appNames [])) d,
       None) /\
    sarama.ProducerMessage.Key m = nth (app mod length appNames) appNames [] /\
    In (sarama.ProducerMessage.Key m) appNames /\
    sarama.ProducerMessage.Timestamp m = now d /\
    sarama.ProducerMessage.Topic m = bs "raw-logs".
Proof.
  intros Hclock Hin. unfold main in Hin.
  set (currentApp := nth (app mod length appNames) appNames []) in *.
  assert (Hcur : In currentApp appNames).
  { apply nth_In. apply Nat.mod_upper_bound. discriminate. }
  cbn [NewLogProducer] in Hin.
  apply loop_messages in Hin. cbn [messages] in Hin.
  destruct Hin as [[]|(d & r & Hev & Hs)].
  apply sendLog_sent in Hs.
  set (lp := mkLogProducer currentApp) in *.
  destruct (generateLogEntry_lossless lp d) as [(Ht & Ha & Hm) Hl];
    [now apply appNames_Valid|now apply (Hclock d r)|].
  destruct (roundtrip_general (generateLogEntry lp d) Ht)
    as [_ Hback]; try (now apply Valid_WF); [exact Hl|].
  destruct (generateLogEntry_fields lp d) as [Et Ea].
  exists d, r. subst m.
  cbn [sarama.ProducerMessage.Value sarama.ProducerMessage.Key
       sarama.ProducerMessage.Timestamp sarama.ProducerMessage.Topic].
  split; [exact Hev|]. split; [exact Hback|].
  rewrite Ea, Et. cbn [appName lp].
  split; [reflexivity|]. split; [exact Hcur|]. split; reflexivity.
Qed.

Definition twoTicks : list event :=
  [Tick (mkDraws (1 # 2) 7 newYear) (inl (0, 1)%Z);
   Tick (mkDraws (9 # 10) 3 newYear) (inr (BrokerError (bs "timeout")))].

Lemma twoTicks_clock d r : In (Tick d r) twoTicks -> representable (now d).
Proof.
  intros H. cbn in H.
  repeat (destruct H as [H|H];
          [inversion H; subst; exact newYear_representable|]).
  destruct H.
Defined.

Lemma main_messages_readable_witness :
  let m := sarama.ProducerMessage.mk (bs "raw-logs") (bs "AuthService")
             (marshalled (mkLogEntry newYear (bs "AuthService") ERROR
                                     (bs "Service Unavailable")))
             newYear in
  In m (messages (main 2 None twoTicks)) /\
  exists d r,
    In (Tick d r) twoTicks /\
    FromJson (sarama.ProducerMessage.Value m)
    = (generateLogEntry (mkLogProducer (bs "AuthService")) d, None).
Proof.
  cbv zeta.
  set (m := sarama.ProducerMessage.mk (bs "raw-logs") (bs "AuthService")
              (marshalled (mkLogEntry newYear (bs "AuthService") ERROR
                                      (bs "Service Unavailable")))
              newYear).
  assert (Hin : In m (messages (main 2 None twoTicks))).
  { vm_compute. right. left. reflexivity. }
  split; [exact Hin|].
  destruct (main_messages_readable 2 twoTicks m twoTicks_clock Hin)
    as (d & r & Hev & He & _).
  exists d, r. split; [exact Hev|exact He].
Defined.

(** *** The loop of [main], event by event *)

(** The events the loop takes up: those up to the first interrupt. *)
Fixpoint handled (events : list event) : list event :=
  match events with
  | [] => []
  | Tick d r :: rest => Tick d r :: handled rest
  | Signal :: _ => [Signal]
  end.

(** What an event is to leave on the console: at a tick the line of the
    record sent, with partition and offset in decimal notation, or the
    line of the error, which is the broker's or, for a clock reading
    [ToJson] fails on, the encoder's; at the interrupt the line of the
    shutdown. *)
Definition report (lp : LogProducer) (ev : event) : list output :=
  match ev with
  | Tick d r =>
    if time.strictRFC3339_ok (now d) then
      match r with
      | inl (partition, offset) =>
        [Stdout (bs "[" ++ appName lp ++ bs "] Sent lot to partition "
                 ++ decimal partition ++ bs ", offset " ++ decimal offset
                 ++ bs ": " ++ Level (generateLogEntry lp d) ++ bs " - "
                 ++ Message (generateLogEntry lp d) ++ [newline])]
      | inr e =>
        [PrintlnErr (bs "Error sending log ")
                    (Errorf (bs "failed to send message %w") e)]
      end
    else
      [PrintlnErr (bs "Error sending log ")
                  (Errorf (bs "failed to marshal logentry %w ")
                          (JsonError MarshalerError))]
  | Signal => [Stdout (bs "Shutting down Producer..." ++ [newline])]
  end.

(** What an event is to hand to the broker: at a tick the record of the
    entry generated, unless [ToJson] fails on the clock reading. *)
Definition handed (lp : LogProducer) (ev : event)
  : list sarama.ProducerMessage.t :=
  match ev with
  | Tick d r =>
    if time.strictRFC3339_ok (now d) then
      [sarama.ProducerMessage.mk (bs "raw-logs") (appName lp)
         (marshalled (generateLogEntry lp d)) (now d)]
    else []
  | Signal => []
  end.

Lemma sendLog_report lp d r :
  out (sendLog lp d r)
  ++ match err (sendLog lp d r) with
     | Some e => [PrintlnErr (bs "Error sending log ") e]
     | None => []
     end = report lp (Tick d r) /\
  optList (sent (sendLog lp d r)) = handed lp (Tick d r).
Proof.
  destruct (generateLogEntry_fields lp d) as [Et Ea].
  unfold sendLog, report, handed. cbv zeta. unfold ToJson.
  destruct (time.strictRFC3339_ok (now d)) eqn:Hok.
  - rewrite Marshal_ok by (now rewrite Et).
    destruct r as [[partition offset]|e]; cbn [out err sent optList app].
    + rewrite Ea, Et, !formatInt_decimal. split; reflexivity.
    + rewrite Ea, Et. split; reflexivity.
  - rewrite Marshal_error by (now rewrite Et). split; reflexivity.
Qed.

(** X14: The producer's console and what it hands to the broker, event by
    event.  A tick leaves exactly one entry on the console: the line
    [[application] Sent lot to partition P, offset O: LEVEL - message] of
    the record sent, or the line of the error of [sendLog]; and it hands
    one message to the broker, with the topic [raw-logs], the application
    name as the key, the serialized entry as the value and the clock
    reading as the timestamp, unless the entry could not be serialized.
    The interrupt leaves the line of the shutdown and ends the loop, the
    program exiting with status 0; what comes after it is not taken up;
    without an interrupt the loop goes on. *)
Theorem loop_trace (lp : LogProducer) (events : list event) (w : world) :
  console (loop lp events w)
  = console w ++ flat_map (report lp) (handled events) /\
  messages (loop lp events w)
  = messages w ++ flat_map (handed lp) (handled events) /\
  state (loop lp events w)
  = (if existsb (fun ev => match ev with Signal => true | _ => false end)
                events
     then Exited 0
     else match events with [] => state w | _ => Running end).
Proof.
  revert w. induction events as [|ev events IH]; intros w.
  - cbn. rewrite !app_nil_r. repeat split.
  - destruct ev as [d r|].
    + cbn [loop handled flat_map existsb orb].
      destruct (sendLog_report lp d r) as [Hc Hm].
      destruct (IH (mkWorld
                      (messages w ++ optList (sent (sendLog lp d r)))
                      (console w ++ out (sendLog lp d r)
                       ++ match err (sendLog lp d r) with
                          | Some e => [PrintlnErr (bs "Error sending log ") e]
                          | None => []
                          end)
                      Running)) as (H1 & H2 & H3).
      cbn [console messages state] in H1, H2, H3.
      rewrite H1, H2, H3, Hc, Hm, <- !app_assoc.
      split; [reflexivity|]. split; [reflexivity|].
      destruct (existsb _ events); [reflexivity|].
      now destruct events.
    + cbn [loop handled flat_map existsb orb console messages state report
           handed app].
      rewrite !app_nil_r. repeat split.
Qed.

(** A run of three ticks, an interrupt, and a tick that comes too late. *)
Lemma loop_trace_example :
  let lp := mkLogProducer (bs "AuthService") in
  let d := mkDraws (1 # 2) 7 newYear in
  let w := loop lp [Tick d (inl (0, 1)%Z);
                    Tick d (inr (BrokerError (bs "timeout")));
                    Tick d (inl (0, 2)%Z); Signal; Tick d (inl (0, 3)%Z)]
                (mkWorld [] [] Running) in
  console w
  = [Stdout (bs "[AuthService] Sent lot to partition 0, offset 1: "
             ++ bs "INFO - Request completed" ++ [newline]);
     PrintlnErr (bs "Error sending log ")
                (Errorf (bs "failed to send message %w")
                        (BrokerError (bs "timeout")));
     Stdout (bs "[AuthService] Sent lot to partition 0, offset 2: "
             ++ bs "INFO - Request completed" ++ [newline]);
     Stdout (bs "Shutting down Producer..." ++ [newline])] /\
  length (messages w) = 3%nat /\
  state w = Exited 0.
Proof. vm_compute. repeat split. Qed.

(** *** What [main] draws at its start *)

(** X15: The application name [main] draws is one of its four names, and the
    period of its ticker is a whole number of seconds from one to five, so
    [time.NewTicker] is never given a period it panics on. *)
Theorem main_draws (app n : nat) (events : list event) :
  (exists name,
     In name appNames /\
     main app None events
     = loop (mkLogProducer name) events
         (mkWorld []
            [Stdout (bs "starting log prdoducer for application  " ++ name
                     ++ [newline]);
             Stdout (bs "Press Ctrl + c to stop..." ++ [newline])]
            Running)) /\
  (exists seconds,
     NewTicker (tickerPeriod n) = Some (1000000000 * seconds)%Z /\
     (1 <= seconds <= 5)%Z).
Proof.
  split.
  - exists (nth (app mod length appNames) appNames []). split; [|reflexivity].
    apply nth_In. apply Nat.mod_upper_bound. discriminate.
  - exists (Z.of_nat (n mod 5 + 1)).
    pose proof (Nat.mod_upper_bound n 5 ltac:(discriminate)) as Hn.
    unfold NewTicker, tickerPeriod.
    destruct (Z.leb_spec (1000000000 * Z.of_nat (n mod 5 + 1)) 0);
      [lia|split; [reflexivity|lia]].
Qed.

(** A broker that cannot be reached: one line is logged, the text of
    [main] with the error as [NewLogProducer] wraps it, nothing is handed
    over, and the program exits with status 1. *)
Lemma main_connect_failure_example :
  main 2 (Some (BrokerError (bs "connection refused"))) twoTicks
  = mkWorld []
      [LogFatal (bs "Failed to create prdoducer %w")
                (Errorf (bs "failed to create producer %w")
                        (BrokerError (bs "connection refused")))]
      (Exited 1).
Proof. reflexivity. Qed.

End ProducerFacts.

(* ================================================================== *)
(** * One record, one line *)

Module ConsoleLines.
Import models consumer TimeFacts CodecOutput ProducerFacts.

(** A byte that is no line break. *)
Definition inline (c : ascii) : Prop := c <> newline.

(** A text that is one line: it ends in a line break and holds no other. *)
Definition oneLine (text : bytes) : Prop :=
  exists line, text = line ++ [newline] /\ Forall inline line.

Lemma inline_digit d : (0 <= d <= 9)%Z -> inline (digit d).
Proof.
  intros H E. apply (f_equal b2n) in E. rewrite b2n_digit in E by assumption.
  change (b2n newline) with 10%N in E. lia.
Qed.

Lemma inline_formatInt x : Forall inline (formatInt x).
Proof.
  unfold formatInt. apply Forall_app. split.
  - destruct (x <? 0)%Z; repeat constructor; discriminate.
  - eapply Forall_impl; [|apply digits_spec, Z.abs_nonneg].
    intros c (d & Hd & ->). now apply inline_digit.
Qed.

Lemma inline_Format t : Forall inline (time.Format_15_04_05 t).
Proof.
  assert (Hi : forall x w, Forall inline (time.appendInt x w)).
  { intros x w. apply appendInt_Forall.
    - apply inline_digit.
    - intros c Hc. cbn in Hc.
      repeat (destruct Hc as [<-|Hc]; [discriminate|]). destruct Hc. }
  unfold time.Format_15_04_05.
  repeat (apply Forall_app; split); try apply Hi;
    repeat constructor; discriminate.
Qed.

Lemma inline_color level :
  Forall inline (match lookup colors level with
                 | Some c => c
                 | None => reset
                 end).
Proof.
  unfold colors. cbn [lookup].
  repeat match goal with
  | |- context [bytes_eqb ?k level] => destruct (bytes_eqb k level)
  end; repeat constructor; discriminate.
Qed.

(** X16: What [displayLog] writes for an entry is one line of the console,
    provided the application name, the level and the message hold no line
    break; nothing in [displayLog] removes one that they hold. *)
Theorem displayLog_one_line (e : LogEntry) (partition offset : Z) :
  Forall inline (Application e) -> Forall inline (Level e) ->
  Forall inline (models.Message e) ->
  oneLine (printed (displayLog e partition offset)).
Proof.
  intros Ha Hl Hm.
  pose proof (inline_color (Level e)) as Hc.
  pose proof (inline_Format (Timestamp e)) as Ht.
  pose proof (inline_formatInt partition) as Hp.
  pose proof (inline_formatInt offset) as Ho.
  assert (Hr : Forall inline reset)
    by (repeat (apply Forall_cons; [unfold inline; discriminate|]);
        apply Forall_nil).
  unfold oneLine, displayLog. cbn [printed]. rewrite app_nil_r.
  exists ((match lookup colors (Level e) with
           | Some c => c
           | None => reset
           end ++ bs "[" ++ time.Format_15_04_05 (Timestamp e) ++ bs "] ["
           ++ Application e ++ bs "] [" ++ Level e ++ bs "] "
           ++ models.Message e ++ reset)
          ++ bs " (p:" ++ formatInt partition ++ bs ", o:"
          ++ formatInt offset ++ bs ")").
  split.
  - repeat rewrite <- app_assoc. reflexivity.
  - repeat first
      [ assumption
      | match goal with
        | |- Forall _ (_ ++ _) => apply Forall_app; split
        | |- Forall _ (bs _) => cbn [bs list_ascii_of_string]
        end
      | apply Forall_cons; [unfold inline; discriminate|]
      | apply Forall_nil ].
Qed.

Lemma generateLogEntry_inline lp d :
  Forall inline (models.Message (producer.generateLogEntry lp d)) /\
  Forall inline (Level (producer.generateLogEntry lp d)).
Proof.
  apply (pools_Forall (fun s => Forall inline s));
    repeat first
      [ apply Forall_nil
      | apply Forall_cons; [first [unfold inline; discriminate|idtac]|] ].
Qed.

Lemma displayLog_one_line_witness :
  let e := producer.generateLogEntry (producer.mkLogProducer (bs "AuthService"))
             (producer.mkDraws (7 # 10) 3 CodecClaims.newYear) in
  Forall inline (Application e) /\ Forall inline (Level e) /\
  Forall inline (models.Message e) /\
  oneLine (printed (displayLog e 1 42)).
Proof.
  cbv zeta.
  destruct (generateLogEntry_inline
              (producer.mkLogProducer (bs "AuthService"))
              (producer.mkDraws (7 # 10) 3 CodecClaims.newYear)) as [Hm Hl].
  assert (Ha : Forall inline (bs "AuthService")).
  { cbn [bs list_ascii_of_string].
    repeat (apply Forall_cons; [unfold inline; discriminate|]).
    apply Forall_nil. }
  split; [exact Ha|]. split; [exact Hl|]. split; [exact Hm|].
  exact (displayLog_one_line
           (producer.generateLogEntry
              (producer.mkLogProducer (bs "AuthService"))
              (producer.mkDraws (7 # 10) 3 CodecClaims.newYear))
           1 42 Ha Hl Hm).
Defined.

(** A message of two lines is written as two lines. *)
Lemma displayLog_two_lines_example :
  printed (displayLog CodecOutput.multilineEntry 1 42)
  = (esc :: bs "[33m[00:00:00] [AuthService] [WARN] <b>line 1")
    ++ [newline]
    ++ (bs "line 2 & more" ++ reset ++ bs " (p:1, o:42)") ++ [newline].
Proof. vm_compute. reflexivity. Qed.

End ConsoleLines.

(* ================================================================== *)
(** * The consumer's loops *)

Module ConsumerFacts.
Import models consumer.

(** The records [ConsumeClaim] takes from the claim: those received before
    the channel is found closed or the session's context done. *)
Fixpoint pulled (events : list selected) : list sarama.ConsumerMessage.t :=
  match events with
  | Message (Some m) :: rest => m :: pulled rest
  | _ => []
  end.

(** Something among [events] ends the loop. *)
Definition ended (events : list selected) : bool :=
  existsb (fun ev => match ev with Message (Some _) => false | _ => true end)
          events.

Lemma proccessLogMessage_writes m : proccessLogMessage m <> [].
Proof.
  unfold proccessLogMessage.
  destruct (FromJson (sarama.ConsumerMessage.Value m)) as [e [err|]];
    discriminate.
Qed.

(** X17: Whatever [ConsumeClaim] receives, it marks exactly the records it has
    processed, in the order they arrived, and each of them has left its
    output on the console; a closed channel ends the loop as the end of
    the session does; what arrives after either is neither processed nor
    marked; and as long as neither has arrived the loop has not returned. *)
Theorem ConsumeClaim_trace (events : list selected) (s : session) :
  ConsumeClaim events s
  = (mkSession (console s ++ flat_map proccessLogMessage (pulled events))
               (marked s ++ pulled events),
     ended events) /\
  (length (pulled events)
   <= length (flat_map proccessLogMessage (pulled events)))%nat.
Proof.
  split.
  - revert s. induction events as [|ev events IH]; intros s.
    + cbn. rewrite !app_nil_r. now destruct s.
    + destruct ev as [[m|]|].
      * cbn [ConsumeClaim pulled flat_map ended existsb orb].
        rewrite IH. cbn [console marked]. rewrite <- !app_assoc.
        reflexivity.
      * cbn. rewrite !app_nil_r. now destruct s.
      * cbn. rewrite !app_nil_r. now destruct s.
  - induction (pulled events) as [|m ms IH]; [apply Nat.le_refl|].
    cbn [flat_map length]. rewrite length_app.
    pose proof (proccessLogMessage_writes m) as Hm.
    destruct (proccessLogMessage m); [congruence|]. cbn [length]. lia.
Qed.

(** A record, the closing of the channel, and a record that comes too
    late. *)
Lemma ConsumeClaim_trace_example :
  let m := sarama.ConsumerMessage.mk (bs "{}") 0 5 in
  ConsumeClaim [Message (Some m); Message None; Message (Some m)]
               (mkSession [] [])
  = (mkSession (proccessLogMessage m) [m], true).
Proof. reflexivity. Qed.

(** *** The goroutine and the channel [ready] *)

Lemma runSetup_Open n :
  (n <= 1)%nat -> exists c', runSetup n (mkConsumer Open) = Some c'.
Proof.
  intros H. destruct n as [|[|n]]; [| |lia]; cbn; eexists; reflexivity.
Qed.

(** X18: As long as [client.Consume] runs [Setup] once in a session at most,
    [Setup] never closes a channel that is closed already: the goroutine
    makes the channel anew after every session.  The goroutine ends in one
    way only, by the panic on the first error of [client.Consume]: it
    never returns, the context it asks being the background context, and
    until that error it calls [client.Consume] again after every session,
    as [consumeLoop] does. *)
Theorem goroutine_sessions (calls : list consumeCall) (joined : nat) :
  Forall (fun call => (setups call <= 1)%nat) calls ->
  goroutine calls (mkConsumer Open) joined <> ClosePanic /\
  (forall n, goroutine calls (mkConsumer Open) joined <> Returned n) /\
  match consumeLoop (map result calls) joined with
  | (Panicked _ e, _) => goroutine calls (mkConsumer Open) joined = LogPanic e
  | (_, n) =>
    n = (joined + length calls)%nat /\
    exists c, goroutine calls (mkConsumer Open) joined = Consuming c n
  end.
Proof.
  intros H.
  assert (Hm : match consumeLoop (map result calls) joined with
               | (Panicked _ e, _) =>
                 goroutine calls (mkConsumer Open) joined = LogPanic e
               | (_, n) =>
                 n = (joined + length calls)%nat /\
                 exists c,
                   goroutine calls (mkConsumer Open) joined = Consuming c n
               end).
  { revert joined.
    induction H as [|call calls Hc _ IH]; intros joined.
    - cbn. split; [lia|]. now exists (mkConsumer Open).
    - cbn [map consumeLoop goroutine].
      destruct (runSetup_Open _ Hc) as [c' ->].
      destruct (result call) as [e|]; [reflexivity|].
      cbv iota beta delta [Background_Err].
      specialize (IH (S joined)).
      destruct (consumeLoop (map result calls) (S joined))
        as [[|code|text e] n];
        [| |exact IH];
        destruct IH as (Hn & c & Hg);
        (split; [cbn [length]; lia|now exists c]). }
  destruct (consumeLoop (map result calls) joined) as [[|code|text e] n].
  - destruct Hm as (Hn & c & Hg).
    split; [rewrite Hg; discriminate|].
    split; [intros k; rewrite Hg; discriminate|].
    split; [exact Hn|now exists c].
  - destruct Hm as (Hn & c & Hg).
    split; [rewrite Hg; discriminate|].
    split; [intros k; rewrite Hg; discriminate|].
    split; [exact Hn|now exists c].
  - split; [rewrite Hm; discriminate|].
    split; [intros k; rewrite Hm; discriminate|exact Hm].
Qed.

Definition threeSessions : list consumeCall :=
  [mkCall 1 None; mkCall 1 None;
   mkCall 0 (Some (BrokerError (bs "connection refused")));
   mkCall 1 None].

Lemma goroutine_sessions_witness :
  Forall (fun call => (setups call <= 1)%nat) threeSessions /\
  goroutine threeSessions (mkConsumer Open) 0
  = LogPanic (BrokerError (bs "connection refused")) /\
  goroutine [mkCall 2 None] (mkConsumer Open) 0 = ClosePanic.
Proof.
  assert (H : Forall (fun call => (setups call <= 1)%nat) threeSessions).
  { repeat constructor. }
  split; [exact H|]. split; [|reflexivity].
  exact (proj2 (proj2 (goroutine_sessions threeSessions 0 H))).
Defined.

End ConsumerFacts.

(* ================================================================== *)
(** * The claims about the consumer *)

Module ConsumerClaims.
Import models consumer CodecClaims DecodedEntries DecimalNotation.
Import ConsoleLines ConsumerFacts.
Local Open Scope Z_scope.

Definition cyan : bytes := esc :: bs "[36m".
Definition green : bytes := esc :: bs "[32m".
Definition yellow : bytes := esc :: bs "[33m".
Definition red : bytes := esc :: bs "[31m".
Definition magenta : bytes := esc :: bs "[35m".

(** The color of a level, by the table of the claim; no color is the
    reset code. *)
Definition specColor (level : LogLevel) : bytes :=
  if bytes_eqb level DEBUG then cyan
  else if bytes_eqb level INFO then green
  else if bytes_eqb level WARN then yellow
  else if bytes_eqb level ERROR then red
  else if bytes_eqb level FATAL then magenta
  else reset.

(** [HH:MM:SS]. *)
Definition specClock (t : time.Time) : bytes :=
  [digit (time.Hour t / 10); digit (time.Hour t mod 10); ":"%char;
   digit (time.Minute t / 10); digit (time.Minute t mod 10); ":"%char;
   digit (time.Second t / 10); digit (time.Second t mod 10)].

(** The two pieces of the line of an entry: the entry in its color, and
    where the record was read. *)
Definition specEntry (e : LogEntry) : bytes :=
  specColor (Level e) ++ bs "[" ++ specClock (Timestamp e) ++ bs "] ["
  ++ Application e ++ bs "] [" ++ Level e ++ bs "] " ++ models.Message e
  ++ reset.

Definition specPlace (partition offset : Z) : bytes :=
  bs " (p:" ++ decimal partition ++ bs ", o:" ++ decimal offset ++ bs ")".

(** The line of the claim,
    [[HH:MM:SS] [application] [LEVEL] message (p:<partition>, o:<offset>)],
    the numbers in decimal notation, without the line break that ends
    it. *)
Definition specLine (e : LogEntry) (partition offset : Z) : bytes :=
  specEntry e ++ specPlace partition offset.

(** What a record is to leave on the console: the line of its entry, which
    [fmt] writes in three pieces, or the error of its deserialization. *)
Definition specConsole (m : sarama.ConsumerMessage.t) : list output :=
  match FromJson (sarama.ConsumerMessage.Value m) with
  | (e, None) =>
    [Stdout (specEntry e);
     Stdout (specPlace (sarama.ConsumerMessage.Partition m)
                       (sarama.ConsumerMessage.Offset m));
     Stdout [newline]]
  | (_, Some err) =>
    [PrintlnErr (bs "Error parsing the log message ") (JsonError err)]
  end.

(** A write of [fmt] to the standard output. *)
Definition toStdout (o : output) : Prop := exists text, o = Stdout text.

Definition pull (m : sarama.ConsumerMessage.t) : selected :=
  Message (Some m).

Lemma bytes_eqb_sym a b : bytes_eqb a b = bytes_eqb b a.
Proof.
  unfold bytes_eqb.
  destruct (list_eq_dec ascii_dec a b), (list_eq_dec ascii_dec b a);
    congruence.
Qed.

Lemma lookup_specColor level :
  match lookup colors level with
  | Some c => c
  | None => reset
  end = specColor level.
Proof.
  unfold colors, specColor. cbn [lookup].
  rewrite !(bytes_eqb_sym level).
  repeat match goal with
  | |- context [bytes_eqb ?k level] => destruct (bytes_eqb k level)
  end; reflexivity.
Qed.

Lemma Format_specClock t : time.wf t -> time.Format_15_04_05 t = specClock t.
Proof.
  intros (_ & _ & Hh & Hm & Hs & _). unfold time.Format_15_04_05, specClock.
  rewrite !TimeFacts.appendInt_2 by lia. reflexivity.
Qed.

(** What [displayLog] writes for an entry whose time is a time of the
    clock. *)
Lemma displayLog_pieces e partition offset :
  time.wf (Timestamp e) ->
  displayLog e partition offset
  = [Stdout (specEntry e); Stdout (specPlace partition offset);
     Stdout [newline]].
Proof.
  intros Hw. unfold displayLog, specEntry, specPlace. cbv zeta.
  now rewrite lookup_specColor, (Format_specClock _ Hw), !formatInt_decimal.
Qed.

(** What [proccessLogMessage] writes for a record, whatever the record. *)
Lemma proccessLogMessage_specConsole m : proccessLogMessage m = specConsole m.
Proof.
  unfold proccessLogMessage, specConsole.
  pose proof (FromJson_decodable (sarama.ConsumerMessage.Value m)) as Hd.
  destruct (FromJson (sarama.ConsumerMessage.Value m)) as [e [err|]];
    [reflexivity|].
  apply displayLog_pieces. apply Hd.
Qed.

Lemma inline_specColor level : Forall inline (specColor level).
Proof. rewrite <- lookup_specColor. apply inline_color. Qed.

Lemma inline_specLine e partition offset :
  time.wf (Timestamp e) ->
  Forall inline (Application e) -> Forall inline (Level e) ->
  Forall inline (models.Message e) ->
  Forall inline (specLine e partition offset).
Proof.
  intros Hw Ha Hl Hm.
  pose proof (inline_specColor (Level e)) as Hc.
  pose proof (inline_Format (Timestamp e)) as Ht.
  rewrite (Format_specClock _ Hw) in Ht.
  pose proof (inline_formatInt partition) as Hp.
  pose proof (inline_formatInt offset) as Ho.
  rewrite formatInt_decimal in Hp, Ho.
  assert (Hr : Forall inline reset)
    by (repeat (apply Forall_cons; [unfold inline; discriminate|]);
        apply Forall_nil).
  unfold specLine, specEntry, specPlace.
  repeat first
    [ assumption
    | match goal with
      | |- Forall _ (_ ++ _) => apply Forall_app; split
      | |- Forall _ (bs _) => cbn [bs list_ascii_of_string]
      end
    | apply Forall_cons; [unfold inline; discriminate|]
    | apply Forall_nil ].
Qed.

(** C7, as amended: for every record that deserializes, all the consumer
    writes is written to the standard output, and it is the color of the
    level, [[HH:MM:SS] [application] [LEVEL] message], the reset code,
    [ (p:<partition>, o:<offset>)] with the two numbers in decimal
    notation, and a line break; the color is cyan for DEBUG, green for
    INFO, yellow for WARN, red for ERROR, magenta for FATAL and, for any
    other level, no color (the reset code).  This is exactly one line when
    the application name, the level and the message hold no line break; a
    line break they hold is written as it is. *)
Theorem displayLog_line :
  (forall m e,
     FromJson (sarama.ConsumerMessage.Value m) = (e, None) ->
     Forall toStdout (proccessLogMessage m) /\
     printed (proccessLogMessage m)
     = specLine e (sarama.ConsumerMessage.Partition m)
              (sarama.ConsumerMessage.Offset m) ++ [newline] /\
     (Forall inline (Application e) -> Forall inline (Level e) ->
      Forall inline (models.Message e) ->
      oneLine (printed (proccessLogMessage m)))) /\
  specColor DEBUG = esc :: bs "[36m" /\ specColor INFO = esc :: bs "[32m" /\
  specColor WARN = esc :: bs "[33m" /\ specColor ERROR = esc :: bs "[31m" /\
  specColor FATAL = esc :: bs "[35m" /\
  (forall level, ~ In level levels -> specColor level = esc :: bs "[0m").
Proof.
  split.
  - intros m e H.
    pose proof (FromJson_decodable (sarama.ConsumerMessage.Value m)) as Hd.
    rewrite H in Hd. cbn [fst] in Hd. destruct Hd as [Hw _].
    unfold proccessLogMessage. rewrite H.
    rewrite (displayLog_pieces _ _ _ Hw).
    assert (Hp : printed [Stdout (specEntry e);
                          Stdout (specPlace (sarama.ConsumerMessage.Partition m)
                                            (sarama.ConsumerMessage.Offset m));
                          Stdout [newline]]
                 = specLine e (sarama.ConsumerMessage.Partition m)
                            (sarama.ConsumerMessage.Offset m) ++ [newline]).
    { unfold specLine. cbn [printed]. rewrite app_nil_r, <- app_assoc.
      reflexivity. }
    split; [|split].
    + repeat (apply Forall_cons; [eexists; reflexivity|]). apply Forall_nil.
    + exact Hp.
    + intros Ha Hl Hm. rewrite Hp.
      exists (specLine e (sarama.ConsumerMessage.Partition m)
                       (sarama.ConsumerMessage.Offset m)).
      split; [reflexivity|now apply inline_specLine].
  - repeat split; try reflexivity.
    intros level H. unfold specColor.
    repeat match goal with
    | |- context [bytes_eqb level ?k] =>
      rewrite (bytes_eqb_neq level k)
        by (intros ->; apply H; cbn; tauto)
    end.
    reflexivity.
Qed.

Definition sampleMessage : sarama.ConsumerMessage.t :=
  sarama.ConsumerMessage.mk (CodecFacts.marshalled sampleEntry) 2 42.

(** The line of the sample entry, as the console shows it. *)
Lemma displayLog_line_example :
  printed (proccessLogMessage sampleMessage)
  = green ++ bs "[23:59:01] [userService] [INFO] Request completed"
    ++ reset ++ bs " (p:2, o:42)" ++ [newline].
Proof. vm_compute. reflexivity. Qed.

(** A record whose message is two lines: the escape [\n] of the JSON
    string stands for a line break. *)
Definition twoLineMessage : sarama.ConsumerMessage.t :=
  sarama.ConsumerMessage.mk
    ("{"%char :: CodecFacts.member (bs "application") (bs "AuthService")
     ++ ","%char :: CodecFacts.member (bs "level") (bs "INFO")
     ++ ","%char :: CodecFacts.member (bs "message") (bs "line 1\nline 2")
     ++ ["}"%char])
    1 7.

(** C7 fails as stated: the record deserializes, and the consumer writes
    two lines for it. *)
Lemma displayLog_line_counterexample :
  FromJson (sarama.ConsumerMessage.Value twoLineMessage)
  = (mkLogEntry time.zero (bs "AuthService") INFO
                (bs "line 1" ++ [newline] ++ bs "line 2"), None) /\
  printed (proccessLogMessage twoLineMessage)
  = (green ++ bs "[00:00:00] [AuthService] [INFO] line 1") ++ [newline]
    ++ (bs "line 2" ++ reset ++ bs " (p:1, o:7)") ++ [newline].
Proof. split; vm_compute; reflexivity. Qed.

(** What [ConsumeClaim] leaves, whatever it receives. *)
Lemma ConsumeClaim_specConsole events : forall s,
  ConsumeClaim events s
  = (mkSession (console s ++ flat_map specConsole (pulled events))
               (marked s ++ pulled events),
     ended events).
Proof.
  induction events as [|ev events IH]; intros s.
  - cbn. rewrite !app_nil_r. now destruct s.
  - destruct ev as [[m|]|].
    + cbn [ConsumeClaim pulled flat_map ended existsb orb].
      rewrite IH, proccessLogMessage_specConsole. cbn [console marked].
      rewrite <- !app_assoc. reflexivity.
    + cbn. rewrite !app_nil_r. now destruct s.
    + cbn. rewrite !app_nil_r. now destruct s.
Qed.

Lemma pulled_app ms rest :
  pulled (map pull ms ++ rest) = ms ++ pulled rest.
Proof.
  induction ms as [|m ms IH]; [reflexivity|].
  cbn [map app pull pulled]. now rewrite IH.
Qed.

Lemma ended_app ms rest : ended (map pull ms ++ rest) = ended rest.
Proof.
  induction ms as [|m ms IH]; [reflexivity|].
  cbn [map app pull ended existsb orb]. exact IH.
Qed.

(** C8: when a received record does not deserialize, the consumer writes
    the error to the console, after what the records before it have left
    there, marks the record all the same, and goes on with the records
    that follow: each of them leaves its line or its error on the console
    and is marked, until the claim is closed or the session ends. *)
Theorem ConsumeClaim_malformed (before : list sarama.ConsumerMessage.t)
        (m : sarama.ConsumerMessage.t) (e : LogEntry) (err : json.error)
        (rest : list selected) (s : session) :
  FromJson (sarama.ConsumerMessage.Value m) = (e, Some err) ->
  ConsumeClaim (map pull before ++ pull m :: rest) s
  = (mkSession
       (console s ++ flat_map specConsole before
        ++ [PrintlnErr (bs "Error parsing the log message ") (JsonError err)]
        ++ flat_map specConsole (pulled rest))
       (marked s ++ before ++ m :: pulled rest),
     ended rest).
Proof.
  intros H. rewrite ConsumeClaim_specConsole, pulled_app, ended_app.
  cbn [pull pulled ended existsb orb]. rewrite flat_map_app.
  cbn [flat_map]. unfold specConsole at 2. rewrite H. reflexivity.
Qed.

Definition malformedMessage : sarama.ConsumerMessage.t :=
  sarama.ConsumerMessage.mk truncatedRecord 1 7.

Lemma malformedMessage_fails :
  FromJson (sarama.ConsumerMessage.Value malformedMessage)
  = (zeroLogEntry, Some json.SyntaxError).
Proof. vm_compute. reflexivity. Defined.

Lemma ConsumeClaim_malformed_witness :
  FromJson (sarama.ConsumerMessage.Value malformedMessage)
  = (zeroLogEntry, Some json.SyntaxError) /\
  ConsumeClaim [pull sampleMessage; pull malformedMessage; pull sampleMessage;
                Done; pull sampleMessage]
               (mkSession [] [])
  = (mkSession
       [Stdout (green ++ bs "[23:59:01] [userService] [INFO] Request completed"
                ++ reset);
        Stdout (bs " (p:2, o:42)"); Stdout [newline];
        PrintlnErr (bs "Error parsing the log message ")
                   (JsonError json.SyntaxError);
        Stdout (green ++ bs "[23:59:01] [userService] [INFO] Request completed"
                ++ reset);
        Stdout (bs " (p:2, o:42)"); Stdout [newline]]
       [sampleMessage; malformedMessage; sampleMessage],
     true).
Proof.
  split; [exact malformedMessage_fails|].
  pose proof (ConsumeClaim_malformed [sampleMessage] malformedMessage
                zeroLogEntry json.SyntaxError
                [pull sampleMessage; Done; pull sampleMessage]
                (mkSession [] []) malformedMessage_fails) as H.
  cbn [map app] in H. rewrite H. vm_compute. reflexivity.
Defined.

(** C9: the loop of [ConsumeClaim] takes up the end of the session only
    between two records: every record it has pulled before it observes
    [Done] has left its line on the console (or, when it does not
    deserialize, its error) and is marked, in the order of arrival, when
    the loop returns, and nothing else has been written or marked.  The
    interrupt changes nothing in this, whenever the process is sent it:
    the loop does not observe it. *)
Theorem ConsumeClaim_drains (hs : list happening)
        (ms : list sarama.ConsumerMessage.t) (after : list selected)
        (s : session) :
  received hs = map pull ms ++ Done :: after ->
  ConsumeClaim (received hs) s
  = (mkSession (console s ++ flat_map specConsole ms) (marked s ++ ms), true).
Proof.
  intros H. rewrite H, ConsumeClaim_specConsole, pulled_app, ended_app.
  cbn [pulled ended existsb orb]. now rewrite !app_nil_r.
Qed.

Lemma ConsumeClaim_drains_witness :
  let hs := [Selected (pull sampleMessage); Interrupt;
             Selected (pull malformedMessage); Selected Done;
             Selected (pull sampleMessage)] in
  received hs = map pull [sampleMessage; malformedMessage]
                ++ Done :: [pull sampleMessage] /\
  ConsumeClaim (received hs) (mkSession [] [])
  = (mkSession
       [Stdout (green ++ bs "[23:59:01] [userService] [INFO] Request completed"
                ++ reset);
        Stdout (bs " (p:2, o:42)"); Stdout [newline];
        PrintlnErr (bs "Error parsing the log message ")
                   (JsonError json.SyntaxError)]
       [sampleMessage; malformedMessage],
     true).
Proof.
  cbv zeta. split; [reflexivity|].
  pose proof (ConsumeClaim_drains
                [Selected (pull sampleMessage); Interrupt;
                 Selected (pull malformedMessage); Selected Done;
                 Selected (pull sampleMessage)]
                [sampleMessage; malformedMessage] [pull sampleMessage]
                (mkSession [] []) eq_refl) as H.
  rewrite H. vm_compute. reflexivity.
Defined.

End ConsumerClaims.
